(** * Rolling performance differentials: a model of [fetch_data.py]

    The development embeds the data pipeline of [src/fetch_data.py]
    ([determine_season], [get_season_dates], the fetch functions,
    [extract_batter_teams], [compute_rolling_metrics], [build_output],
    [safe_round], [main]) and proves properties of it.

    Modelling conventions.
    - A pandas frame is the list of its rows, a column operation is a
      function applied to every row.
    - A Python float is a [pyfloat]: a finite value, one of the two
      infinities, or NaN.  Finite values are exact rationals ([Qc]), so the
      rounding error of binary floating point and the sign of zero are not
      represented; the special values follow IEEE 754 as numpy applies it
      (x/0 is an infinity for x <> 0, 0/0 is NaN, inf - inf is NaN).
    - A Python exception is a [Raise] in the error monad [exc].
    - The three module constants are the fields of a [config] record;
      [source_config] holds the values of the source. *)

From Stdlib Require Import QArith Qcanon Ascii String.
From stdpp Require Import base numbers option list sorting gmap strings pretty.

Local Open Scope Z_scope.
Local Open Scope nat_scope.

(** ** Python values *)

Inductive pyfloat :=
  | Fin (q : Qc)
  | PInf
  | NInf
  | NaN.

Global Instance pyfloat_eq_dec : EqDecision pyfloat.
Proof. solve_decision. Defined.

Global Instance pyfloat_inhabited : Inhabited pyfloat := populate NaN.

(** [pd.isna] on a float. *)
Definition isna (x : pyfloat) : bool :=
  match x with NaN => true | _ => false end.

(** The rational [n/d]. *)
Definition qc (n : Z) (d : positive) : Qc := Q2Qc (n # d).

Definition Qc_sign (q : Qc) : comparison := (Qnum q ?= 0)%Z.

(** Float negation, subtraction and division. *)
Definition fneg (x : pyfloat) : pyfloat :=
  match x with
  | Fin q => Fin (- q)%Qc
  | PInf => NInf
  | NInf => PInf
  | NaN => NaN
  end.

Definition fsub (x y : pyfloat) : pyfloat :=
  match x, y with
  | NaN, _ | _, NaN => NaN
  | Fin a, Fin b => Fin (a - b)%Qc
  | PInf, PInf | NInf, NInf => NaN
  | PInf, _ | _, NInf => PInf
  | NInf, _ | _, PInf => NInf
  end.

Definition fdiv (x y : pyfloat) : pyfloat :=
  match x, y with
  | NaN, _ | _, NaN => NaN
  | Fin a, Fin b =>
      match Qc_sign b with
      | Eq => match Qc_sign a with Eq => NaN | Gt => PInf | Lt => NInf end
      | _ => Fin (a / b)%Qc
      end
  | Fin _, (PInf | NInf) => Fin 0%Qc
  | (PInf | NInf), (PInf | NInf) => NaN
  | PInf, Fin b => match Qc_sign b with Lt => NInf | _ => PInf end
  | NInf, Fin b => match Qc_sign b with Lt => PInf | _ => NInf end
  end.

(** [x < y] on floats; every comparison with NaN is false. *)
Definition flt (x y : pyfloat) : bool :=
  match x, y with
  | NaN, _ | _, NaN => false
  | Fin a, Fin b => bool_decide (a < b)%Qc
  | PInf, _ | _, NInf => false
  | NInf, _ | _, PInf => true
  end.

Definition fle (x y : pyfloat) : bool :=
  match x, y with
  | NaN, _ | _, NaN => false
  | _, _ => negb (flt y x)
  end.

(** ** [round(x, ndigits)] *)

Fixpoint pow10 (ndigits : nat) : positive :=
  match ndigits with
  | O => 1%positive
  | S k => (10 * pow10 k)%positive
  end.

(** Nearest integer to [n/d], ties to the even one. *)
Definition round_half_even (n : Z) (d : positive) : Z :=
  let q := (n / Z.pos d)%Z in
  let r := (n mod Z.pos d)%Z in
  match (2 * r ?= Z.pos d)%Z with
  | Lt => q
  | Gt => (q + 1)%Z
  | Eq => if Z.even q then q else (q + 1)%Z
  end.

Definition Qc_round (ndigits : nat) (q : Qc) : Qc :=
  Q2Qc (round_half_even (Qnum q * Z.pos (pow10 ndigits)) (Qden q)
        # pow10 ndigits).

(** [round(float(x), ndigits)]: infinities and NaN round to themselves. *)
Definition py_round (ndigits : nat) (x : pyfloat) : pyfloat :=
  match x with
  | Fin q => Fin (Qc_round ndigits q)
  | _ => x
  end.

(** ** Exceptions *)

Inductive pyerror := IndexError | ValueError | TypeError.

Inductive exc (A : Type) :=
  | Ok (a : A)
  | Raise (e : pyerror).
Global Arguments Ok {A} a.
Global Arguments Raise {A} e.

Global Instance exc_ret : MRet exc := λ A, Ok.
Global Instance exc_bind : MBind exc := λ A B f m,
  match m with Ok a => f a | Raise e => Raise e end.
Global Instance exc_fmap : FMap exc := λ A B f m,
  match m with Ok a => Ok (f a) | Raise e => Raise e end.

(** [s.iloc[i]] and [l[i]] for [i >= 0]; [s.iloc[-1]]. *)
Definition iloc {A} (s : list A) (i : nat) : exc A :=
  match s !! i with Some x => Ok x | None => Raise IndexError end.

Definition iloc_last {A} (s : list A) : exc A :=
  match last s with Some x => Ok x | None => Raise IndexError end.

(** ** Stable sorting by a strict comparison of keys

    [sort_values lt l] orders [l] by the strict comparison [lt] and keeps
    the relative order of rows that compare equal. *)

Section sort_values.
Context {A : Type} (lt : A → A → bool).

Fixpoint sort_insert (x : A) (l : list A) : list A :=
  match l with
  | [] => [x]
  | y :: l' => if lt y x then y :: sort_insert x l' else x :: y :: l'
  end.

Fixpoint sort_values (l : list A) : list A :=
  match l with
  | [] => []
  | x :: l' => sort_insert x (sort_values l')
  end.

(** The order that a sort by [lt] establishes between a row and a later
    one: the later row is not strictly smaller. *)
Definition not_after (x y : A) : Prop := lt y x = false.

End sort_values.

(** ** Configuration: the module constants of the source *)

Record config := {
  ROLLING_WINDOWS : list nat;
  TREND_POINTS : nat;
  MIN_PA : nat }.

Definition source_config : config :=
  {| ROLLING_WINDOWS := [50; 100; 250]; TREND_POINTS := 20; MIN_PA := 50 |}.

(** ** Pitch-level rows

    One row per pitch.  [events] is present on the pitch that ends a plate
    appearance.  A numeric cell that is missing or that [pd.to_numeric]
    cannot parse is [None], and a cell that is present holds a finite
    number; dates are day numbers; the batter, the at-bat number and the
    team codes are present on every row. *)

Record pitch := {
  events : option string;
  batter : Z;
  game_date : Z;
  at_bat_number : Z;
  woba_value : option Qc;
  woba_denom : option Qc;
  estimated_woba_using_speedangle : option Qc;
  inning_topbot : string;
  home_team : string;
  away_team : string }.

(** [pitch_df[pitch_df["events"].notna()]] *)
Definition events_notna (pitch_df : list pitch) : list pitch :=
  filter (λ r, is_Some (events r)) pitch_df.

(** The comparison behind [sort_values(["game_date", "at_bat_number"])].
    pandas sorts on several columns with a stable routine: rows with equal
    keys keep their frame order, as [sort_values date_ab_lt] does.  Below
    it, the comparison of the game dates alone. *)
Definition date_ab_lt (r1 r2 : pitch) : bool :=
  bool_decide (game_date r1 < game_date r2)%Z
  || (bool_decide (game_date r1 = game_date r2)
      && bool_decide (at_bat_number r1 < at_bat_number r2)%Z).

Definition date_lt (r1 r2 : pitch) : bool :=
  bool_decide (game_date r1 < game_date r2)%Z.

(** The numeric columns after [pd.to_numeric(..., errors="coerce")]:
    [.fillna(0)] for the value and the weight, and the derived
    [xwoba_value] column. *)
Definition woba_value_num (r : pitch) : Qc := default 0%Qc (woba_value r).
Definition woba_denom_num (r : pitch) : Qc := default 0%Qc (woba_denom r).
Definition xwoba_value (r : pitch) : Qc :=
  default (woba_value_num r) (estimated_woba_using_speedangle r).

(** The keys of [groupby("batter")], ascending, and the group of a key. *)
Definition groupby_keys (pa_df : list pitch) : list Z :=
  sort_values Z.ltb (remove_dups (batter <$> pa_df)).

Definition group_of (pa_df : list pitch) (batter_id : Z) : list pitch :=
  filter (λ r, batter r = batter_id) pa_df.

(** ** [extract_batter_teams] *)

Definition bat_team (r : pitch) : string :=
  if decide (inning_topbot r = "Top") then away_team r else home_team r.

(** [sort_values("game_date")] sorts on one column with pandas' default
    [kind="quicksort"], which is not stable: the rows come out in ascending
    order of the date, and the order of the rows of one date is left to the
    routine.  The routine is the parameter [quicksort] of the model, and
    [sorts_by_date] is what is known of it.  One such routine is the
    insertion sort [insertion_by_date], which is what numpy's quicksort
    does on a short array. *)
Definition sorts_by_date (quicksort : list pitch → list pitch) : Prop :=
  ∀ pa_df,
    quicksort pa_df ≡ₚ pa_df
    ∧ StronglySorted (λ r1 r2, (game_date r1 ≤ game_date r2)%Z)
        (quicksort pa_df).

Definition insertion_by_date : list pitch → list pitch :=
  sort_values date_lt.

(** The dictionary of [groupby("batter")["bat_team"].last()]: for every
    batter of the date-ordered frame, the team of the last row of its
    group. *)
Definition extract_batter_teams (quicksort : list pitch → list pitch)
    (pitch_df : list pitch) : gmap Z string :=
  let pa_df := events_notna pitch_df in
  let pa_df := quicksort pa_df in
  list_to_map
    (omap (λ b, pair b <$> last (bat_team <$> group_of pa_df b))
          (groupby_keys pa_df)).

(** ** [compute_rolling_metrics] *)

Definition Qc_sum (xs : list Qc) : Qc := foldr Qcplus 0%Qc xs.

(** The [window] consecutive rows that end at position [i]. *)
Definition window_at {A} (window i : nat) (l : list A) : list A :=
  take window (drop (S i - window) l).

(** [xs.rolling(window=window, min_periods=window).sum()]: at position [i]
    the sum of the [window] values ending at [i], NaN while fewer than
    [window] values have been seen. *)
Definition rolling_sum (window : nat) (xs : list Qc) : list pyfloat :=
  imap (λ i _, if decide (window ≤ S i)
               then Fin (Qc_sum (window_at window i xs))
               else NaN) xs.

Definition rolling_woba (window : nat) (batter_pa : list pitch) : list pyfloat :=
  zip_with fdiv (rolling_sum window (woba_value_num <$> batter_pa))
                (rolling_sum window (woba_denom_num <$> batter_pa)).

Definition rolling_xwoba (window : nat) (batter_pa : list pitch) : list pyfloat :=
  zip_with fdiv (rolling_sum window (xwoba_value <$> batter_pa))
                (rolling_sum window (woba_denom_num <$> batter_pa)).

Definition rolling_diff (window : nat) (batter_pa : list pitch) : list pyfloat :=
  zip_with fsub (rolling_woba window batter_pa) (rolling_xwoba window batter_pa).

(** [s.iloc[-1] if not pd.isna(s.iloc[-1]) else None] *)
Definition none_if_na (x : pyfloat) : option pyfloat :=
  if isna x then None else Some x.

Definition latest (s : list pyfloat) : exc (option pyfloat) :=
  none_if_na <$> iloc_last s.

(** [s.dropna()] *)
Definition dropna (s : list pyfloat) : list pyfloat :=
  filter (λ x, x ≠ NaN) s.

(** [np.linspace(0, stop, num, dtype=int)]: the [num] evenly spaced points
    [i * stop / (num - 1)], each cut down to an integer. *)
Definition linspace_int (stop num : nat) : list nat :=
  (λ i, i * stop / (num - 1)) <$> seq 0 num.

(** The two trend arrays, lines 170-179. *)
Definition trends (cfg : config) (valid_woba valid_xwoba : list pyfloat)
    : exc (list pyfloat * list pyfloat) :=
  if decide (TREND_POINTS cfg ≤ length valid_woba) then
    let indices := linspace_int (length valid_woba - 1) (TREND_POINTS cfg) in
    trend_woba ← mapM (λ i, py_round 3 <$> iloc valid_woba i) indices;
    trend_xwoba ← mapM (λ i, py_round 3 <$> iloc valid_xwoba i) indices;
    mret (trend_woba, trend_xwoba)
  else if decide (0 < length valid_woba) then
    mret (py_round 3 <$> valid_woba, py_round 3 <$> valid_xwoba)
  else
    mret ([], []).

(** [[round(float(tw[i] - tx[i]), 3) for i in range(len(tw))]] *)
Definition trend_difference (tw tx : list pyfloat) : exc (list pyfloat) :=
  mapM (λ i, a ← iloc tw i; b ← iloc tx i; mret (py_round 3 (fsub a b)))
       (seq 0 (length tw)).

Record window_result := {
  w_rolling_woba : option pyfloat;
  w_rolling_xwoba : option pyfloat;
  w_diff_rolling_OBA : option pyfloat;
  w_trend_woba : list pyfloat;
  w_trend_xwoba : list pyfloat;
  w_trend_diff : list pyfloat }.

Global Instance window_result_eq_dec : EqDecision window_result.
Proof. solve_decision. Defined.

(** The body of the loop over the windows, lines 152-188. *)
Definition window_metrics (cfg : config) (batter_pa : list pitch) (window : nat)
    : exc window_result :=
  latest_woba ← latest (rolling_woba window batter_pa);
  latest_xwoba ← latest (rolling_xwoba window batter_pa);
  latest_diff ← latest (rolling_diff window batter_pa);
  let valid_woba := dropna (rolling_woba window batter_pa) in
  let valid_xwoba := dropna (rolling_xwoba window batter_pa) in
  '(trend_woba, trend_xwoba) ← trends cfg valid_woba valid_xwoba;
  trend_diff ← trend_difference trend_woba trend_xwoba;
  mret {| w_rolling_woba := py_round 3 <$> latest_woba;
          w_rolling_xwoba := py_round 3 <$> latest_xwoba;
          w_diff_rolling_OBA := py_round 3 <$> latest_diff;
          w_trend_woba := trend_woba;
          w_trend_xwoba := trend_xwoba;
          w_trend_diff := trend_diff |}.

(** The loop over [ROLLING_WINDOWS]; the key of a window is [str(window)]. *)
Fixpoint windows_loop (cfg : config) (batter_pa : list pitch)
    (todo : list nat) (windows : gmap string window_result)
    : exc (gmap string window_result) :=
  match todo with
  | [] => mret windows
  | window :: todo' =>
      if decide (length batter_pa < window) then
        windows_loop cfg batter_pa todo' windows
      else
        r ← window_metrics cfg batter_pa window;
        windows_loop cfg batter_pa todo' (<[pretty window := r]> windows)
  end.

Record batter_result := {
  total_pa : nat;
  windows : gmap string window_result }.

(** The body of the loop over the batters, lines 138-191: [None] when the
    batter gets no entry. *)
Definition batter_metrics (cfg : config) (group : list pitch)
    : exc (option batter_result) :=
  let batter_pa := sort_values date_ab_lt group in
  let total_pa := length batter_pa in
  if decide (total_pa < MIN_PA cfg) then mret None
  else
    ws ← windows_loop cfg batter_pa (ROLLING_WINDOWS cfg) ∅;
    if decide (ws = ∅) then mret None
    else mret (Some {| total_pa := total_pa; windows := ws |}).

Fixpoint batters_loop (cfg : config) (pa_df : list pitch) (todo : list Z)
    (results : gmap Z batter_result) : exc (gmap Z batter_result) :=
  match todo with
  | [] => mret results
  | batter_id :: todo' =>
      r ← batter_metrics cfg (group_of pa_df batter_id);
      batters_loop cfg pa_df todo'
        (match r with
         | Some batter_result => <[batter_id := batter_result]> results
         | None => results
         end)
  end.

Definition compute_rolling_metrics (cfg : config) (pitch_df : list pitch)
    : exc (gmap Z batter_result) :=
  let pa_df := events_notna pitch_df in
  let pa_df := sort_values date_ab_lt pa_df in
  batters_loop cfg pa_df (groupby_keys pa_df) ∅.

(** ** [safe_round]

    A cell of a season or batted-ball row, as [row.get] returns it: [None],
    a float, or another object, which is represented by what [float()]
    makes of it ([None] when [float()] raises). *)

Inductive pyval :=
  | PNone
  | PFloat (x : pyfloat)
  | PObj (as_float : option pyfloat).

Definition safe_round (val : pyval) (decimals : nat) : option pyfloat :=
  match val with
  | PNone => None
  | PFloat x => if isna x then None else Some (py_round decimals x)
  | PObj (Some x) => Some (py_round decimals x)
  | PObj None => None
  end.

(** [pd.notna(val)] and [float(val)]. *)
Definition pd_notna (val : pyval) : bool :=
  match val with
  | PNone => false
  | PFloat x => negb (isna x)
  | PObj _ => true
  end.

Definition py_float (val : pyval) : exc pyfloat :=
  match val with
  | PNone => Raise TypeError
  | PFloat x => Ok x
  | PObj (Some x) => Ok x
  | PObj None => Raise ValueError
  end.

(** ** [build_output] *)

Record season_row := {
  s_player_id : Z;
  s_pa : Z;
  s_name : string;
  s_ba : pyval;
  s_woba : pyval;
  s_est_woba : pyval;
  s_est_woba_minus_woba_diff : pyval;
  s_est_ba : pyval;
  s_est_slg : pyval }.

Record ev_row := {
  ev_player_id : Z;
  avg_hit_speed : pyval;
  avg_hit_angle : pyval;
  ev95percent : pyval;
  brl_percent : pyval;
  max_hit_speed : pyval }.

(** The five batted-ball keys of a player, present together or not at all. *)
Record batted_ball := {
  exit_velocity : option pyfloat;
  launch_angle : option pyfloat;
  hard_hit_pct : option pyfloat;
  barrel_pct : option pyfloat;
  max_exit_velocity : option pyfloat }.

(** A player dictionary.  A key that the source may leave out is an
    [option]; the value under ["diff_rolling_OBA"] may be [None]. *)
Record player := {
  player_id : Z;
  name : string;
  team : string;
  pa : Z;
  batting_avg : option pyfloat;
  wOBA : option pyfloat;
  xwOBA : option pyfloat;
  diff_season : option pyfloat;
  xBA : option pyfloat;
  xSLG : option pyfloat;
  batted : option batted_ball;
  rolling : option (gmap string window_result);
  total_pa_events : option nat;
  diff_rolling_OBA : option pyfloat }.

(** [str.strip()] on the ASCII white space characters. *)
Definition is_space (c : ascii) : bool :=
  let n := nat_of_ascii c in
  ((9 <=? n) && (n <=? 13)) || ((28 <=? n) && (n <=? 32)).

Fixpoint lstrip (s : string) : string :=
  match s with
  | String c s' => if is_space c then lstrip s' else s
  | EmptyString => EmptyString
  end.

Definition strip (s : string) : string :=
  String.rev (lstrip (String.rev (lstrip s))).

(** [s.split(",", 1)] when [s] has a comma, [None] when it has none. *)
Fixpoint split_comma (s : string) : option (string * string) :=
  match s with
  | EmptyString => None
  | String c s' =>
      if decide (c = ","%char) then Some (EmptyString, s')
      else '(a, b) ← split_comma s'; Some (String c a, b)
  end.

Definition display_name (raw : string) : string :=
  let raw_name := strip raw in
  match split_comma raw_name with
  | Some (last_name, first_name) => strip first_name +:+ " " +:+ strip last_name
  | None => raw_name
  end.

(** The rows of [ev_df] of a player, first one taken: lines 242-250. *)
Definition merge_ev (ev_df : option (list ev_row)) (id : Z) : option batted_ball :=
  ev_df ← ev_df;
  ev_row ← head (filter (λ r, ev_player_id r = id) ev_df);
  Some {| exit_velocity := safe_round (avg_hit_speed ev_row) 1;
          launch_angle := safe_round (avg_hit_angle ev_row) 1;
          hard_hit_pct := safe_round (ev95percent ev_row) 1;
          barrel_pct := safe_round (brl_percent ev_row) 1;
          max_exit_velocity := safe_round (max_hit_speed ev_row) 1 |}.

(** The loop of lines 258-264: the differential of the first window of
    [order] that is present and whose differential is not [None]. *)
Fixpoint select_window (windows : gmap string window_result) (order : list nat)
    : option pyfloat :=
  match order with
  | [] => None
  | w :: order' =>
      match windows !! pretty w with
      | Some wd =>
          match w_diff_rolling_OBA wd with
          | Some d => Some d
          | None => select_window windows order'
          end
      | None => select_window windows order'
      end
  end.

(** The value stored under ["diff_rolling_OBA"], lines 253-273; the outer
    [option] tells whether the loop over the windows stored one. *)
Definition rolling_choice (rolling_data : gmap Z batter_result) (id : Z)
    : option pyfloat :=
  br ← rolling_data !! id; select_window (windows br) [100; 50; 250].

Definition season_fallback (row : season_row) : exc (option pyfloat) :=
  let season_diff := s_est_woba_minus_woba_diff row in
  if pd_notna season_diff then
    x ← py_float season_diff; mret (safe_round (PFloat (fneg x)) 3)
  else mret (Some (Fin 0%Qc)).

Definition primary_differential (rolling_data : gmap Z batter_result)
    (row : season_row) : exc (option pyfloat) :=
  match rolling_choice rolling_data (s_player_id row) with
  | Some d => mret (Some d)
  | None => season_fallback row
  end.

(** One iteration of the loop over the season rows, after the test on
    [pa]. *)
Definition build_player (ev_df : option (list ev_row))
    (rolling_data : gmap Z batter_result) (team_map : gmap Z string)
    (row : season_row) : exc player :=
  let id := s_player_id row in
  d ← primary_differential rolling_data row;
  mret {| player_id := id;
          name := display_name (s_name row);
          team := default EmptyString (team_map !! id);
          pa := s_pa row;
          batting_avg := safe_round (s_ba row) 3;
          wOBA := safe_round (s_woba row) 3;
          xwOBA := safe_round (s_est_woba row) 3;
          diff_season := safe_round (s_est_woba_minus_woba_diff row) 3;
          xBA := safe_round (s_est_ba row) 3;
          xSLG := safe_round (s_est_slg row) 3;
          batted := merge_ev ev_df id;
          rolling := windows <$> rolling_data !! id;
          total_pa_events := total_pa <$> rolling_data !! id;
          diff_rolling_OBA := d |}.

Fixpoint rows_loop (cfg : config) (ev_df : option (list ev_row))
    (rolling_data : gmap Z batter_result) (team_map : gmap Z string)
    (todo : list season_row) (players : list player) : exc (list player) :=
  match todo with
  | [] => mret players
  | row :: todo' =>
      if decide (s_pa row < Z.of_nat (MIN_PA cfg))%Z then
        rows_loop cfg ev_df rolling_data team_map todo' players
      else
        p ← build_player ev_df rolling_data team_map row;
        rows_loop cfg ev_df rolling_data team_map todo' (players ++ [p])
  end.

(** [players.sort(key=lambda p: p.get("diff_rolling_OBA", 0))].  The sort
    compares keys with [<] as soon as there are two players, and comparing
    [None] raises.  On float keys it is a stable sort; the model follows it
    on keys that are not NaN. *)
Definition key_lt (p q : player) : bool :=
  match diff_rolling_OBA p, diff_rolling_OBA q with
  | Some x, Some y => flt x y
  | _, _ => false
  end.

Definition sort_players (players : list player) : exc (list player) :=
  if decide (2 ≤ length players ∧ Exists (λ p, diff_rolling_OBA p = None) players)
  then Raise TypeError
  else mret (sort_values key_lt players).

(** The returned dictionary; ["generated_at"] is the wall clock and is left
    out. *)
Record output := {
  season : Z;
  total_players : nat;
  min_pa : nat;
  rolling_windows : list nat;
  players : list player }.

Definition build_output (cfg : config) (expected_df : list season_row)
    (ev_df : option (list ev_row)) (rolling_data : gmap Z batter_result)
    (team_map : gmap Z string) (year : Z) : exc output :=
  players ← rows_loop cfg ev_df rolling_data team_map expected_df [];
  players ← sort_players players;
  mret {| season := year;
          total_players := length players;
          min_pa := MIN_PA cfg;
          rolling_windows := ROLLING_WINDOWS cfg;
          players := players |}.

(** ** Derived notions used in the statements *)

(** The last [n] elements of a list. *)
Definition lastn {A} (n : nat) (l : list A) : list A :=
  drop (length l - n) l.

(** The plate-appearance sequence [batter_pa] that the loop over the
    batters works on, for one batter. *)
Definition batter_events (pitch_df : list pitch) (batter_id : Z) : list pitch :=
  sort_values date_ab_lt
    (group_of (sort_values date_ab_lt (events_notna pitch_df)) batter_id).

(** The number of plate-appearance-ending events of a batter. *)
Definition qualifying_count (pitch_df : list pitch) (batter_id : Z) : nat :=
  length (group_of (events_notna pitch_df) batter_id).

(** The ratios of the specification over a list of events: the sum of the
    realized (expected) values divided by the sum of the weights, and their
    difference. *)
Definition woba_ratio (rows : list pitch) : pyfloat :=
  fdiv (Fin (Qc_sum (woba_value_num <$> rows)))
       (Fin (Qc_sum (woba_denom_num <$> rows))).

Definition xwoba_ratio (rows : list pitch) : pyfloat :=
  fdiv (Fin (Qc_sum (xwoba_value <$> rows)))
       (Fin (Qc_sum (woba_denom_num <$> rows))).

Definition ratio_differential (rows : list pitch) : pyfloat :=
  fsub (woba_ratio rows) (xwoba_ratio rows).

(** The chronological order of two events: by game date, then by at-bat
    number. *)
Definition date_ab_le (r1 r2 : pitch) : Prop :=
  (game_date r1 < game_date r2)%Z
  ∨ (game_date r1 = game_date r2 ∧ (at_bat_number r1 ≤ at_bat_number r2)%Z).

(** [t] is a sample of [m] points of the defined values [v] of a series:
    [min(m, n)] values for the [n] defined ones; with [m <= n] the [k]-th
    is the rounded value at index [k * (n - 1) / (m - 1)], cut down to an
    integer, which takes the first and the last defined value; with fewer
    defined values all of them, rounded, in order. *)
Definition floor_sampled (m : nat) (v t : list pyfloat) : Prop :=
  let n := length v in
  length t = m `min` n
  ∧ (m ≤ n → ∀ k, k < m →
       t !! k = py_round 3 <$> v !! (k * (n - 1) / (m - 1)))
  ∧ (m ≤ n → 0 < m → t !! 0 = py_round 3 <$> v !! 0)
  ∧ (m ≤ n → 2 ≤ m → t !! (m - 1) = py_round 3 <$> v !! (n - 1))
  ∧ (n < m → t = py_round 3 <$> v)
  ∧ (n = 0 → t = []).

(** ** Example inputs *)

Definition plate_appearance (b date ab : Z) (value weight expected : option Qc)
    : pitch :=
  {| events := Some "field_out"%string; batter := b; game_date := date;
     at_bat_number := ab; woba_value := value; woba_denom := weight;
     estimated_woba_using_speedangle := expected;
     inning_topbot := "Top"; home_team := "NYY"; away_team := "BOS" |}.

(** Sixty plate appearances of batter 7, four a day, all of weight 1, with
    realized values alternating 0.3 and 0 and expected value 0.31. *)
Definition sixty_events : list pitch :=
  (λ i, plate_appearance 7 (Z.of_nat (i / 4)) (Z.of_nat i)
          (Some (if Nat.even i then qc 3 10 else qc 0 1))
          (Some (qc 1 1)) (Some (qc 31 100))) <$> seq 0 60.

(** Thirty defined values 0.000, 0.001, ..., 0.029. *)
Definition thirty_values : list pyfloat :=
  (λ i, Fin (qc (Z.of_nat i) 1000)) <$> seq 0 30.

(** Two plate appearances of batter 9, and a configuration whose smallest
    window exceeds its minimum count. *)
Definition two_events : list pitch :=
  [plate_appearance 9 1 1 (Some (qc 9 10)) (Some (qc 1 1)) None;
   plate_appearance 9 1 2 (Some (qc 0 1)) (Some (qc 1 1)) None].

Definition wide_window_config : config :=
  {| ROLLING_WINDOWS := [3]; TREND_POINTS := 20; MIN_PA := 2 |}.

(** Plate appearances of batter 4, one a day: first [bunts] of weight 0 and
    realized value 0 with expected value 0.5 (sacrifice bunts), then [hits]
    of weight 1, realized value 0.9 and expected value 0.5. *)
Definition bunts_then_hits (bunts hits : nat) : list pitch :=
  ((λ i, plate_appearance 4 (Z.of_nat i) 1
           (Some (qc 0 1)) (Some (qc 0 1)) (Some (qc 1 2))) <$> seq 0 bunts)
  ++ ((λ i, plate_appearance 4 (Z.of_nat (bunts + i)) 1
              (Some (qc 9 10)) (Some (qc 1 1)) (Some (qc 1 2))) <$> seq 0 hits).

(** Seventy-nine plate appearances of batter 5, one a day, of weight 1,
    the [i]-th with realized value [i/100]. *)
Definition ramp_events : list pitch :=
  (λ i, plate_appearance 5 (Z.of_nat i) 1
          (Some (qc (Z.of_nat i) 100)) (Some (qc 1 1)) None) <$> seq 0 79.

(** Exactly fifty plate appearances of batter 7. *)
Definition fifty_events : list pitch := take 50 sixty_events.

(** Season rows: batter 7 with 300 plate appearances, and two players whose
    provider differentials are -0.02 and +0.05. *)
Definition provider_row (id pa_count : Z) (provider_diff : pyval) : season_row :=
  {| s_player_id := id; s_pa := pa_count; s_name := "Trout, Mike";
     s_ba := PFloat (Fin (qc 281 1000)); s_woba := PFloat (Fin (qc 350 1000));
     s_est_woba := PFloat (Fin (qc 340 1000));
     s_est_woba_minus_woba_diff := provider_diff;
     s_est_ba := PNone; s_est_slg := PFloat NaN |}.

Definition two_seasons : list season_row :=
  [provider_row 2 300 (PFloat (Fin (qc (-2) 100)));
   provider_row 1 300 (PFloat (Fin (qc 5 100)))].

(** A window result that only carries a differential, and rolling data of
    batter 7 in which window 100 is present without a differential. *)
Definition window_with (d : option pyfloat) : window_result :=
  {| w_rolling_woba := None; w_rolling_xwoba := None;
     w_diff_rolling_OBA := d;
     w_trend_woba := []; w_trend_xwoba := []; w_trend_diff := [] |}.

Definition skipping_data : gmap Z batter_result :=
  {[ 7%Z := {| total_pa := 120;
               windows := {[ "100"%string := window_with None;
                             "50"%string := window_with (Some (Fin (qc 3 100))) ]}
            |} ]}.

(** Two plate appearances of batter 1 on one day, listed with the later
    at-bat first: at-bat 5 in the top of an inning for the away team NYY,
    at-bat 2 in the bottom of an inning for the home team BOS. *)
Definition same_day_events : list pitch :=
  [ {| events := Some "single"%string; batter := 1; game_date := 1;
       at_bat_number := 5; woba_value := None; woba_denom := None;
       estimated_woba_using_speedangle := None;
       inning_topbot := "Top"; home_team := "SEA"; away_team := "NYY" |};
    {| events := Some "walk"%string; batter := 1; game_date := 1;
       at_bat_number := 2; woba_value := None; woba_denom := None;
       estimated_woba_using_speedangle := None;
       inning_topbot := "Bot"; home_team := "BOS"; away_team := "SEA" |} ].

(** Fifty plate appearances of batter 3 with realized value 0.9 whose
    weight cell is missing; in the second list the expected value 0.0 is
    present. *)
Definition weightless_events : list pitch :=
  replicate 50 (plate_appearance 3 1 1 (Some (qc 9 10)) None None).

Definition misaligned_events : list pitch :=
  replicate 50 (plate_appearance 3 1 1 (Some (qc 9 10)) None (Some (qc 0 1))).

(** ** Well-formed rolling data *)

(** The weights of the qualifying events are not negative, and an event of
    weight zero has realized value zero. *)
Definition weights_consistent (pitch_df : list pitch) : Prop :=
  ∀ r, r ∈ pitch_df → is_Some (events r) →
    (0 ≤ woba_denom_num r)%Qc
    ∧ (woba_denom_num r = 0%Qc → woba_value_num r = 0%Qc).


(** No window of the rolling data holds NaN as its differential: an
    undefined differential is [None]. *)
Definition no_nan_differential (rolling_data : gmap Z batter_result) : Prop :=
  ∀ b br key wr,
    rolling_data !! b = Some br → windows br !! key = Some wr →
    w_diff_rolling_OBA wr ≠ Some NaN.

(** The headline differential of window [w] of a batter result, when the
    window is present and its differential is not [None]. *)
Definition headline (br : batter_result) (w : nat) : option pyfloat :=
  wd ← windows br !! pretty w; w_diff_rolling_OBA wd.

(** ** Notions of the specification that the source does not define *)

(** [j] is an index nearest to the exact position [k * stop / (num - 1)] of
    the [k]-th of [num] evenly spaced points between 0 and [stop]. *)
Definition nearest_index (stop num k j : nat) : Prop :=
  ∀ j' : nat,
    (Z.abs (Z.of_nat j * Z.of_nat (num - 1) - Z.of_nat k * Z.of_nat stop)
     ≤ Z.abs (Z.of_nat j' * Z.of_nat (num - 1) - Z.of_nat k * Z.of_nat stop))%Z.

(** ** [get_season_dates]

    The date of the clock, [date.today()], is a parameter. *)

Record pydate := {
  d_year : Z;
  d_month : Z;
  d_day : Z }.

(** [f"{n:02d}"], the form of [%m] and [%d]. *)
Definition pad2 (n : Z) : string :=
  if decide (n < 10)%Z then "0" +:+ pretty n else pretty n.

(** [d.strftime("%Y-%m-%d")], for a year of four digits. *)
Definition strftime_ymd (d : pydate) : string :=
  pretty (d_year d) +:+ "-" +:+ pad2 (d_month d) +:+ "-" +:+ pad2 (d_day d).

(** [a < b] on strings, the lexicographic order of the code points, and
    [min(a, b)], which is [a] unless [b] is smaller. *)
Fixpoint str_lt (a b : string) : bool :=
  match a, b with
  | _, EmptyString => false
  | EmptyString, String _ _ => true
  | String c a', String c' b' =>
      (N_of_ascii c <? N_of_ascii c')%N
      || ((N_of_ascii c =? N_of_ascii c')%N && str_lt a' b')
  end.

Definition str_min (a b : string) : string :=
  if str_lt b a then b else a.

Definition get_season_dates (year : Z) (today : pydate) : string * string :=
  let start := pretty year +:+ "-03-20" in
  let end_ := str_min (pretty year +:+ "-10-05") (strftime_ymd today) in
  (start, end_).

(** The order of the calendar. *)
Definition date_before (d1 d2 : pydate) : Prop :=
  (d_year d1 < d_year d2
   ∨ (d_year d1 = d_year d2
      ∧ (d_month d1 < d_month d2
         ∨ (d_month d1 = d_month d2 ∧ d_day d1 < d_day d2))))%Z.

Global Instance date_before_dec d1 d2 : Decision (date_before d1 d2).
Proof. unfold date_before. apply _. Defined.

(** The decimal digits of a number below 100, and of one below 10000. *)
Definition two_digits (n : N) : string :=
  String (pretty_N_char (n / 10)) (String (pretty_N_char (n `mod` 10)) "").

Definition four_digits (n : N) : string :=
  String (pretty_N_char (n / 10 / 10 / 10))
    (String (pretty_N_char ((n / 10 / 10) `mod` 10))
       (String (pretty_N_char ((n / 10) `mod` 10))
          (String (pretty_N_char (n `mod` 10)) ""))).

(** ** The pipeline: [determine_season], the fetch functions and [main]

    The statistics provider is a parameter: what its three entry points
    return for a season year, or for a start and an end date, or the
    exception they raise.  The provider answers the same call in the same
    way, as the enabled cache makes it.  Printing and the writing of the
    file are left out; [main] is modelled by the dictionary that it
    dumps. *)

Record provider := {
  statcast_batter_expected_stats : Z → exc (option (list season_row));
  statcast_batter_exitvelo_barrels : Z → exc (list ev_row);
  statcast : string → string → exc (list pitch) }.

(** The [try] block of [determine_season] for one year: whether it
    returns that year. *)
Definition season_found (P : provider) (try_year : Z) : bool :=
  match statcast_batter_expected_stats P try_year with
  | Ok (Some df) => bool_decide (50 < length df)
  | Ok None => false
  | Raise _ => false
  end.

Fixpoint try_seasons (P : provider) (years : list Z) : option Z :=
  match years with
  | [] => None
  | try_year :: years' =>
      if season_found P try_year then Some try_year
      else try_seasons P years'
  end.

Definition determine_season (P : provider) (today : pydate) : Z :=
  let year := d_year today in
  match try_seasons P [year; (year - 1)%Z] with
  | Some try_year => try_year
  | None => 2024%Z
  end.

(** [len(df)] in the progress line raises [TypeError] on [None]. *)
Definition fetch_expected_stats (P : provider) (year : Z)
    : exc (list season_row) :=
  df ← statcast_batter_expected_stats P year;
  match df with
  | Some rows => mret rows
  | None => Raise TypeError
  end.

Definition fetch_ev_barrels (P : provider) (year : Z) : exc (list ev_row) :=
  statcast_batter_exitvelo_barrels P year.

Definition fetch_pitch_level (P : provider) (year : Z) (today : pydate)
    : exc (list pitch) :=
  let '(start, end_) := get_season_dates year today in
  statcast P start end_.

(** Step 3 of [main]: the team lookup and the rolling data, both empty when
    any of the three calls raises. *)
Definition pitch_level_data (cfg : config)
    (quicksort : list pitch → list pitch) (P : provider) (year : Z)
    (today : pydate) : gmap Z batter_result * gmap Z string :=
  match
    pitch_df ← fetch_pitch_level P year today;
    let team_map := extract_batter_teams quicksort pitch_df in
    rolling_data ← compute_rolling_metrics cfg pitch_df;
    mret (rolling_data, team_map)
  with
  | Ok data => data
  | Raise _ => (∅, ∅)
  end.

Definition main (cfg : config) (quicksort : list pitch → list pitch)
    (P : provider) (today : pydate) : exc output :=
  let year := determine_season P today in
  expected_df ← fetch_expected_stats P year;
  let ev_df :=
    match fetch_ev_barrels P year with
    | Ok df => Some df
    | Raise _ => None
    end in
  let '(rolling_data, team_map) :=
    pitch_level_data cfg quicksort P year today in
  build_output cfg expected_df ev_df rolling_data team_map year.

(** [c in s] for a character [c]. *)
Fixpoint contains (c : ascii) (s : string) : bool :=
  match s with
  | EmptyString => false
  | String c' s' => bool_decide (c' = c) || contains c s'
  end.

(** The batted-ball keys that [build_output] writes from one row of the
    exit-velocity table. *)
Definition batted_ball_of (ev_row : ev_row) : batted_ball :=
  {| exit_velocity := safe_round (avg_hit_speed ev_row) 1;
     launch_angle := safe_round (avg_hit_angle ev_row) 1;
     hard_hit_pct := safe_round (ev95percent ev_row) 1;
     barrel_pct := safe_round (brl_percent ev_row) 1;
     max_exit_velocity := safe_round (max_hit_speed ev_row) 1 |}.

(** The season rows that reach the minimum count of plate appearances. *)
Definition qualified_rows (cfg : config) (expected_df : list season_row)
    : list season_row :=
  filter (λ row, (Z.of_nat (MIN_PA cfg) ≤ s_pa row)%Z) expected_df.

(** A player whose primary differential is a number: the players that the
    ranking can compare. *)
Definition ranked (p : player) : Prop :=
  ∃ x, diff_rolling_OBA p = Some x ∧ x ≠ NaN.

(** The exit-velocity table of step 2 as [build_output] receives it. *)
Definition ev_table (P : provider) (year : Z) : option (list ev_row) :=
  match fetch_ev_barrels P year with
  | Ok df => Some df
  | Raise _ => None
  end.

(** What [build_output] stores under ["diff_rolling_OBA"], read off the
    other keys of the player: the differential of the first window in the
    order 100, 50, 250 that has one, else the season differential with
    its sign changed, else 0.0. *)
Definition mirrored_differential (p : player) : option pyfloat :=
  match ws ← rolling p; select_window ws [100; 50; 250] with
  | Some d => Some d
  | None =>
      match diff_season p with
      | Some x => none_if_na (fneg x)
      | None => Some (Fin 0%Qc)
      end
  end.

(** Example providers: the given season rows for every year, no
    batted-ball table, and the given answer to the pitch-level query. *)
Definition example_provider (rows : list season_row)
    (pitch_df : exc (list pitch)) : provider :=
  {| statcast_batter_expected_stats := λ _, Ok (Some rows);
     statcast_batter_exitvelo_barrels := λ _, Raise ValueError;
     statcast := λ _ _, pitch_df |}.

(** The first of June of a year. *)
Definition june_first (year : Z) : pydate :=
  {| d_year := year; d_month := 6; d_day := 1 |}.

(** * Properties *)

(** ** Rounding *)

Lemma round_half_even_mul z d : round_half_even (z * Z.pos d) d = z.
Proof.
  unfold round_half_even.
  rewrite Z.div_mul, Z.mod_mul by lia. reflexivity.
Qed.

Lemma Qc_round_decimal ndigits z :
  Qc_round ndigits (Q2Qc (z # pow10 ndigits)) = Q2Qc (z # pow10 ndigits).
Proof.
  set (p := pow10 ndigits).
  assert (Hred : (Qnum (Qred (z # p)) * Z.pos p
                  = z * Z.pos (Qden (Qred (z # p))))%Z)
    by apply (Qred_correct (z # p)).
  unfold Qc_round. fold p. simpl this.
  by rewrite Hred, round_half_even_mul.
Qed.

Lemma Qc_round_idem ndigits q :
  Qc_round ndigits (Qc_round ndigits q) = Qc_round ndigits q.
Proof. unfold Qc_round at 2 3. apply Qc_round_decimal. Qed.

Lemma py_round_idem ndigits x :
  py_round ndigits (py_round ndigits x) = py_round ndigits x.
Proof. destruct x; simpl; [f_equal; apply Qc_round_idem | done..]. Qed.

Lemma isna_py_round ndigits x : isna (py_round ndigits x) = isna x.
Proof. by destruct x. Qed.

Lemma py_round_not_nan ndigits x : x ≠ NaN → py_round ndigits x ≠ NaN.
Proof. by destruct x. Qed.

Lemma none_if_na_Some x y : none_if_na x = Some y ↔ x = y ∧ y ≠ NaN.
Proof. destruct x; cbn; split; intros; destruct_and?; by simplify_eq. Qed.

Lemma none_if_na_None x : none_if_na x = None ↔ x = NaN.
Proof. by destruct x. Qed.

(** ** The float order away from NaN *)

Lemma flt_asym x y : flt x y = true → flt y x = false.
Proof.
  destruct x, y; simpl; try done.
  rewrite bool_decide_eq_true, bool_decide_eq_false.
  intros H1 H2. apply (Qclt_not_le _ _ H1). by apply Qclt_le_weak.
Qed.

Lemma fle_flt x y : x ≠ NaN → y ≠ NaN → fle x y = negb (flt y x).
Proof. by destruct x, y. Qed.

Lemma fle_Fin a b : fle (Fin a) (Fin b) = true ↔ (a ≤ b)%Qc.
Proof.
  simpl. rewrite negb_true_iff, bool_decide_eq_false. symmetry. apply Qcle_ngt.
Qed.

(** ** The stable sort *)

Section sort_values_facts.
Context {A : Type} (lt : A → A → bool).
Implicit Types (x : A) (l : list A).

Lemma sort_insert_Permutation x l : sort_insert lt x l ≡ₚ x :: l.
Proof.
  induction l as [|y l IH]; simpl; [done|].
  destruct (lt y x); [|done].
  rewrite IH. apply Permutation_swap.
Qed.

Lemma sort_values_Permutation l : sort_values lt l ≡ₚ l.
Proof.
  induction l as [|x l IH]; simpl; [done|].
  by rewrite sort_insert_Permutation, IH.
Qed.

Lemma length_sort_values l : length (sort_values lt l) = length l.
Proof. by rewrite sort_values_Permutation. Qed.

Lemma elem_of_sort_values x l : x ∈ sort_values lt l ↔ x ∈ l.
Proof. by rewrite sort_values_Permutation. Qed.

Hypothesis lt_asym : ∀ x y, lt x y = true → lt y x = false.

Lemma sort_insert_Sorted x l :
  Sorted (not_after lt) l → Sorted (not_after lt) (sort_insert lt x l).
Proof.
  induction 1 as [|y l Hl IH Hhd]; simpl.
  { repeat constructor. }
  destruct (lt y x) eqn:Hyx.
  - constructor; [done|].
    destruct Hhd as [|z l Hyz]; simpl.
    + constructor. by apply lt_asym.
    + destruct (lt z x); constructor; [done|by apply lt_asym].
  - repeat constructor; done.
Qed.

Lemma sort_values_Sorted l : Sorted (not_after lt) (sort_values lt l).
Proof.
  induction l as [|x l IH]; simpl; [constructor|by apply sort_insert_Sorted].
Qed.

Lemma Sorted_lookup_succ (R : A → A → Prop) l i x y :
  Sorted R l → l !! i = Some x → l !! S i = Some y → R x y.
Proof.
  intros Hl. revert i. induction Hl as [|z l Hl IH Hhd]; intros i Hx Hy; [done|].
  destruct i as [|i]; simpl in *.
  - simplify_eq. destruct Hhd; simpl in *; by simplify_eq.
  - eauto.
Qed.

End sort_values_facts.

(** ** The error monad *)

Lemma exc_bind_Ok {A B} (f : A → exc B) (m : exc A) b :
  m ≫= f = Ok b ↔ ∃ a, m = Ok a ∧ f a = Ok b.
Proof.
  destruct m as [a|e]; cbn.
  - split; [by exists a|]. by intros (? & [= <-] & ?).
  - split; [done|]. by intros (? & ? & ?).
Qed.

Lemma exc_fmap_Ok {A B} (f : A → B) (m : exc A) b :
  f <$> m = Ok b ↔ ∃ a, m = Ok a ∧ b = f a.
Proof.
  destruct m as [a|e]; cbn.
  - split; [intros [= <-]; by exists a|]. by intros (? & [= <-] & ->).
  - split; [done|]. by intros (? & ? & ?).
Qed.

Lemma exc_ret_Ok {A} (a b : A) : mret (M := exc) a = Ok b ↔ a = b.
Proof. split; [by intros [= ->]|by intros ->]. Qed.

Lemma iloc_Ok {A} (s : list A) i x : iloc s i = Ok x ↔ s !! i = Some x.
Proof.
  unfold iloc. destruct (s !! i); split; intros; by simplify_eq.
Qed.

Lemma iloc_last_Ok {A} (s : list A) x : iloc_last s = Ok x ↔ last s = Some x.
Proof.
  unfold iloc_last. destruct (last s); split; intros; by simplify_eq.
Qed.

Ltac exc_inv :=
  repeat match goal with
  | H : _ ≫= _ = Ok _ |- _ =>
      apply (proj1 (exc_bind_Ok _ _ _)) in H as (? & ? & H)
  | H : _ <$> _ = Ok _ |- _ =>
      apply (proj1 (exc_fmap_Ok _ _ _)) in H as (? & H & ?)
  | H : mret _ = Ok _ |- _ => apply (proj1 (exc_ret_Ok _ _)) in H
  | H : Raise _ = Ok _ |- _ => discriminate H
  end.

Lemma mapM_exc_Ok {A B} (f : A → exc B) (l : list A) (k : list B) :
  mapM f l = Ok k ↔ Forall2 (λ x y, f x = Ok y) l k.
Proof.
  revert k. induction l as [|x l IH]; intros k; cbn.
  - split; [intros [= <-]; constructor|]. by inversion 1.
  - split.
    + intros H. exc_inv. subst. constructor; [done|]. by apply IH.
    + inversion 1 as [|? y ? k' Hy Hk]; subst.
      apply exc_bind_Ok. exists y. split; [done|].
      apply exc_bind_Ok. exists k'. split; [by apply IH|done].
Qed.

Lemma mapM_exc_total {A B} (f : A → exc B) (l : list A) :
  Forall (λ x, ∃ y, f x = Ok y) l → ∃ k, mapM f l = Ok k.
Proof.
  induction 1 as [|x l [y Hy] _ [k Hk]]; [by exists []|].
  exists (y :: k). apply mapM_exc_Ok. constructor; [done|]. by apply mapM_exc_Ok.
Qed.

(** ** Rolling sums and ratios *)

Lemma Qc_sign_Eq b : Qc_sign b = Eq ↔ b = 0%Qc.
Proof.
  unfold Qc_sign. rewrite Z.compare_eq_iff. split; [|by intros ->].
  intros Hb. apply Qc_is_canon. unfold Qeq. rewrite Hb. reflexivity.
Qed.

Lemma fdiv_Fin a b : b ≠ 0%Qc → fdiv (Fin a) (Fin b) = Fin (a / b)%Qc.
Proof.
  intros Hb. simpl. destruct (Qc_sign b) eqn:Hs; [|done..].
  by apply Qc_sign_Eq in Hs.
Qed.

Lemma length_rolling_sum window xs : length (rolling_sum window xs) = length xs.
Proof. apply length_imap. Qed.

Lemma lookup_rolling_sum window xs i :
  i < length xs →
  rolling_sum window xs !! i
  = Some (if decide (window ≤ S i) then Fin (Qc_sum (window_at window i xs))
          else NaN).
Proof.
  intros Hi. unfold rolling_sum. rewrite list_lookup_imap.
  destruct (lookup_lt_is_Some_2 xs i Hi) as [x ->]. done.
Qed.

Lemma window_at_fmap {A B} (f : A → B) window i (l : list A) :
  window_at window i (f <$> l) = f <$> window_at window i l.
Proof. unfold window_at. by rewrite fmap_take, fmap_drop. Qed.

Lemma window_at_last {A} window (l : list A) :
  window ≤ length l → window_at window (pred (length l)) l = lastn window l.
Proof.
  intros Hw. unfold window_at, lastn.
  destruct (decide (length l = 0)) as [Hl|Hl].
  { destruct l; [|done]. by rewrite !drop_nil, take_nil. }
  replace (S (pred (length l))) with (length l) by lia.
  apply take_ge. rewrite length_drop. lia.
Qed.

Lemma length_rolling_woba window evs : length (rolling_woba window evs) = length evs.
Proof.
  unfold rolling_woba.
  rewrite length_zip_with, !length_rolling_sum, !length_fmap. lia.
Qed.

Lemma length_rolling_xwoba window evs : length (rolling_xwoba window evs) = length evs.
Proof.
  unfold rolling_xwoba.
  rewrite length_zip_with, !length_rolling_sum, !length_fmap. lia.
Qed.

Lemma length_rolling_diff window evs : length (rolling_diff window evs) = length evs.
Proof.
  unfold rolling_diff.
  rewrite length_zip_with, length_rolling_woba, length_rolling_xwoba. lia.
Qed.

Lemma lookup_rolling_woba window evs i :
  i < length evs →
  rolling_woba window evs !! i
  = Some (if decide (window ≤ S i) then woba_ratio (window_at window i evs)
          else NaN).
Proof.
  intros Hi. unfold rolling_woba, woba_ratio.
  rewrite lookup_zip_with, !lookup_rolling_sum by by rewrite length_fmap.
  rewrite !window_at_fmap. by case_decide.
Qed.

Lemma lookup_rolling_xwoba window evs i :
  i < length evs →
  rolling_xwoba window evs !! i
  = Some (if decide (window ≤ S i) then xwoba_ratio (window_at window i evs)
          else NaN).
Proof.
  intros Hi. unfold rolling_xwoba, xwoba_ratio.
  rewrite lookup_zip_with, !lookup_rolling_sum by by rewrite length_fmap.
  rewrite !window_at_fmap. by case_decide.
Qed.

Lemma lookup_rolling_diff window evs i :
  i < length evs →
  rolling_diff window evs !! i
  = Some (if decide (window ≤ S i)
          then ratio_differential (window_at window i evs) else NaN).
Proof.
  intros Hi. unfold rolling_diff, ratio_differential.
  rewrite lookup_zip_with, lookup_rolling_woba, lookup_rolling_xwoba by done.
  by case_decide.
Qed.

Lemma last_rolling_woba window evs :
  0 < window → window ≤ length evs →
  last (rolling_woba window evs) = Some (woba_ratio (lastn window evs)).
Proof.
  intros H0 Hw. rewrite last_lookup, length_rolling_woba.
  rewrite lookup_rolling_woba, decide_True by lia.
  by rewrite window_at_last.
Qed.

Lemma last_rolling_xwoba window evs :
  0 < window → window ≤ length evs →
  last (rolling_xwoba window evs) = Some (xwoba_ratio (lastn window evs)).
Proof.
  intros H0 Hw. rewrite last_lookup, length_rolling_xwoba.
  rewrite lookup_rolling_xwoba, decide_True by lia.
  by rewrite window_at_last.
Qed.

Lemma last_rolling_diff window evs :
  0 < window → window ≤ length evs →
  last (rolling_diff window evs) = Some (ratio_differential (lastn window evs)).
Proof.
  intros H0 Hw. rewrite last_lookup, length_rolling_diff.
  rewrite lookup_rolling_diff, decide_True by lia.
  by rewrite window_at_last.
Qed.

(** ** The sampling indices *)

Lemma length_linspace_int stop num : length (linspace_int stop num) = num.
Proof. unfold linspace_int. by rewrite length_fmap, length_seq. Qed.

Lemma lookup_linspace_int stop num k :
  k < num → linspace_int stop num !! k = Some (k * stop / (num - 1)).
Proof.
  intros Hk. unfold linspace_int.
  by rewrite list_lookup_fmap, lookup_seq_lt.
Qed.

Lemma linspace_int_bound stop num k : k < num → k * stop / (num - 1) ≤ stop.
Proof.
  intros Hk. destruct (decide (num - 1 = 0)) as [Hz|Hz].
  { rewrite Hz. simpl. lia. }
  apply Nat.Div0.div_le_upper_bound. apply Nat.mul_le_mono_r. lia.
Qed.

Lemma linspace_int_first stop num : 0 < num → linspace_int stop num !! 0 = Some 0.
Proof.
  intros Hn. rewrite lookup_linspace_int by done.
  by rewrite Nat.mul_0_l, Nat.Div0.div_0_l.
Qed.

Lemma linspace_int_last stop num :
  2 ≤ num → linspace_int stop num !! (num - 1) = Some stop.
Proof.
  intros Hn. rewrite lookup_linspace_int by lia.
  by rewrite Nat.mul_comm, Nat.div_mul by lia.
Qed.

Lemma linspace_int_full num : linspace_int (num - 1) num = seq 0 num.
Proof.
  apply list_eq. intros k. destruct (decide (k < num)) as [Hk|Hk].
  - rewrite lookup_linspace_int, lookup_seq_lt by done. f_equal.
    destruct (decide (num - 1 = 0)) as [Hz|Hz].
    + rewrite Hz. simpl. lia.
    + by rewrite Nat.div_mul.
  - rewrite !lookup_ge_None_2; [done|..].
    + rewrite length_seq. lia.
    + rewrite length_linspace_int. lia.
Qed.

(** ** Sampling a series at a list of indices *)

Lemma sample_Ok (f : pyfloat → pyfloat) (v : list pyfloat) indices t :
  mapM (λ i, f <$> iloc v i) indices = Ok t
  ↔ Forall2 (λ i y, f <$> v !! i = Some y) indices t.
Proof.
  rewrite mapM_exc_Ok.
  assert (Hiff : ∀ i y, (f <$> iloc v i) = Ok y ↔ f <$> v !! i = Some y).
  { intros i y. unfold iloc.
    destruct (v !! i); cbn; split; intros; by simplify_eq. }
  split; intros HF; (eapply Forall2_impl; [exact HF|]);
    intros i y; by apply Hiff.
Qed.

Lemma sample_total (f : pyfloat → pyfloat) (v : list pyfloat) indices :
  Forall (λ i, i < length v) indices →
  ∃ t, mapM (λ i, f <$> iloc v i) indices = Ok t.
Proof.
  intros Hin. apply mapM_exc_total. eapply Forall_impl; [done|].
  intros i Hi; simpl in Hi.
  destruct (lookup_lt_is_Some_2 v i Hi) as [x Hx].
  exists (f x). unfold iloc. by rewrite Hx.
Qed.

Lemma sample_in_range (f : pyfloat → pyfloat) (v : list pyfloat) indices t :
  mapM (λ i, f <$> iloc v i) indices = Ok t →
  Forall (λ i, i < length v) indices.
Proof.
  rewrite sample_Ok. induction 1 as [|i y ? ? Hy]; constructor; [|done].
  apply lookup_lt_is_Some. destruct (v !! i); [by eexists|done].
Qed.

Lemma sample_all (f : pyfloat → pyfloat) (v : list pyfloat) :
  mapM (λ i, f <$> iloc v i) (seq 0 (length v)) = Ok (f <$> v).
Proof.
  apply sample_Ok. apply Forall2_same_length_lookup_2.
  { by rewrite length_seq, length_fmap. }
  intros k i y Hi Hy. apply lookup_seq in Hi as [-> _]. simpl.
  by rewrite list_lookup_fmap in Hy.
Qed.

Lemma filter_all {A} (P : A → Prop) `{∀ x, Decision (P x)} (l : list A) :
  Forall P l → filter P l = l.
Proof.
  induction 1 as [|x l Hx _ IH]; [done|].
  rewrite filter_cons, decide_True by done. by rewrite IH.
Qed.

Lemma dropna_not_nan s x : x ∈ dropna s → x ≠ NaN.
Proof. unfold dropna. rewrite list_elem_of_filter. by intros [? _]. Qed.

(** ** The trend arrays *)

Lemma trends_sampled cfg vw vx tw tx :
  TREND_POINTS cfg ≤ length vw →
  trends cfg vw vx = Ok (tw, tx)
  ↔ Forall2 (λ i y, py_round 3 <$> vw !! i = Some y)
      (linspace_int (length vw - 1) (TREND_POINTS cfg)) tw
    ∧ Forall2 (λ i y, py_round 3 <$> vx !! i = Some y)
      (linspace_int (length vw - 1) (TREND_POINTS cfg)) tx.
Proof.
  intros Hn. unfold trends. rewrite decide_True by done.
  rewrite <-!sample_Ok. split.
  - intros H. exc_inv. by simplify_eq.
  - intros [-> ->]. done.
Qed.

Lemma trends_all cfg vw vx :
  0 < length vw → length vw < TREND_POINTS cfg →
  trends cfg vw vx = Ok (py_round 3 <$> vw, py_round 3 <$> vx).
Proof.
  intros H0 Hn. unfold trends.
  rewrite decide_False, decide_True by lia. done.
Qed.

Lemma trends_empty cfg vw vx :
  length vw = 0 → 0 < TREND_POINTS cfg → trends cfg vw vx = Ok ([], []).
Proof.
  intros H0 Hn. unfold trends. rewrite !decide_False by lia. done.
Qed.

Lemma linspace_int_in_range n m :
  m ≤ n → Forall (λ i, i < n) (linspace_int (n - 1) m).
Proof.
  intros Hmn. apply Forall_forall. intros i Hi.
  apply list_elem_of_lookup in Hi as [k Hk].
  assert (k < m) as Hkm.
  { apply lookup_lt_Some in Hk. by rewrite length_linspace_int in Hk. }
  rewrite lookup_linspace_int in Hk by done. simplify_eq.
  pose proof (linspace_int_bound (n - 1) m k Hkm). lia.
Qed.

Lemma trends_length cfg vw vx tw tx :
  trends cfg vw vx = Ok (tw, tx) →
  length tw = TREND_POINTS cfg `min` length vw.
Proof.
  intros Ht. destruct (decide (TREND_POINTS cfg ≤ length vw)) as [Hn|Hn].
  - apply trends_sampled in Ht as [Hw _]; [|done].
    apply Forall2_length in Hw. rewrite length_linspace_int in Hw. lia.
  - destruct (decide (length vw = 0)) as [H0|H0].
    + rewrite trends_empty in Ht by lia. simplify_eq. simpl. lia.
    + rewrite trends_all in Ht by lia. simplify_eq. rewrite length_fmap. lia.
Qed.

Lemma trends_length_aligned cfg vw vx tw tx :
  trends cfg vw vx = Ok (tw, tx) → length vx = length vw →
  length tx = length tw.
Proof.
  intros Ht Hlen. destruct (decide (TREND_POINTS cfg ≤ length vw)) as [Hn|Hn].
  - apply trends_sampled in Ht as [Hw Hx]; [|done].
    apply Forall2_length in Hw, Hx. lia.
  - destruct (decide (length vw = 0)) as [H0|H0].
    + rewrite trends_empty in Ht by lia. by simplify_eq.
    + rewrite trends_all in Ht by lia. simplify_eq.
      by rewrite !length_fmap.
Qed.

(** With at least TREND_POINTS realized values, both trends read index
    [k * (n - 1) / (TREND_POINTS - 1)], [n] being the count of the realized
    values. *)
Lemma trends_at cfg vw vx tw tx k :
  trends cfg vw vx = Ok (tw, tx) →
  TREND_POINTS cfg ≤ length vw → k < TREND_POINTS cfg →
  tw !! k
  = py_round 3 <$> vw !! (k * (length vw - 1) / (TREND_POINTS cfg - 1))
  ∧ tx !! k
    = py_round 3 <$> vx !! (k * (length vw - 1) / (TREND_POINTS cfg - 1)).
Proof.
  intros Ht Hn Hk. apply trends_sampled in Ht as [Hw Hx]; [|done].
  pose proof (lookup_linspace_int (length vw - 1) _ k Hk) as Hi.
  destruct (Forall2_lookup_l _ _ _ _ _ Hw Hi) as (y & -> & ->).
  by destruct (Forall2_lookup_l _ _ _ _ _ Hx Hi) as (z & -> & ->).
Qed.

(** Every value of a trend is a rounded value of its series. *)
Lemma trends_values cfg vw vx tw tx :
  trends cfg vw vx = Ok (tw, tx) →
  (∀ y, y ∈ tw → ∃ x, x ∈ vw ∧ y = py_round 3 x)
  ∧ (∀ y, y ∈ tx → ∃ x, x ∈ vx ∧ y = py_round 3 x).
Proof.
  intros Ht.
  assert (∀ (v t : list pyfloat) idx,
            Forall2 (λ i y, py_round 3 <$> v !! i = Some y) idx t →
            ∀ y, y ∈ t → ∃ x, x ∈ v ∧ y = py_round 3 x) as Hsampled.
  { intros v t idx HF y [k Hk]%list_elem_of_lookup.
    destruct (Forall2_lookup_r _ _ _ _ _ HF Hk) as (i & _ & Hi).
    destruct (v !! i) as [x|] eqn:Hx; [|done].
    exists x. split; [by eapply list_elem_of_lookup_2|]. by simplify_eq/=. }
  destruct (decide (TREND_POINTS cfg ≤ length vw)) as [Hn|Hn].
  - apply trends_sampled in Ht as [Hw Hx]; [|done].
    split; by eapply Hsampled.
  - destruct (decide (length vw = 0)) as [H0|H0].
    + rewrite trends_empty in Ht by lia. simplify_eq.
      split; intros y Hy; by apply elem_of_nil in Hy.
    + rewrite trends_all in Ht by lia. simplify_eq.
      split; intros y (x & -> & Hx)%list_elem_of_fmap; eauto.
Qed.

Lemma rounded_fixed (v t : list pyfloat) :
  (∀ y, y ∈ t → ∃ x, x ∈ dropna v ∧ y = py_round 3 x) →
  dropna t = t ∧ py_round 3 <$> t = t.
Proof.
  intros Hval. split.
  - apply filter_all, Forall_forall. intros y Hy.
    destruct (Hval y Hy) as (x & Hx & ->).
    by apply py_round_not_nan, (dropna_not_nan v).
  - apply list_eq. intros k. rewrite list_lookup_fmap.
    destruct (t !! k) as [y|] eqn:Hk; [|done]. simpl. f_equal.
    destruct (Hval y) as (x & _ & ->).
    { by eapply list_elem_of_lookup_2. }
    apply py_round_idem.
Qed.

(** Sampling the two trends again gives the same two trends. *)
Lemma trends_idem cfg s_w s_x tw tx :
  trends cfg (dropna s_w) (dropna s_x) = Ok (tw, tx) →
  trends cfg (dropna tw) (dropna tx) = Ok (tw, tx).
Proof.
  intros Ht. destruct (trends_values _ _ _ _ _ Ht) as [Hvw Hvx].
  destruct (rounded_fixed s_w tw Hvw) as [Hdw Hrw].
  destruct (rounded_fixed s_x tx Hvx) as [Hdx Hrx].
  rewrite Hdw, Hdx.
  pose proof (trends_length _ _ _ _ _ Ht) as Hlen.
  destruct (decide (TREND_POINTS cfg ≤ length (dropna s_w))) as [Hn|Hn].
  - assert (length tw = TREND_POINTS cfg) as Hlw by lia.
    assert (length tx = TREND_POINTS cfg) as Hlx.
    { apply trends_sampled in Ht as [_ Hx]; [|done].
      apply Forall2_length in Hx. by rewrite length_linspace_int in Hx. }
    apply trends_sampled; [lia|].
    replace (TREND_POINTS cfg) with (length tw) by lia.
    rewrite linspace_int_full, <-!sample_Ok. split.
    + by rewrite sample_all, Hrw.
    + replace (length tw) with (length tx) by lia.
      by rewrite sample_all, Hrx.
  - destruct (decide (length (dropna s_w) = 0)) as [H0|H0].
    + rewrite trends_empty in Ht by lia. simplify_eq.
      by rewrite trends_empty by (simpl; lia).
    + rewrite trends_all in Ht by lia. simplify_eq.
      rewrite trends_all by (rewrite length_fmap; lia).
      by rewrite Hrw, Hrx.
Qed.

Lemma trends_floor_sampled cfg vw vx tw tx :
  trends cfg vw vx = Ok (tw, tx) →
  floor_sampled (TREND_POINTS cfg) vw tw
  ∧ (length vx = length vw → floor_sampled (TREND_POINTS cfg) vx tx).
Proof.
  intros Ht.
  pose proof (trends_length _ _ _ _ _ Ht) as Hlw.
  assert (length vw < TREND_POINTS cfg →
          tw = py_round 3 <$> vw
          ∧ (length vx = length vw → tx = py_round 3 <$> vx)) as Hall.
  { intros Hlt. destruct (decide (length vw = 0)) as [H0|H0].
    - rewrite trends_empty in Ht by lia. simplify_eq.
      split; [by destruct vw|]. intros Hx. destruct vx; [done|].
      simpl in Hx. lia.
    - rewrite trends_all in Ht by lia. by simplify_eq. }
  split.
  - unfold floor_sampled. split; [done|]. repeat split.
    + intros Hmn k Hk. by apply (trends_at _ _ _ _ _ _ Ht).
    + intros Hmn H0.
      destruct (trends_at _ _ _ _ _ 0 Ht Hmn H0) as [-> _].
      by rewrite Nat.mul_0_l, Nat.Div0.div_0_l.
    + intros Hmn H2.
      destruct (trends_at _ _ _ _ _ (TREND_POINTS cfg - 1) Ht Hmn) as [-> _];
        [lia|].
      by rewrite Nat.mul_comm, Nat.div_mul by lia.
    + intros Hlt. by apply Hall.
    + intros H0. destruct tw; [done|simpl in *; lia].
  - intros Hx. pose proof (trends_length_aligned _ _ _ _ _ Ht Hx) as Hlx.
    unfold floor_sampled. rewrite Hx. split; [lia|]. repeat split.
    + intros Hmn k Hk. by apply (trends_at _ _ _ _ _ _ Ht).
    + intros Hmn H0.
      destruct (trends_at _ _ _ _ _ 0 Ht Hmn H0) as [_ ->].
      by rewrite Nat.mul_0_l, Nat.Div0.div_0_l.
    + intros Hmn H2.
      destruct (trends_at _ _ _ _ _ (TREND_POINTS cfg - 1) Ht Hmn) as [_ ->];
        [lia|].
      by rewrite Nat.mul_comm, Nat.div_mul by lia.
    + intros Hlt. by apply Hall.
    + intros H0. destruct tx; [done|simpl in *; lia].
Qed.

(** ** One window of one batter *)

Lemma latest_Ok s x : last s = Some x → latest s = Ok (none_if_na x).
Proof. intros Hs. unfold latest, iloc_last. by rewrite Hs. Qed.

Lemma trend_difference_Ok tw tx td :
  trend_difference tw tx = Ok td
  ↔ length td = length tw
    ∧ ∀ i a, tw !! i = Some a →
        ∃ b, tx !! i = Some b ∧ td !! i = Some (py_round 3 (fsub a b)).
Proof.
  unfold trend_difference. rewrite mapM_exc_Ok. split.
  - intros HF. split.
    { apply Forall2_length in HF. by rewrite length_seq in HF. }
    intros i a Ha.
    assert (seq 0 (length tw) !! i = Some i) as Hi.
    { apply lookup_seq. split; [done|]. by eapply lookup_lt_Some. }
    destruct (Forall2_lookup_l _ _ _ _ _ HF Hi) as (y & Hy & H).
    simpl in H. apply exc_bind_Ok in H as (a' & Ha' & H).
    apply exc_bind_Ok in H as (b & Hb & H).
    apply iloc_Ok in Ha', Hb. apply (proj1 (exc_ret_Ok _ _)) in H.
    simplify_eq. eauto.
  - intros [Hlen Hi]. apply Forall2_same_length_lookup_2.
    { by rewrite length_seq. }
    intros k i y Hk Hy. apply lookup_seq in Hk as [-> Hk]. simpl in *.
    destruct (lookup_lt_is_Some_2 tw k Hk) as [a Ha].
    destruct (Hi k a Ha) as (b & Hb & Htd). simplify_eq.
    unfold iloc. rewrite Ha, Hb. done.
Qed.

Lemma window_metrics_Ok cfg evs window wr :
  window_metrics cfg evs window = Ok wr
  ↔ ∃ lw lx ld tw tx td,
      latest (rolling_woba window evs) = Ok lw
      ∧ latest (rolling_xwoba window evs) = Ok lx
      ∧ latest (rolling_diff window evs) = Ok ld
      ∧ trends cfg (dropna (rolling_woba window evs))
                   (dropna (rolling_xwoba window evs)) = Ok (tw, tx)
      ∧ trend_difference tw tx = Ok td
      ∧ wr = {| w_rolling_woba := py_round 3 <$> lw;
                w_rolling_xwoba := py_round 3 <$> lx;
                w_diff_rolling_OBA := py_round 3 <$> ld;
                w_trend_woba := tw;
                w_trend_xwoba := tx;
                w_trend_diff := td |}.
Proof.
  unfold window_metrics. split.
  - intros H. exc_inv. destruct x2 as [tw tx]. exc_inv.
    repeat eexists; eauto.
  - intros (lw & lx & ld & tw & tx & td & -> & -> & -> & Ht & Hd & ->).
    cbn. rewrite Ht. cbn. rewrite Hd. done.
Qed.

(** The headline figures of a window are the three ratios over the last
    [window] events, rounded, and absent when the ratio is NaN. *)
Lemma window_metrics_headline cfg evs window wr :
  0 < window → window ≤ length evs →
  window_metrics cfg evs window = Ok wr →
  w_rolling_woba wr = py_round 3 <$> none_if_na (woba_ratio (lastn window evs))
  ∧ w_rolling_xwoba wr
    = py_round 3 <$> none_if_na (xwoba_ratio (lastn window evs))
  ∧ w_diff_rolling_OBA wr
    = py_round 3 <$> none_if_na (ratio_differential (lastn window evs)).
Proof.
  intros H0 Hw (lw & lx & ld & tw & tx & td & Hlw & Hlx & Hld & _ & _ & ->)
    %window_metrics_Ok.
  rewrite (latest_Ok _ _ (last_rolling_woba _ _ H0 Hw)) in Hlw.
  rewrite (latest_Ok _ _ (last_rolling_xwoba _ _ H0 Hw)) in Hlx.
  rewrite (latest_Ok _ _ (last_rolling_diff _ _ H0 Hw)) in Hld.
  by simplify_eq/=.
Qed.

(** ** The loop over the windows *)

Lemma windows_loop_lookup cfg evs todo acc ws key wr :
  windows_loop cfg evs todo acc = Ok ws → ws !! key = Some wr →
  (∃ w, w ∈ todo ∧ key = pretty w ∧ w ≤ length evs
        ∧ window_metrics cfg evs w = Ok wr)
  ∨ acc !! key = Some wr.
Proof.
  revert acc. induction todo as [|w todo IH]; intros acc Hloop Hkey; simpl in *.
  { exc_inv. subst. by right. }
  case_decide as Hlen.
  - destruct (IH _ Hloop Hkey) as [(w' & ? & ? & ? & ?)|?]; [left|by right].
    exists w'. by rewrite elem_of_cons; auto.
  - exc_inv. destruct (IH _ Hloop Hkey) as [(w' & ? & ? & ? & ?)|Hacc].
    + left. exists w'. by rewrite elem_of_cons; auto.
    + destruct (decide (pretty w = key)) as [<-|Hne].
      * rewrite lookup_insert_eq in Hacc. simplify_eq. left.
        exists w. rewrite elem_of_cons. repeat split; auto. lia.
      * rewrite lookup_insert_ne in Hacc by done. by right.
Qed.

Lemma windows_loop_present cfg evs todo acc ws w :
  windows_loop cfg evs todo acc = Ok ws →
  w ≤ length evs →
  w ∈ todo
  ∨ (∃ wr, acc !! pretty w = Some wr ∧ window_metrics cfg evs w = Ok wr) →
  ∃ wr, ws !! pretty w = Some wr ∧ window_metrics cfg evs w = Ok wr.
Proof.
  intros Hloop Hw. revert acc Hloop.
  induction todo as [|w' todo IH]; intros acc Hloop Hin; simpl in *.
  { destruct Hin as [Hin|Hin]; [by apply elem_of_nil in Hin|].
    exc_inv. by subst. }
  case_decide as Hlen.
  - apply (IH _ Hloop). destruct Hin as [Hin|Hin]; [|by right].
    apply elem_of_cons in Hin as [->|Hin]; [lia|by left].
  - exc_inv. apply (IH _ Hloop).
    destruct (decide (w = w')) as [->|Hne].
    { right. eexists. by rewrite lookup_insert_eq. }
    destruct Hin as [Hin|(wr & Hacc & Hwr)].
    + apply elem_of_cons in Hin as [->|Hin]; [done|by left].
    + right. exists wr. rewrite lookup_insert_ne; [done|].
      intros Heq. by apply (inj pretty) in Heq.
Qed.

Lemma windows_loop_total cfg evs todo acc :
  (∀ w, w ∈ todo → w ≤ length evs → ∃ wr, window_metrics cfg evs w = Ok wr) →
  ∃ ws, windows_loop cfg evs todo acc = Ok ws.
Proof.
  revert acc. induction todo as [|w todo IH]; intros acc Hall; simpl.
  { by eexists. }
  assert (∀ w', w' ∈ todo → w' ≤ length evs →
                ∃ wr, window_metrics cfg evs w' = Ok wr) as Hrest.
  { intros w' Hw'. apply Hall. by right. }
  case_decide as Hlen; [by apply IH|].
  destruct (Hall w) as [wr ->]; [by left|lia|]. cbn. by apply IH.
Qed.

Lemma windows_loop_each cfg evs todo acc ws w :
  windows_loop cfg evs todo acc = Ok ws → w ∈ todo → w ≤ length evs →
  ∃ wr, window_metrics cfg evs w = Ok wr.
Proof.
  intros Hloop Hin Hw.
  destruct (windows_loop_present _ _ _ _ _ w Hloop Hw) as (wr & _ & ?); eauto.
Qed.

(** ** The loop over the batters *)

Lemma batter_metrics_Some cfg group br :
  batter_metrics cfg group = Ok (Some br)
  ↔ MIN_PA cfg ≤ length group
    ∧ total_pa br = length group
    ∧ windows br ≠ ∅
    ∧ windows_loop cfg (sort_values date_ab_lt group) (ROLLING_WINDOWS cfg) ∅
      = Ok (windows br).
Proof.
  unfold batter_metrics. rewrite length_sort_values. split.
  - intros H. case_decide; [by exc_inv|].
    apply exc_bind_Ok in H as (ws & Hws & H).
    case_decide; exc_inv; simplify_eq/=. repeat split; [lia|done..].
  - intros (Hmin & Hpa & Hne & Hloop).
    rewrite decide_False, Hloop by lia. cbn.
    rewrite decide_False by done. destruct br; simpl in *. by subst.
Qed.

Lemma batter_metrics_None cfg group :
  batter_metrics cfg group = Ok None
  ↔ length group < MIN_PA cfg
    ∨ windows_loop cfg (sort_values date_ab_lt group) (ROLLING_WINDOWS cfg) ∅
      = Ok ∅.
Proof.
  unfold batter_metrics. rewrite length_sort_values. split.
  - intros H. case_decide; [by left|].
    apply exc_bind_Ok in H as (ws & Hws & H).
    case_decide; exc_inv; simplify_eq. by right.
  - intros [Hlt|Hloop]; [by rewrite decide_True|].
    case_decide; [done|]. rewrite Hloop. cbn. by rewrite decide_True.
Qed.

Lemma batters_loop_lookup cfg pa_df todo acc res b br :
  batters_loop cfg pa_df todo acc = Ok res → res !! b = Some br →
  (b ∈ todo ∧ batter_metrics cfg (group_of pa_df b) = Ok (Some br))
  ∨ acc !! b = Some br.
Proof.
  revert acc. induction todo as [|b' todo IH]; intros acc Hloop Hb; simpl in *.
  { exc_inv. subst. by right. }
  apply exc_bind_Ok in Hloop as (r & Hr & Hloop).
  destruct (IH _ Hloop Hb) as [[? ?]|Hacc].
  { left. by rewrite elem_of_cons; auto. }
  destruct r as [br'|]; [|by right].
  destruct (decide (b' = b)) as [->|Hne].
  - rewrite lookup_insert_eq in Hacc. simplify_eq. left.
    by rewrite elem_of_cons; auto.
  - rewrite lookup_insert_ne in Hacc by done. by right.
Qed.

Lemma batters_loop_each cfg pa_df todo acc res b :
  batters_loop cfg pa_df todo acc = Ok res → b ∈ todo →
  ∃ r, batter_metrics cfg (group_of pa_df b) = Ok r.
Proof.
  revert acc. induction todo as [|b' todo IH]; intros acc Hloop Hb; simpl in *.
  { by apply elem_of_nil in Hb. }
  apply exc_bind_Ok in Hloop as (r & Hr & Hloop).
  apply elem_of_cons in Hb as [->|Hb]; eauto.
Qed.

Lemma batters_loop_present cfg pa_df todo acc res b br :
  batters_loop cfg pa_df todo acc = Ok res →
  batter_metrics cfg (group_of pa_df b) = Ok (Some br) →
  b ∈ todo ∨ acc !! b = Some br →
  res !! b = Some br.
Proof.
  intros Hloop Hbr. revert acc Hloop.
  induction todo as [|b' todo IH]; intros acc Hloop Hin; simpl in *.
  { destruct Hin as [Hin|Hin]; [by apply elem_of_nil in Hin|].
    exc_inv. by subst. }
  apply exc_bind_Ok in Hloop as (r & Hr & Hloop).
  apply (IH _ Hloop).
  destruct (decide (b = b')) as [->|Hne].
  { right. rewrite Hbr in Hr. simplify_eq. by rewrite lookup_insert_eq. }
  destruct Hin as [Hin|Hacc].
  - apply elem_of_cons in Hin as [->|Hin]; [done|by left].
  - right. destruct r; [|done]. by rewrite lookup_insert_ne.
Qed.

Lemma batters_loop_total cfg pa_df todo acc :
  (∀ b, b ∈ todo → ∃ r, batter_metrics cfg (group_of pa_df b) = Ok r) →
  ∃ res, batters_loop cfg pa_df todo acc = Ok res.
Proof.
  revert acc. induction todo as [|b todo IH]; intros acc Hall; simpl.
  { by eexists. }
  destruct (Hall b) as [r ->]; [by left|]. cbn.
  apply IH. intros b' Hb'. apply Hall. by right.
Qed.

(** ** Groups and counts *)

Lemma elem_of_groupby_keys pa_df b :
  b ∈ groupby_keys pa_df ↔ ∃ r, r ∈ pa_df ∧ batter r = b.
Proof.
  unfold groupby_keys.
  rewrite elem_of_sort_values, elem_of_remove_dups, list_elem_of_fmap.
  split; intros (r & ? & ?); exists r; by split.
Qed.

Lemma group_of_nonempty pa_df b :
  b ∈ groupby_keys pa_df ↔ 0 < length (group_of pa_df b).
Proof.
  rewrite elem_of_groupby_keys. unfold group_of. split.
  - intros (r & Hr & Hb).
    assert (r ∈ filter (λ r, batter r = b) pa_df) as Hin
      by by apply list_elem_of_filter.
    destruct (filter _ pa_df); [by apply elem_of_nil in Hin|simpl; lia].
  - intros Hlen. destruct (filter _ pa_df) as [|r l] eqn:Hf; [simpl in *; lia|].
    assert (r ∈ filter (λ r, batter r = b) pa_df) as Hin
      by (rewrite Hf; left).
    apply list_elem_of_filter in Hin as [? ?]. eauto.
Qed.

Lemma group_of_Permutation l1 l2 b :
  l1 ≡ₚ l2 → group_of l1 b ≡ₚ group_of l2 b.
Proof. intros Hp. unfold group_of. by rewrite Hp. Qed.

Lemma batter_events_Permutation pitch_df b :
  batter_events pitch_df b ≡ₚ group_of (events_notna pitch_df) b.
Proof.
  unfold batter_events. rewrite sort_values_Permutation.
  apply group_of_Permutation, sort_values_Permutation.
Qed.

Lemma length_batter_events pitch_df b :
  length (batter_events pitch_df b) = qualifying_count pitch_df b.
Proof. unfold qualifying_count. by rewrite batter_events_Permutation. Qed.

Lemma length_group_sorted pitch_df b :
  length (group_of (sort_values date_ab_lt (events_notna pitch_df)) b)
  = qualifying_count pitch_df b.
Proof.
  unfold qualifying_count.
  by rewrite (group_of_Permutation _ _ b (sort_values_Permutation _ _)).
Qed.

Lemma elem_of_batter_events pitch_df b r :
  r ∈ batter_events pitch_df b
  ↔ r ∈ pitch_df ∧ is_Some (events r) ∧ batter r = b.
Proof.
  rewrite batter_events_Permutation. unfold group_of, events_notna.
  rewrite !list_elem_of_filter. tauto.
Qed.

(** ** The result mapping *)

Lemma compute_rolling_metrics_lookup cfg pitch_df results b br :
  compute_rolling_metrics cfg pitch_df = Ok results →
  results !! b = Some br
  ↔ MIN_PA cfg ≤ qualifying_count pitch_df b
    ∧ total_pa br = qualifying_count pitch_df b
    ∧ windows br ≠ ∅
    ∧ windows_loop cfg (batter_events pitch_df b) (ROLLING_WINDOWS cfg) ∅
      = Ok (windows br)
    ∧ 0 < qualifying_count pitch_df b.
Proof.
  unfold compute_rolling_metrics. intros Hloop.
  rewrite <-(length_group_sorted pitch_df b).
  fold (batter_events pitch_df b). split.
  - intros Hb.
    destruct (batters_loop_lookup _ _ _ _ _ _ _ Hloop Hb) as [[Hin Hm]|?];
      [|done].
    apply group_of_nonempty in Hin. apply batter_metrics_Some in Hm.
    destruct Hm as (? & ? & ? & ?). unfold batter_events. by repeat split.
  - intros (? & ? & ? & ? & Hpos).
    eapply batters_loop_present; [done| |].
    + apply batter_metrics_Some. unfold batter_events in *. by repeat split.
    + left. by apply group_of_nonempty.
Qed.

Lemma compute_rolling_metrics_window cfg pitch_df results b br key wr :
  compute_rolling_metrics cfg pitch_df = Ok results →
  results !! b = Some br → windows br !! key = Some wr →
  ∃ w, w ∈ ROLLING_WINDOWS cfg ∧ key = pretty w
       ∧ w ≤ qualifying_count pitch_df b
       ∧ window_metrics cfg (batter_events pitch_df b) w = Ok wr.
Proof.
  intros Hres Hb Hkey.
  apply (compute_rolling_metrics_lookup _ _ _ _ _ Hres) in Hb
    as (_ & _ & _ & Hloop & _).
  destruct (windows_loop_lookup _ _ _ _ _ _ _ Hloop Hkey)
    as [(w & ? & ? & ? & ?)|Hempty]; [|done].
  exists w. by rewrite <-length_batter_events.
Qed.

Lemma compute_rolling_metrics_present cfg pitch_df results b w :
  compute_rolling_metrics cfg pitch_df = Ok results →
  MIN_PA cfg ≤ qualifying_count pitch_df b →
  w ∈ ROLLING_WINDOWS cfg → 0 < w → w ≤ qualifying_count pitch_df b →
  ∃ br wr, results !! b = Some br
    ∧ total_pa br = qualifying_count pitch_df b
    ∧ windows br !! pretty w = Some wr
    ∧ window_metrics cfg (batter_events pitch_df b) w = Ok wr.
Proof.
  intros Hres Hmin Hin H0 Hw.
  pose proof Hres as Hloop. unfold compute_rolling_metrics in Hloop.
  set (pa_df := sort_values date_ab_lt (events_notna pitch_df)) in *.
  assert (b ∈ groupby_keys pa_df) as Hkey.
  { apply group_of_nonempty. unfold pa_df. rewrite length_group_sorted. lia. }
  destruct (batters_loop_each _ _ _ _ _ _ Hloop Hkey) as [r Hr].
  assert (length (group_of pa_df b) = qualifying_count pitch_df b) as Hlen
    by apply length_group_sorted.
  destruct r as [br|].
  - pose proof Hr as (_ & Hpa & _ & Hws)%batter_metrics_Some.
    destruct (windows_loop_present _ _ _ _ _ w Hws) as (wr & Hwr & Hm).
    { rewrite length_sort_values. lia. }
    { by left. }
    exists br, wr. split; [|split; [lia|by split]].
    eapply batters_loop_present; [done..|by left].
  - apply batter_metrics_None in Hr as [Hlt|Hws]; [lia|].
    destruct (windows_loop_present _ _ _ _ _ w Hws) as (wr & Hwr & _).
    { rewrite length_sort_values. lia. }
    { by left. }
    by rewrite lookup_empty in Hwr.
Qed.

(** ** The chronological order *)

Lemma date_ab_lt_asym r1 r2 : date_ab_lt r1 r2 = true → date_ab_lt r2 r1 = false.
Proof.
  unfold date_ab_lt.
  rewrite orb_true_iff, orb_false_iff, !andb_true_iff, !andb_false_iff.
  rewrite !bool_decide_eq_true, !bool_decide_eq_false. lia.
Qed.

Lemma not_after_date_ab r1 r2 : not_after date_ab_lt r1 r2 ↔ date_ab_le r1 r2.
Proof.
  unfold not_after, date_ab_lt, date_ab_le.
  rewrite orb_false_iff, andb_false_iff, !bool_decide_eq_false. lia.
Qed.

Global Instance date_ab_le_trans : Transitive date_ab_le.
Proof. unfold date_ab_le. intros r1 r2 r3. lia. Qed.

Lemma Sorted_weaken {A} (R1 R2 : relation A) l :
  (∀ x y, R1 x y → R2 x y) → Sorted R1 l → Sorted R2 l.
Proof.
  intros HR. induction 1 as [|x l _ IH Hhd]; constructor; [done|].
  destruct Hhd; constructor; auto.
Qed.

Lemma batter_events_sorted pitch_df b :
  StronglySorted date_ab_le (batter_events pitch_df b).
Proof.
  apply Sorted_StronglySorted; [apply _|].
  eapply Sorted_weaken; [|apply sort_values_Sorted, date_ab_lt_asym].
  intros r1 r2. apply not_after_date_ab.
Qed.



(** ** Trends of a window result *)

Lemma trends_fst cfg vw vx tw tx :
  trends cfg vw vx = Ok (tw, tx) → trends cfg vw vw = Ok (tw, tw).
Proof.
  intros Ht.
  destruct (decide (TREND_POINTS cfg ≤ length vw)) as [Hn|Hn].
  - apply trends_sampled in Ht as [Hw _]; [|done]. by apply trends_sampled.
  - destruct (decide (length vw = 0)) as [H0|H0].
    + rewrite trends_empty in Ht |- * by lia. by simplify_eq.
    + rewrite trends_all in Ht |- * by lia. by simplify_eq.
Qed.

(** The two trend arrays read the two series at the same indices. *)
Lemma trends_same_index cfg vw vx tw tx i y :
  trends cfg vw vx = Ok (tw, tx) → tw !! i = Some y →
  ∃ j a, vw !! j = Some a ∧ y = py_round 3 a
         ∧ tx !! i = py_round 3 <$> vx !! j.
Proof.
  intros Ht Hy.
  destruct (decide (TREND_POINTS cfg ≤ length vw)) as [Hn|Hn].
  - apply trends_sampled in Ht as [Hw Hx]; [|done].
    destruct (Forall2_lookup_r _ _ _ _ _ Hw Hy) as (j & Hj & Ha).
    destruct (Forall2_lookup_l _ _ _ _ _ Hx Hj) as (y' & Hy' & Hb).
    destruct (vw !! j) as [a|] eqn:Hvw; [|done].
    exists j, a. rewrite Hy', Hb. by simplify_eq/=.
  - destruct (decide (length vw = 0)) as [H0|H0].
    + rewrite trends_empty in Ht by lia. by simplify_eq.
    + rewrite trends_all in Ht by lia. simplify_eq.
      rewrite list_lookup_fmap in Hy.
      destruct (vw !! i) as [a|] eqn:Hvw; [|done].
      exists i, a. rewrite list_lookup_fmap. by simplify_eq/=.
Qed.

Lemma window_metrics_trends cfg evs w wr :
  window_metrics cfg evs w = Ok wr →
  trends cfg (dropna (rolling_woba w evs)) (dropna (rolling_xwoba w evs))
  = Ok (w_trend_woba wr, w_trend_xwoba wr)
  ∧ length (w_trend_diff wr) = length (w_trend_woba wr)
  ∧ ∀ i, i < length (w_trend_woba wr) →
      ∃ j a b,
        dropna (rolling_woba w evs) !! j = Some a
        ∧ dropna (rolling_xwoba w evs) !! j = Some b
        ∧ w_trend_woba wr !! i = Some (py_round 3 a)
        ∧ w_trend_xwoba wr !! i = Some (py_round 3 b)
        ∧ w_trend_diff wr !! i
          = Some (py_round 3 (fsub (py_round 3 a) (py_round 3 b))).
Proof.
  intros (lw & lx & ld & tw & tx & td & _ & _ & _ & Ht & Hd & ->)
    %window_metrics_Ok. simpl.
  apply trend_difference_Ok in Hd as [Hlen Hd].
  split; [|split; [done|]].
  - done.
  - intros i Hi.
    destruct (lookup_lt_is_Some_2 tw i Hi) as [y Hy].
    destruct (trends_same_index _ _ _ _ _ _ _ Ht Hy) as (j & a & Ha & -> & Hx).
    destruct (Hd i _ Hy) as (b' & Hb' & Htd).
    rewrite Hb' in Hx.
    destruct (dropna (rolling_xwoba w evs) !! j) as [b|] eqn:Hb; [|done].
    exists j, a, b. by simplify_eq/=.
Qed.

Lemma compute_rolling_metrics_no_nan cfg pitch_df results :
  compute_rolling_metrics cfg pitch_df = Ok results →
  no_nan_differential results.
Proof.
  intros Hres b br key wr Hb Hkey.
  destruct (compute_rolling_metrics_window _ _ _ _ _ _ _ Hres Hb Hkey)
    as (w & _ & _ & _ & Hm).
  apply window_metrics_Ok in Hm
    as (lw & lx & ld & tw & tx & td & _ & _ & Hld & _ & _ & ->). simpl.
  unfold latest in Hld. apply exc_fmap_Ok in Hld as (x & _ & ->).
  by destruct x.
Qed.

Lemma no_nan_differential_empty : no_nan_differential ∅.
Proof. intros b br key wr Hb. by rewrite lookup_empty in Hb. Qed.

Lemma sixty_events_returns :
  ∃ results, compute_rolling_metrics source_config sixty_events = Ok results.
Proof.
  destruct (compute_rolling_metrics source_config sixty_events)
    as [results|e] eqn:Hres; [by exists results|].
  vm_compute in Hres. discriminate Hres.
Qed.

Lemma two_events_return :
  ∃ results, compute_rolling_metrics wide_window_config two_events = Ok results.
Proof.
  destruct (compute_rolling_metrics wide_window_config two_events)
    as [results|e] eqn:Hres; [by exists results|].
  vm_compute in Hres. discriminate Hres.
Qed.

(** ** Merging *)

Lemma select_window_Some windows order d :
  select_window windows order = Some d →
  ∃ w wd, w ∈ order ∧ windows !! pretty w = Some wd
          ∧ w_diff_rolling_OBA wd = Some d.
Proof.
  induction order as [|w order IH]; simpl; [done|].
  intros Hsel.
  destruct (windows !! pretty w) as [wd|] eqn:Hw.
  - destruct (w_diff_rolling_OBA wd) as [d'|] eqn:Hd.
    + simplify_eq. exists w, wd. split; [left|done].
    + destruct (IH Hsel) as (w' & wd' & ? & ? & ?).
      exists w', wd'. split; [by right|done].
  - destruct (IH Hsel) as (w' & wd' & ? & ? & ?).
    exists w', wd'. split; [by right|done].
Qed.

Lemma safe_round_not_nan val decimals x :
  safe_round (PFloat val) decimals = Some x → x ≠ NaN.
Proof.
  simpl. destruct (isna val) eqn:Hna; [done|]. intros [= <-].
  apply py_round_not_nan. by destruct val.
Qed.

Lemma primary_differential_not_nan rolling_data row x :
  no_nan_differential rolling_data →
  primary_differential rolling_data row = Ok (Some x) → x ≠ NaN.
Proof.
  intros Hwf. unfold primary_differential, rolling_choice.
  destruct (rolling_data !! s_player_id row) as [br|] eqn:Hb;
    cbn -[select_window].
  - destruct (select_window (windows br) [100; 50; 250]) as [d|] eqn:Hsel.
    + intros [= ->]. apply select_window_Some in Hsel as (w & wd & _ & Hw & Hd).
      intros ->. by apply (Hwf _ _ _ _ Hb Hw).
    + unfold season_fallback. destruct (pd_notna _).
      * intros H. apply exc_bind_Ok in H as (y & _ & H).
        apply (proj1 (exc_ret_Ok _ _)) in H. by eapply safe_round_not_nan.
      * by intros [= <-].
  - unfold season_fallback. destruct (pd_notna _).
    + intros H. apply exc_bind_Ok in H as (y & _ & H).
      apply (proj1 (exc_ret_Ok _ _)) in H. by eapply safe_round_not_nan.
    + by intros [= <-].
Qed.

Lemma build_player_Ok ev_df rolling_data team_map row p :
  build_player ev_df rolling_data team_map row = Ok p
  ↔ ∃ d, primary_differential rolling_data row = Ok d
      ∧ p = {| player_id := s_player_id row;
               name := display_name (s_name row);
               team := default EmptyString (team_map !! s_player_id row);
               pa := s_pa row;
               batting_avg := safe_round (s_ba row) 3;
               wOBA := safe_round (s_woba row) 3;
               xwOBA := safe_round (s_est_woba row) 3;
               diff_season := safe_round (s_est_woba_minus_woba_diff row) 3;
               xBA := safe_round (s_est_ba row) 3;
               xSLG := safe_round (s_est_slg row) 3;
               batted := merge_ev ev_df (s_player_id row);
               rolling := windows <$> rolling_data !! s_player_id row;
               total_pa_events := total_pa <$> rolling_data !! s_player_id row;
               diff_rolling_OBA := d |}.
Proof.
  unfold build_player. rewrite exc_bind_Ok.
  split; intros (d & Hd & Hp); exists d; (split; [done|]).
  - by apply (proj1 (exc_ret_Ok _ _)) in Hp.
  - by subst.
Qed.

Lemma rows_loop_Ok cfg ev_df rolling_data team_map todo acc ps :
  rows_loop cfg ev_df rolling_data team_map todo acc = Ok ps
  ↔ ∃ qs,
      Forall2 (λ row p, build_player ev_df rolling_data team_map row = Ok p)
        (filter (λ row, (Z.of_nat (MIN_PA cfg) ≤ s_pa row)%Z) todo) qs
      ∧ ps = acc ++ qs.
Proof.
  revert acc. induction todo as [|row todo IH]; intros acc; simpl.
  { rewrite exc_ret_Ok. split.
    - intros ->. exists []. split; [constructor|by rewrite app_nil_r].
    - intros (qs & Hqs & ->). apply Forall2_nil_inv_l in Hqs as ->.
      by rewrite app_nil_r. }
  rewrite filter_cons. case_decide as Hpa.
  - rewrite decide_False by lia. apply IH.
  - rewrite decide_True by lia. rewrite exc_bind_Ok. split.
    + intros (p & Hp & Hloop). apply IH in Hloop as (qs & Hqs & ->).
      exists (p :: qs). split; [by constructor|]. by rewrite <-app_assoc.
    + intros (qs & Hqs & ->).
      apply Forall2_cons_inv_l in Hqs as (p & qs' & Hp & Hqs' & ->).
      exists p. split; [done|]. apply IH. exists qs'.
      split; [done|]. by rewrite <-app_assoc.
Qed.

Lemma sort_players_Ok ps out :
  sort_players ps = Ok out
  ↔ ¬ (2 ≤ length ps ∧ Exists (λ p, diff_rolling_OBA p = None) ps)
    ∧ out = sort_values key_lt ps.
Proof.
  unfold sort_players. case_decide as Hraise.
  - split; [done|]. by intros [? _].
  - rewrite exc_ret_Ok. split; [by intros <-|by intros [_ ->]].
Qed.

Lemma build_output_Ok cfg expected_df ev_df rolling_data team_map year out :
  build_output cfg expected_df ev_df rolling_data team_map year = Ok out
  ↔ ∃ qs,
      Forall2 (λ row p, build_player ev_df rolling_data team_map row = Ok p)
        (filter (λ row, (Z.of_nat (MIN_PA cfg) ≤ s_pa row)%Z) expected_df) qs
      ∧ ¬ (2 ≤ length qs ∧ Exists (λ p, diff_rolling_OBA p = None) qs)
      ∧ out = {| season := year;
                 total_players := length qs;
                 min_pa := MIN_PA cfg;
                 rolling_windows := ROLLING_WINDOWS cfg;
                 players := sort_values key_lt qs |}.
Proof.
  unfold build_output. rewrite exc_bind_Ok. split.
  - intros (ps & Hps & H). apply rows_loop_Ok in Hps as (qs & Hqs & ->).
    apply exc_bind_Ok in H as (ps' & Hsort & H).
    apply sort_players_Ok in Hsort as [Hok ->].
    apply (proj1 (exc_ret_Ok _ _)) in H. simpl in *.
    exists qs. by rewrite length_sort_values in H.
  - intros (qs & Hqs & Hok & ->). exists qs. split.
    + apply rows_loop_Ok. by exists qs.
    + apply exc_bind_Ok. exists (sort_values key_lt qs). split.
      * by apply sort_players_Ok.
      * by rewrite length_sort_values.
Qed.

(** Every player of the output is built from a season row that passes the
    test on [pa], and every such row gives a player. *)
Lemma build_output_players cfg expected_df ev_df rolling_data team_map year out :
  build_output cfg expected_df ev_df rolling_data team_map year = Ok out →
  (∀ p, p ∈ players out →
        ∃ row, row ∈ expected_df ∧ (Z.of_nat (MIN_PA cfg) ≤ s_pa row)%Z
               ∧ build_player ev_df rolling_data team_map row = Ok p)
  ∧ (∀ row, row ∈ expected_df → (Z.of_nat (MIN_PA cfg) ≤ s_pa row)%Z →
            ∃ p, p ∈ players out
                 ∧ build_player ev_df rolling_data team_map row = Ok p).
Proof.
  intros (qs & Hqs & _ & ->)%build_output_Ok. simpl. split.
  - intros p Hp. apply elem_of_sort_values in Hp.
    apply list_elem_of_lookup in Hp as [i Hi].
    destruct (Forall2_lookup_r _ _ _ _ _ Hqs Hi) as (row & Hrow & Hp).
    apply list_elem_of_lookup_2, list_elem_of_filter in Hrow as [? ?]. eauto.
  - intros row Hrow Hpa.
    assert (row ∈ filter (λ row, (Z.of_nat (MIN_PA cfg) ≤ s_pa row)%Z)
                    expected_df) as Hin by by apply list_elem_of_filter.
    apply list_elem_of_lookup in Hin as [i Hi].
    destruct (Forall2_lookup_l _ _ _ _ _ Hqs Hi) as (p & Hp & Hb).
    exists p. split; [|done].
    apply elem_of_sort_values. by eapply list_elem_of_lookup_2.
Qed.

Lemma key_lt_asym p q : key_lt p q = true → key_lt q p = false.
Proof.
  unfold key_lt.
  destruct (diff_rolling_OBA p), (diff_rolling_OBA q); try done.
  apply flt_asym.
Qed.

Lemma select_window_cons windows w order :
  select_window windows (w :: order)
  = match wd ← windows !! pretty w; w_diff_rolling_OBA wd with
    | Some d => Some d
    | None => select_window windows order
    end.
Proof.
  simpl. destruct (windows !! pretty w) as [wd|]; simpl; [|done].
  by destruct (w_diff_rolling_OBA wd).
Qed.

Lemma fifty_events_return :
  ∃ results, compute_rolling_metrics source_config fifty_events = Ok results.
Proof.
  destruct (compute_rolling_metrics source_config fifty_events)
    as [results|e] eqn:Hres; [by exists results|].
  vm_compute in Hres. discriminate Hres.
Qed.

(** ** Team affiliation *)

Lemma lookup_groupby_last (f : Z → option string) keys b :
  (list_to_map (omap (λ b, pair b <$> f b) keys) : gmap Z string) !! b
  = if decide (b ∈ keys) then f b else None.
Proof.
  induction keys as [|k keys IH]; csimpl.
  { by rewrite lookup_empty. }
  destruct (f k) as [t|] eqn:Hk; csimpl.
  - destruct (decide (k = b)) as [->|Hne].
    + rewrite lookup_insert_eq, decide_True by left. done.
    + rewrite lookup_insert_ne, IH by done.
      destruct (decide (b ∈ keys)) as [Hin|Hin].
      * by rewrite decide_True by by right.
      * rewrite decide_False; [done|].
        intros [->|?]%elem_of_cons; done.
  - rewrite IH. destruct (decide (k = b)) as [->|Hne].
    + rewrite (decide_True (P := b ∈ b :: keys)) by left.
      rewrite Hk. by case_decide.
    + destruct (decide (b ∈ keys)) as [Hin|Hin].
      * by rewrite decide_True by by right.
      * rewrite decide_False; [done|].
        intros [->|?]%elem_of_cons; done.
Qed.

Lemma extract_batter_teams_lookup quicksort pitch_df b :
  extract_batter_teams quicksort pitch_df !! b
  = bat_team <$> last (group_of (quicksort (events_notna pitch_df)) b).
Proof.
  unfold extract_batter_teams. rewrite lookup_groupby_last.
  rewrite fmap_last. case_decide as Hin; [done|].
  rewrite group_of_nonempty in Hin.
  destruct (group_of _ b); [done|simpl in Hin; lia].
Qed.

Lemma date_lt_asym r1 r2 : date_lt r1 r2 = true → date_lt r2 r1 = false.
Proof.
  unfold date_lt. rewrite bool_decide_eq_true, bool_decide_eq_false. lia.
Qed.

Lemma StronglySorted_filter {A} (R : relation A) (P : A → Prop)
    `{∀ x, Decision (P x)} l :
  StronglySorted R l → StronglySorted R (filter P l).
Proof.
  induction 1 as [|x l _ IH Hx]; [constructor|].
  rewrite filter_cons. case_decide; [|done].
  constructor; [done|]. apply Forall_forall. intros y Hy.
  apply list_elem_of_filter in Hy as [_ Hy].
  by apply (proj1 (Forall_forall _ _) Hx).
Qed.

Lemma StronglySorted_last {A} (R : relation A) l x :
  (∀ y, R y y) →
  StronglySorted R l → last l = Some x → Forall (λ y, R y x) l.
Proof.
  intros Hrefl Hl [l' ->]%last_Some.
  apply StronglySorted_app in Hl as (Hall & _ & _).
  apply Forall_app. split; [|by repeat constructor].
  apply Forall_forall. intros y Hy. apply Hall; [done|left].
Qed.

Lemma insertion_sorts_by_date : sorts_by_date insertion_by_date.
Proof.
  intros pa_df. split; [apply sort_values_Permutation|].
  apply Sorted_StronglySorted.
  { intros r1 r2 r3. lia. }
  eapply Sorted_weaken; [|apply sort_values_Sorted, date_lt_asym].
  intros r1 r2. unfold not_after, date_lt. rewrite bool_decide_eq_false. lia.
Qed.

Lemma group_by_date_sorted quicksort pitch_df b :
  sorts_by_date quicksort →
  StronglySorted (λ r1 r2, (game_date r1 ≤ game_date r2)%Z)
    (group_of (quicksort (events_notna pitch_df)) b).
Proof. intros Hsort. apply StronglySorted_filter, Hsort. Qed.

Lemma elem_of_group_by_date quicksort pitch_df b r :
  sorts_by_date quicksort →
  r ∈ group_of (quicksort (events_notna pitch_df)) b
  ↔ r ∈ pitch_df ∧ is_Some (events r) ∧ batter r = b.
Proof.
  intros Hsort. unfold group_of, events_notna.
  rewrite list_elem_of_filter, (proj1 (Hsort _)), list_elem_of_filter. tauto.
Qed.

Lemma length_group_by_date quicksort pitch_df b :
  sorts_by_date quicksort →
  length (group_of (quicksort (events_notna pitch_df)) b)
  = qualifying_count pitch_df b.
Proof.
  intros Hsort. unfold qualifying_count.
  by rewrite (group_of_Permutation _ _ b (proj1 (Hsort _))).
Qed.

(** ** When the run returns *)

Lemma Qc_sum_cons x xs : Qc_sum (x :: xs) = (x + Qc_sum xs)%Qc.
Proof. reflexivity. Qed.

Lemma Qc_sum_weights (rows : list pitch) :
  Forall (λ r, (0 ≤ woba_denom_num r)%Qc
               ∧ (woba_denom_num r = 0%Qc → woba_value_num r = 0%Qc)) rows →
  (0 ≤ Qc_sum (woba_denom_num <$> rows))%Qc
  ∧ (Qc_sum (woba_denom_num <$> rows) = 0%Qc →
     Qc_sum (woba_value_num <$> rows) = 0%Qc).
Proof.
  induction 1 as [|r rows [Hr0 Hrz] _ [IH0 IHz]]; [done|].
  rewrite !fmap_cons, !Qc_sum_cons.
  split; [by apply Qcplus_nonneg_nonneg|].
  intros Hsum.
  assert (woba_denom_num r = 0%Qc) as Hd.
  { apply Qcle_antisym; [|done]. rewrite <-Hsum.
    rewrite <-(Qcplus_0_r (woba_denom_num r)) at 1.
    by apply Qcplus_le_mono_l. }
  rewrite Hd, Qcplus_0_l in Hsum.
  by rewrite (Hrz Hd), (IHz Hsum).
Qed.

Lemma fdiv_zero_zero : fdiv (Fin 0%Qc) (Fin 0%Qc) = NaN.
Proof. reflexivity. Qed.

Lemma dropna_length_le l1 l2 :
  Forall2 (λ a b, a ≠ NaN → b ≠ NaN) l1 l2 →
  length (dropna l1) ≤ length (dropna l2).
Proof.
  unfold dropna. induction 1 as [|a b l1 l2 Hab _ IH]; [done|].
  rewrite !filter_cons. destruct (decide (a ≠ NaN)) as [Ha|Ha].
  - rewrite decide_True by auto. simpl. lia.
  - case_decide; simpl; lia.
Qed.

Lemma valid_woba_le_valid_xwoba w evs :
  Forall (λ r, (0 ≤ woba_denom_num r)%Qc
               ∧ (woba_denom_num r = 0%Qc → woba_value_num r = 0%Qc)) evs →
  length (dropna (rolling_woba w evs)) ≤ length (dropna (rolling_xwoba w evs)).
Proof.
  intros Hevs. apply dropna_length_le, Forall2_same_length_lookup_2.
  { by rewrite length_rolling_woba, length_rolling_xwoba. }
  intros i a b Ha Hb Hna.
  assert (i < length evs) as Hi.
  { apply lookup_lt_Some in Ha. by rewrite length_rolling_woba in Ha. }
  rewrite lookup_rolling_woba in Ha by done.
  rewrite lookup_rolling_xwoba in Hb by done.
  case_decide; [|by simplify_eq]. simplify_eq.
  set (rows := window_at w i evs) in *.
  destruct (Qc_sum_weights rows) as [_ Hz].
  { apply Forall_forall. intros r Hr.
    apply (proj1 (Forall_forall _ _) Hevs).
    unfold rows, window_at in Hr.
    by eapply subseteq_drop, subseteq_take. }
  destruct (decide (Qc_sum (woba_denom_num <$> rows) = 0%Qc)) as [HD|HD].
  - exfalso. apply Hna. unfold woba_ratio. by rewrite HD, (Hz HD).
  - unfold xwoba_ratio. by rewrite fdiv_Fin.
Qed.

Lemma trends_returns cfg vw vx :
  length vw ≤ length vx →
  ∃ tw tx, trends cfg vw vx = Ok (tw, tx) ∧ length tw ≤ length tx.
Proof.
  intros Hle.
  destruct (decide (TREND_POINTS cfg ≤ length vw)) as [Hn|Hn].
  - pose proof (linspace_int_in_range (length vw) _ Hn) as Hin.
    destruct (sample_total (py_round 3) vw _ Hin) as [tw Htw].
    destruct (sample_total (py_round 3) vx
                (linspace_int (length vw - 1) (TREND_POINTS cfg)))
      as [tx Htx].
    { eapply Forall_impl; [done|]. simpl. lia. }
    exists tw, tx. apply sample_Ok in Htw, Htx. split.
    + by apply trends_sampled.
    + apply Forall2_length in Htw, Htx. lia.
  - destruct (decide (length vw = 0)) as [H0|H0].
    + exists [], []. by rewrite trends_empty by lia.
    + exists (py_round 3 <$> vw), (py_round 3 <$> vx).
      rewrite trends_all by lia. by rewrite !length_fmap.
Qed.

Lemma trend_difference_returns tw tx :
  length tw ≤ length tx → ∃ td, trend_difference tw tx = Ok td.
Proof.
  intros Hle. apply mapM_exc_total, Forall_forall.
  intros i [_ Hi]%elem_of_seq. simpl in Hi.
  destruct (lookup_lt_is_Some_2 tw i) as [a Ha]; [lia|].
  destruct (lookup_lt_is_Some_2 tx i) as [b Hb]; [lia|].
  eexists. unfold iloc. rewrite Ha, Hb. done.
Qed.

Lemma window_metrics_returns cfg evs w :
  0 < w → w ≤ length evs →
  length (dropna (rolling_woba w evs)) ≤ length (dropna (rolling_xwoba w evs)) →
  ∃ wr, window_metrics cfg evs w = Ok wr.
Proof.
  intros H0 Hw Hle.
  destruct (trends_returns cfg _ _ Hle) as (tw & tx & Ht & Hlen).
  destruct (trend_difference_returns _ _ Hlen) as [td Hd].
  eexists. apply window_metrics_Ok.
  exists (none_if_na (woba_ratio (lastn w evs))),
         (none_if_na (xwoba_ratio (lastn w evs))),
         (none_if_na (ratio_differential (lastn w evs))), tw, tx, td.
  split; [by apply latest_Ok, last_rolling_woba|].
  split; [by apply latest_Ok, last_rolling_xwoba|].
  split; [by apply latest_Ok, last_rolling_diff|]. done.
Qed.

(** X20.  [compute_rolling_metrics] returns a result mapping, and raises
    nothing, on every frame in which the weights of the qualifying events
    are not negative and an event of weight zero has realized value zero,
    the configured windows being positive. *)
Theorem compute_rolling_metrics_returns cfg pitch_df :
  weights_consistent pitch_df →
  Forall (λ w, 0 < w) (ROLLING_WINDOWS cfg) →
  ∃ results, compute_rolling_metrics cfg pitch_df = Ok results.
Proof.
  intros Hwc Hpos. unfold compute_rolling_metrics.
  apply batters_loop_total. intros b _.
  set (group := group_of _ b).
  assert (Forall (λ r, (0 ≤ woba_denom_num r)%Qc
            ∧ (woba_denom_num r = 0%Qc → woba_value_num r = 0%Qc))
            (sort_values date_ab_lt group)) as Hevs.
  { apply Forall_forall. intros r Hr.
    apply (elem_of_batter_events pitch_df b) in Hr as (? & ? & ?).
    by apply Hwc. }
  unfold batter_metrics. case_decide; [by eexists|].
  destruct (windows_loop_total cfg (sort_values date_ab_lt group)
              (ROLLING_WINDOWS cfg) ∅) as [ws ->].
  { intros w Hin Hw. apply window_metrics_returns; [|done|].
    - by apply (proj1 (Forall_forall _ _) Hpos).
    - by apply valid_woba_le_valid_xwoba. }
  cbn. case_decide; by eexists.
Qed.

Lemma compute_rolling_metrics_returns_witness :
  ∃ results, compute_rolling_metrics source_config sixty_events = Ok results.
Proof.
  apply compute_rolling_metrics_returns.
  - intros r Hr _. unfold sixty_events in Hr.
    apply list_elem_of_fmap in Hr as (i & -> & _).
    split; [by vm_compute|]. intros H. discriminate H.
  - repeat constructor.
Defined.

(** The run raises when the realized series has more defined positions
    than the expected one. *)
Lemma misaligned_events_raise :
  compute_rolling_metrics source_config misaligned_events = Raise IndexError.
Proof. vm_compute. reflexivity. Qed.

Lemma last_rolling_diff_fsub w evs lw lx ld :
  last (rolling_woba w evs) = Some lw → last (rolling_xwoba w evs) = Some lx →
  last (rolling_diff w evs) = Some ld → ld = fsub lw lx.
Proof.
  rewrite !last_lookup, length_rolling_woba, length_rolling_xwoba,
    length_rolling_diff.
  unfold rolling_diff. rewrite lookup_zip_with. intros -> ->. simpl. congruence.
Qed.

Lemma merge_ev_Some ev_df id bb :
  merge_ev ev_df id = Some bb →
  ∃ rows ev_row, ev_df = Some rows ∧ ev_row ∈ rows ∧ ev_player_id ev_row = id
    ∧ exit_velocity bb = safe_round (avg_hit_speed ev_row) 1
    ∧ launch_angle bb = safe_round (avg_hit_angle ev_row) 1
    ∧ hard_hit_pct bb = safe_round (ev95percent ev_row) 1
    ∧ barrel_pct bb = safe_round (brl_percent ev_row) 1
    ∧ max_exit_velocity bb = safe_round (max_hit_speed ev_row) 1.
Proof.
  unfold merge_ev. destruct ev_df as [rows|]; simpl; [|done].
  destruct (head _) as [ev_row|] eqn:Hhead; simpl; [|done].
  intros [= <-]. exists rows, ev_row.
  apply head_Some_elem_of, list_elem_of_filter in Hhead as [? ?]. done.
Qed.

(** The merge returns an output when every provider differential is
    [None] or a float. *)
Lemma primary_differential_returns rolling_data row :
  s_est_woba_minus_woba_diff row = PNone
  ∨ (∃ x, s_est_woba_minus_woba_diff row = PFloat x) →
  ∃ d, primary_differential rolling_data row = Ok (Some d).
Proof.
  intros Hcell. unfold primary_differential.
  destruct (rolling_choice _ _) as [d|]; [by exists d|].
  unfold season_fallback. destruct Hcell as [->|[x ->]]; [by eexists|].
  destruct x; by eexists.
Qed.

Theorem build_output_returns cfg expected_df ev_df rolling_data team_map year :
  (∀ row, row ∈ expected_df →
     s_est_woba_minus_woba_diff row = PNone
     ∨ ∃ x, s_est_woba_minus_woba_diff row = PFloat x) →
  ∃ out, build_output cfg expected_df ev_df rolling_data team_map year = Ok out.
Proof.
  intros Hcells.
  set (rows := filter (λ row, (Z.of_nat (MIN_PA cfg) ≤ s_pa row)%Z) expected_df).
  assert (∃ qs,
    Forall2 (λ row p, build_player ev_df rolling_data team_map row = Ok p
                      ∧ is_Some (diff_rolling_OBA p)) rows qs) as [qs Hqs].
  { assert (Forall (λ row, row ∈ expected_df) rows) as Hin.
    { apply Forall_forall. intros row Hrow.
      by apply list_elem_of_filter in Hrow as [_ ?]. }
    induction Hin as [|row rows' Hrow _ [qs IH]]; [by exists []|].
    destruct (primary_differential_returns rolling_data row (Hcells _ Hrow))
      as [d Hd].
    eexists (_ :: qs). constructor; [|done]. split.
    - apply build_player_Ok. by exists (Some d).
    - simpl. by eexists. }
  eexists. apply build_output_Ok. exists qs. split; [|split; [|done]].
  - eapply Forall2_impl; [done|]. by intros ?? [? _].
  - intros [_ (p & Hp & Hnone)%Exists_exists].
    apply list_elem_of_lookup in Hp as [i Hi].
    destruct (Forall2_lookup_r _ _ _ _ _ Hqs Hi) as (row & _ & _ & [d Hd]).
    congruence.
Qed.

(** * The claims *)



(** C2, as amended.  In every stored window, with [n] the number of
    defined positions of the realized rolling series, the realized trend
    has exactly min(TREND_POINTS, n) values.  With at least TREND_POINTS
    defined positions, the [k]-th value is the rounded value at index
    [k * (n - 1) / (TREND_POINTS - 1)] of the defined positions, the
    quotient cut down to an integer, so the first and the last defined
    positions are both taken; with fewer, the trend is all the defined
    values in order, rounded; with none it is empty.  The same holds of
    the expected trend whenever the expected series has as many defined
    positions as the realized one.  The sampler returns both trends
    whenever the expected series has no fewer defined positions than the
    realized one. *)
Theorem trends_floor_indices cfg :
  (∀ s_w s_x,
     length (dropna s_w) ≤ length (dropna s_x) →
     ∃ tw tx,
       trends cfg (dropna s_w) (dropna s_x) = Ok (tw, tx)
       ∧ floor_sampled (TREND_POINTS cfg) (dropna s_w) tw
       ∧ (length (dropna s_x) = length (dropna s_w) →
          floor_sampled (TREND_POINTS cfg) (dropna s_x) tx))
  ∧ (∀ pitch_df results b br w wr,
       compute_rolling_metrics cfg pitch_df = Ok results →
       results !! b = Some br → windows br !! pretty w = Some wr →
       let vw := dropna (rolling_woba w (batter_events pitch_df b)) in
       let vx := dropna (rolling_xwoba w (batter_events pitch_df b)) in
       trends cfg vw vx = Ok (w_trend_woba wr, w_trend_xwoba wr)
       ∧ floor_sampled (TREND_POINTS cfg) vw (w_trend_woba wr)
       ∧ (length vx = length vw →
          floor_sampled (TREND_POINTS cfg) vx (w_trend_xwoba wr))).
Proof.
  split.
  - intros s_w s_x Hle.
    destruct (trends_returns cfg _ _ Hle) as (tw & tx & Ht & _).
    exists tw, tx. split; [done|]. by apply trends_floor_sampled.
  - intros pitch_df results b br w wr Hres Hb Hkey vw vx.
    destruct (compute_rolling_metrics_window _ _ _ _ _ _ _ Hres Hb Hkey)
      as (w' & _ & Heq & _ & Hm).
    apply (inj pretty) in Heq as <-.
    apply window_metrics_trends in Hm as (Ht & _).
    split; [done|]. by apply trends_floor_sampled.
Qed.

Lemma trends_floor_indices_witness :
  ∃ tw tx,
    trends source_config (dropna thirty_values)
      (dropna (NaN :: reverse thirty_values)) = Ok (tw, tx)
    ∧ length tw = 20 ∧ length tx = 20.
Proof.
  destruct (trends_floor_indices source_config) as [H _].
  destruct (H thirty_values (NaN :: reverse thirty_values))
    as (tw & tx & Ht & Hw & Hx); [vm_compute; lia|].
  exists tw, tx. split; [done|].
  destruct Hw as [Hlw _]. destruct Hx as [Hlx _]; [by vm_compute|].
  split; [exact Hlw|exact Hlx].
Defined.

(** The stored window 50 of seventy-nine events of weight 1: thirty
    defined realized positions. *)
Lemma ramp_events_stored :
  ∃ results br wr,
    compute_rolling_metrics source_config ramp_events = Ok results
    ∧ results !! 5%Z = Some br ∧ windows br !! "50"%string = Some wr
    ∧ window_metrics source_config (batter_events ramp_events 5) 50 = Ok wr.
Proof.
  destruct (compute_rolling_metrics source_config ramp_events)
    as [results|e] eqn:Hres; [|vm_compute in Hres; discriminate Hres].
  destruct (compute_rolling_metrics_present source_config ramp_events
              results 5%Z 50 Hres) as (br & wr & Hb & _ & Hw & Hm);
    [vm_compute; lia|apply list_elem_of_here|lia|vm_compute; lia|].
  exists results, br, wr.
  split; [reflexivity|]. split; [exact Hb|]. split; [exact Hw|exact Hm].
Qed.

(** The stored window 50 of seventy events of weight zero followed by
    nine hits: nine defined realized positions, thirty defined expected
    ones, whose ratios over the windows without weight are infinite. *)
Lemma bunts_then_hits_stored :
  ∃ results br wr,
    compute_rolling_metrics source_config (bunts_then_hits 70 9) = Ok results
    ∧ results !! 4%Z = Some br ∧ windows br !! "50"%string = Some wr
    ∧ length (dropna (rolling_woba 50
                (batter_events (bunts_then_hits 70 9) 4))) = 9
    ∧ length (dropna (rolling_xwoba 50
                (batter_events (bunts_then_hits 70 9) 4))) = 30
    ∧ length (w_trend_woba wr) = 9 ∧ length (w_trend_xwoba wr) = 30
    ∧ length (w_trend_diff wr) = 9.
Proof.
  destruct (compute_rolling_metrics source_config (bunts_then_hits 70 9))
    as [results|e] eqn:Hres; [|vm_compute in Hres; discriminate Hres].
  destruct (compute_rolling_metrics_present source_config
              (bunts_then_hits 70 9) results 4%Z 50 Hres)
    as (br & wr & Hb & _ & Hw & Hm);
    [vm_compute; lia|apply list_elem_of_here|lia|vm_compute; lia|].
  exists results, br, wr.
  split; [reflexivity|]. split; [exact Hb|]. split; [exact Hw|].
  split; [vm_compute; reflexivity|]. split; [vm_compute; reflexivity|].
  clear Hres Hb Hw. vm_compute in Hm. injection Hm as <-.
  split; [reflexivity|]. split; reflexivity.
Qed.

(** C2, as stated, fails.  With thirty defined positions the second of
    the twenty sampled indices is 1, while the exact position 29/19 is
    nearest to index 2.  And an expected series with thirty defined
    positions, beside a realized series with nine, has a trend of thirty
    values, not of min(20, 30). *)
Lemma trend_index_not_nearest :
  (∃ results br wr,
     compute_rolling_metrics source_config ramp_events = Ok results
     ∧ results !! 5%Z = Some br ∧ windows br !! "50"%string = Some wr
     ∧ length (dropna (rolling_woba 50 (batter_events ramp_events 5))) = 30
     ∧ w_trend_woba wr !! 1
       = py_round 3 <$>
           dropna (rolling_woba 50 (batter_events ramp_events 5)) !! 1
     ∧ ¬ ∃ j, nearest_index 29 20 1 j
              ∧ w_trend_woba wr !! 1
                = py_round 3 <$>
                    dropna (rolling_woba 50 (batter_events ramp_events 5))
                      !! j)
  ∧ (∃ results br wr,
       compute_rolling_metrics source_config (bunts_then_hits 70 9)
         = Ok results
       ∧ results !! 4%Z = Some br ∧ windows br !! "50"%string = Some wr
       ∧ length (dropna (rolling_xwoba 50
                   (batter_events (bunts_then_hits 70 9) 4))) = 30
       ∧ length (w_trend_xwoba wr) ≠ TREND_POINTS source_config `min` 30).
Proof.
  split.
  - destruct ramp_events_stored as (results & br & wr & Hres & Hb & Hw & Hm).
    exists results, br, wr.
    split; [exact Hres|]. split; [exact Hb|]. split; [exact Hw|].
    split; [vm_compute; reflexivity|].
    clear Hres Hb Hw. vm_compute in Hm. injection Hm as <-.
    split; [vm_compute; reflexivity|].
    intros (j & Hj & Heq).
    assert (j = 2) as ->.
    { specialize (Hj 2). simpl in Hj. lia. }
    vm_compute in Heq. discriminate Heq.
  - destruct bunts_then_hits_stored
      as (results & br & wr & Hres & Hb & Hw & _ & Hvx & _ & Hlx & _).
    exists results, br, wr.
    split; [exact Hres|]. split; [exact Hb|]. split; [exact Hw|].
    split; [exact Hvx|]. rewrite Hlx. simpl. lia.
Qed.

(** C9.  On seventy plate appearances of weight zero that carry an
    expected value, followed by nine hits, window 50 has nine defined
    realized ratios and thirty defined expected ones, and the run stores
    9 realized, 30 expected and 9 differential trend values: no list of
    indices gives both stored trends, and the expected trend has values
    without a differential. *)
Theorem misaligned_trend_arrays :
  ∃ results br wr,
    compute_rolling_metrics source_config (bunts_then_hits 70 9) = Ok results
    ∧ results !! 4%Z = Some br ∧ windows br !! "50"%string = Some wr
    ∧ length (w_trend_woba wr) = 9 ∧ length (w_trend_xwoba wr) = 30
    ∧ length (w_trend_diff wr) = 9
    ∧ ¬ ∃ indices,
          Forall2 (λ i y,
              py_round 3 <$> dropna (rolling_woba 50
                (batter_events (bunts_then_hits 70 9) 4)) !! i = Some y)
            indices (w_trend_woba wr)
          ∧ Forall2 (λ i y,
              py_round 3 <$> dropna (rolling_xwoba 50
                (batter_events (bunts_then_hits 70 9) 4)) !! i = Some y)
            indices (w_trend_xwoba wr).
Proof.
  destruct bunts_then_hits_stored
    as (results & br & wr & Hres & Hb & Hw & _ & _ & Hlw & Hlx & Hld).
  exists results, br, wr.
  split; [exact Hres|]. split; [exact Hb|]. split; [exact Hw|].
  split; [exact Hlw|]. split; [exact Hlx|]. split; [exact Hld|].
  intros (indices & H1 & H2).
  apply Forall2_length in H1, H2. lia.
Qed.

(** C10.  When every configured window is positive, the result mapping has
    an entry for a batter exactly when the batter has at least MIN_PA
    qualifying events and some configured window is no larger than that
    count; hence a batter with at least MIN_PA events but fewer than every
    configured window has no entry, which cannot happen when some
    configured window is at most MIN_PA; and every entry has a non-empty
    window mapping and records the count. *)
Theorem rolling_results_membership cfg pitch_df results :
  compute_rolling_metrics cfg pitch_df = Ok results →
  Forall (λ w, 0 < w) (ROLLING_WINDOWS cfg) →
  (∀ b, is_Some (results !! b)
        ↔ MIN_PA cfg ≤ qualifying_count pitch_df b
          ∧ ∃ w, w ∈ ROLLING_WINDOWS cfg ∧ w ≤ qualifying_count pitch_df b)
  ∧ (∀ b, MIN_PA cfg ≤ qualifying_count pitch_df b →
          (∀ w, w ∈ ROLLING_WINDOWS cfg → qualifying_count pitch_df b < w) →
          results !! b = None)
  ∧ (∀ w, w ∈ ROLLING_WINDOWS cfg → w ≤ MIN_PA cfg →
          ∀ b, MIN_PA cfg ≤ qualifying_count pitch_df b →
               is_Some (results !! b))
  ∧ (∀ b br, results !! b = Some br →
             windows br ≠ ∅ ∧ total_pa br = qualifying_count pitch_df b).
Proof.
  intros Hres Hpos.
  assert (∀ b, is_Some (results !! b)
        ↔ MIN_PA cfg ≤ qualifying_count pitch_df b
          ∧ ∃ w, w ∈ ROLLING_WINDOWS cfg ∧ w ≤ qualifying_count pitch_df b)
    as Hiff.
  { intros b. split.
    - intros [br Hb]. pose proof Hb as Hb'.
      apply (compute_rolling_metrics_lookup _ _ _ _ _ Hres) in Hb'
        as (Hmin & _ & Hne & _ & _).
      split; [done|].
      destruct (map_choose _ Hne) as (key & wr & Hkey).
      destruct (compute_rolling_metrics_window _ _ _ _ _ _ _ Hres Hb Hkey)
        as (w & ? & _ & ? & _). eauto.
    - intros (Hmin & w & Hin & Hw).
      destruct (compute_rolling_metrics_present _ _ _ b w Hres)
        as (br & _ & Hb & _); [done..| |done|by exists br].
      by apply (proj1 (Forall_forall _ _) Hpos). }
  split; [done|]. split; [|split].
  - intros b Hmin Hall. apply eq_None_not_Some. rewrite Hiff.
    intros (_ & w & Hin & Hw). specialize (Hall w Hin). lia.
  - intros w Hin Hw b Hmin. apply Hiff. split; [done|].
    exists w. split; [done|lia].
  - intros b br Hb.
    apply (compute_rolling_metrics_lookup _ _ _ _ _ Hres) in Hb
      as (_ & Hpa & Hne & _ & _). done.
Qed.

Lemma rolling_results_membership_witness :
  ∃ results,
    compute_rolling_metrics wide_window_config two_events = Ok results
    ∧ MIN_PA wide_window_config ≤ qualifying_count two_events 9
    ∧ results !! 9%Z = None.
Proof.
  destruct two_events_return as [results Hres].
  exists results. split; [done|].
  assert (MIN_PA wide_window_config ≤ qualifying_count two_events 9) as Hmin
    by (vm_compute; lia).
  split; [done|].
  destruct (rolling_results_membership wide_window_config two_events results
              Hres) as (_ & Hdrop & _ & _).
  - vm_compute. repeat constructor.
  - apply Hdrop; [done|].
    intros w Hw. vm_compute in Hw. apply list_elem_of_singleton in Hw as ->.
    vm_compute. lia.
Defined.

(** C3.  For a season row whose player has a rolling result, the primary
    differential is the headline differential of the first window in the
    order 100, 50, 250 whose headline differential is defined: window 100
    when it is defined, whatever window 50 holds; else window 50; else
    window 250.  A window that is missing or that is present with an
    undefined differential is passed over.  The merged record carries that
    value and the window block. *)
Theorem primary_differential_window_order ev_df rolling_data team_map row br :
  rolling_data !! s_player_id row = Some br →
  (∀ d, headline br 100 = Some d →
        primary_differential rolling_data row = Ok (Some d))
  ∧ (∀ d, headline br 100 = None → headline br 50 = Some d →
          primary_differential rolling_data row = Ok (Some d))
  ∧ (∀ d, headline br 100 = None → headline br 50 = None →
          headline br 250 = Some d →
          primary_differential rolling_data row = Ok (Some d))
  ∧ (∀ w wd, windows br !! pretty w = Some wd →
             w_diff_rolling_OBA wd = None → headline br w = None)
  ∧ (∀ p, build_player ev_df rolling_data team_map row = Ok p →
          primary_differential rolling_data row = Ok (diff_rolling_OBA p)
          ∧ rolling p = Some (windows br)
          ∧ total_pa_events p = Some (total_pa br)).
Proof.
  intros Hb.
  assert (∀ d, select_window (windows br) [100; 50; 250] = Some d →
               primary_differential rolling_data row = Ok (Some d)) as Hsel.
  { intros d Hd. unfold primary_differential, rolling_choice.
    rewrite Hb. cbn -[select_window]. by rewrite Hd. }
  unfold headline. repeat split.
  - intros d H100. apply Hsel. by rewrite select_window_cons, H100.
  - intros d H100 H50. apply Hsel.
    by rewrite !select_window_cons, H100, H50.
  - intros d H100 H50 H250. apply Hsel.
    by rewrite !select_window_cons, H100, H50, H250.
  - intros w wd -> Hd. done.
  - apply build_player_Ok in H as (d & Hd & ->). done.
  - apply build_player_Ok in H as (d & Hd & ->). simpl. by rewrite Hb.
  - apply build_player_Ok in H as (d & Hd & ->). simpl. by rewrite Hb.
Qed.

Lemma primary_differential_window_order_witness :
  primary_differential skipping_data (provider_row 7 300 PNone)
  = Ok (Some (Fin (qc 3 100))).
Proof.
  destruct (primary_differential_window_order None skipping_data ∅
              (provider_row 7 300 PNone)
              {| total_pa := 120;
                 windows := {[ "100"%string := window_with None;
                               "50"%string := window_with (Some (Fin (qc 3 100))) ]}
              |}) as (_ & H50 & _).
  - reflexivity.
  - apply H50; reflexivity.
Defined.

(** C4.  When no rolling differential is selected for a season row (the
    player has no rolling result, or none of the windows 100, 50, 250 has a
    defined headline differential), the primary differential is the
    negated provider differential rounded to 3 places when the provider
    differential is a defined number, so +0.020 gives -0.020, and exactly
    0.0 when the provider differential is [None] or NaN. *)
Theorem season_fallback_negated rolling_data row :
  rolling_data !! s_player_id row = None
  ∨ (∃ br, rolling_data !! s_player_id row = Some br
           ∧ ∀ w, w ∈ [100; 50; 250] → headline br w = None) →
  (∀ x, s_est_woba_minus_woba_diff row = PFloat x → x ≠ NaN →
        primary_differential rolling_data row = Ok (Some (py_round 3 (fneg x))))
  ∧ (s_est_woba_minus_woba_diff row = PFloat (Fin (qc 20 1000)) →
     primary_differential rolling_data row = Ok (Some (Fin (qc (-20) 1000))))
  ∧ (s_est_woba_minus_woba_diff row = PNone
     ∨ s_est_woba_minus_woba_diff row = PFloat NaN →
     primary_differential rolling_data row = Ok (Some (Fin 0%Qc))).
Proof.
  intros Hnone.
  assert (primary_differential rolling_data row = season_fallback row) as ->.
  { unfold primary_differential, rolling_choice.
    destruct Hnone as [->|(br & -> & Hall)]; [done|].
    cbn -[select_window]. rewrite !select_window_cons.
    fold (headline br 100) (headline br 50) (headline br 250).
    rewrite !Hall; [done|set_solver..]. }
  assert (∀ x, s_est_woba_minus_woba_diff row = PFloat x → x ≠ NaN →
    season_fallback row = Ok (Some (py_round 3 (fneg x)))) as Hneg.
  { intros x Hx Hnan. unfold season_fallback. rewrite Hx.
    by destruct x. }
  split; [done|]. split.
  - intros Hx. rewrite (Hneg _ Hx) by done.
    by do 3 f_equal.
  - unfold season_fallback. by intros [->| ->].
Qed.

Lemma season_fallback_negated_witness :
  primary_differential skipping_data (provider_row 1 300 (PFloat (Fin (qc 20 1000))))
  = Ok (Some (Fin (qc (-20) 1000))).
Proof.
  destruct (season_fallback_negated skipping_data
              (provider_row 1 300 (PFloat (Fin (qc 20 1000))))) as (_ & H & _).
  - left. reflexivity.
  - apply H. reflexivity.
Defined.

(** C5.  A batter with fewer than MIN_PA qualifying events has no entry in
    the rolling results, and every player of the final output comes from a
    season row whose plate-appearance count is at least MIN_PA, so a player
    all of whose season rows are below MIN_PA is not in the output.  At the
    boundary, a batter with exactly MIN_PA qualifying events has an entry,
    with the window [w], when a positive configured window [w] is at most
    MIN_PA, and a season row with at least MIN_PA plate appearances has its
    player in the output. *)
Theorem min_pa_exclusion cfg :
  (∀ pitch_df results b,
     compute_rolling_metrics cfg pitch_df = Ok results →
     qualifying_count pitch_df b < MIN_PA cfg → results !! b = None)
  ∧ (∀ pitch_df results b w,
       compute_rolling_metrics cfg pitch_df = Ok results →
       qualifying_count pitch_df b = MIN_PA cfg →
       w ∈ ROLLING_WINDOWS cfg → 0 < w → w ≤ MIN_PA cfg →
       ∃ br, results !! b = Some br ∧ total_pa br = MIN_PA cfg
             ∧ is_Some (windows br !! pretty w))
  ∧ ∀ expected_df ev_df rolling_data team_map year out,
      build_output cfg expected_df ev_df rolling_data team_map year = Ok out →
      (∀ p, p ∈ players out →
            (Z.of_nat (MIN_PA cfg) ≤ pa p)%Z
            ∧ ∃ row, row ∈ expected_df ∧ s_player_id row = player_id p
                     ∧ s_pa row = pa p)
      ∧ (∀ id, (∀ row, row ∈ expected_df → s_player_id row = id →
                       (s_pa row < Z.of_nat (MIN_PA cfg))%Z) →
               ∀ p, p ∈ players out → player_id p ≠ id)
      ∧ (∀ row, row ∈ expected_df → (Z.of_nat (MIN_PA cfg) ≤ s_pa row)%Z →
                ∃ p, p ∈ players out ∧ player_id p = s_player_id row
                     ∧ pa p = s_pa row
                     ∧ rolling p = windows <$> rolling_data !! s_player_id row).
Proof.
  split; [|split].
  - intros pitch_df results b Hres Hlt. apply eq_None_not_Some.
    intros [br Hb].
    apply (compute_rolling_metrics_lookup _ _ _ _ _ Hres) in Hb as (? & _).
    lia.
  - intros pitch_df results b w Hres Hn Hin H0 Hw.
    destruct (compute_rolling_metrics_present _ _ _ b w Hres)
      as (br & wr & Hb & Hpa & Hwr & _); [lia|done|done|lia|].
    exists br. split; [done|]. split; [lia|by exists wr].
  - intros expected_df ev_df rolling_data team_map year out Hout.
    destruct (build_output_players _ _ _ _ _ _ _ Hout) as [Hfrom Hto].
    assert (∀ p, p ∈ players out →
            (Z.of_nat (MIN_PA cfg) ≤ pa p)%Z
            ∧ ∃ row, row ∈ expected_df ∧ s_player_id row = player_id p
                     ∧ s_pa row = pa p) as Hmin.
    { intros p Hp. destruct (Hfrom p Hp) as (row & Hrow & Hpa & Hb).
      apply build_player_Ok in Hb as (d & _ & ->). simpl. eauto. }
    split; [done|]. split.
    + intros id Hall p Hp Hid.
      destruct (Hmin p Hp) as (Hpa & row & Hrow & Hrid & Hrpa).
      specialize (Hall row Hrow). lia.
    + intros row Hrow Hpa. destruct (Hto row Hrow Hpa) as (p & Hp & Hb).
      exists p. split; [done|].
      by apply build_player_Ok in Hb as (d & _ & ->).
Qed.

Lemma min_pa_exclusion_witness :
  ∃ results br,
    compute_rolling_metrics source_config fifty_events = Ok results
    ∧ qualifying_count fifty_events 7 = MIN_PA source_config
    ∧ results !! 7%Z = Some br ∧ is_Some (windows br !! "50"%string)
    ∧ results !! 8%Z = None.
Proof.
  destruct fifty_events_return as [results Hres].
  destruct (min_pa_exclusion source_config) as (Hbelow & Hat & _).
  destruct (Hat fifty_events results 7%Z 50 Hres) as (br & Hb & _ & Hw).
  - reflexivity.
  - apply list_elem_of_here.
  - lia.
  - reflexivity.
  - exists results, br. repeat split; [done..|].
    apply (Hbelow fifty_events results 8%Z Hres). vm_compute. lia.
Defined.

(** C7.  The final output list is in ascending order of the primary
    differential: of two adjacent records the first one's primary
    differential is at most the second one's.  This holds for every order
    of the season rows; the rolling data holds no NaN differential, as is
    the case for every result of [compute_rolling_metrics] and for the
    empty mapping. *)
Theorem output_sorted_ascending cfg expected_df ev_df rolling_data team_map
    year out :
  no_nan_differential rolling_data →
  build_output cfg expected_df ev_df rolling_data team_map year = Ok out →
  ∀ i p q, players out !! i = Some p → players out !! S i = Some q →
    ∃ x y, diff_rolling_OBA p = Some x ∧ diff_rolling_OBA q = Some y
           ∧ x ≠ NaN ∧ y ≠ NaN ∧ fle x y = true.
Proof.
  intros Hwf Hout i p q Hp Hq.
  destruct (build_output_players _ _ _ _ _ _ _ Hout) as [Hfrom _].
  apply build_output_Ok in Hout as (qs & Hqs & Hok & ->). simpl in *.
  assert (Forall (λ p, ∃ x, diff_rolling_OBA p = Some x ∧ x ≠ NaN)
                 (sort_values key_lt qs)) as Hkeys.
  { apply Forall_forall. intros p' Hp'.
    destruct (diff_rolling_OBA p') as [x|] eqn:Hx.
    - exists x. split; [done|].
      destruct (Hfrom p' Hp') as (row & _ & _ & Hb).
      apply build_player_Ok in Hb as (d & Hd & ->). simpl in Hx. subst d.
      by eapply primary_differential_not_nan.
    - exfalso. apply Hok. split.
      + apply lookup_lt_Some in Hq. rewrite length_sort_values in Hq. lia.
      + apply Exists_exists. exists p'.
        by rewrite <-(elem_of_sort_values key_lt). }
  destruct (proj1 (Forall_forall _ _) Hkeys p) as (x & Hx & Hxn);
    [by eapply list_elem_of_lookup_2|].
  destruct (proj1 (Forall_forall _ _) Hkeys q) as (y & Hy & Hyn);
    [by eapply list_elem_of_lookup_2|].
  exists x, y. repeat split; [done..|].
  pose proof (Sorted_lookup_succ _ _ _ _ _
                (sort_values_Sorted key_lt key_lt_asym qs) Hp Hq) as Hle.
  unfold not_after, key_lt in Hle. rewrite Hx, Hy in Hle.
  rewrite fle_flt by done. by rewrite Hle.
Qed.

Lemma output_sorted_ascending_witness :
  ∃ out,
    build_output source_config two_seasons None ∅ ∅ 2024 = Ok out
    ∧ player_id <$> players out = [1%Z; 2%Z]
    ∧ ∃ x y, diff_rolling_OBA <$> players out = [Some x; Some y]
             ∧ fle x y = true.
Proof.
  destruct (build_output source_config two_seasons None ∅ ∅ 2024)
    as [out|e] eqn:Hout; [|vm_compute in Hout; discriminate Hout].
  exists out. split; [done|].
  pose proof (output_sorted_ascending _ _ _ _ _ _ _
                no_nan_differential_empty Hout 0) as Hle.
  vm_compute in Hout. injection Hout as <-.
  split; [reflexivity|].
  destruct (Hle _ _ eq_refl eq_refl) as (x & y & Hx & Hy & _ & _ & Hxy).
  exists x, y. split; [|done]. simpl in Hx, Hy |- *. by rewrite Hx, Hy.
Defined.

(** C6, as amended.  Whatever routine orders the rows by game date, the
    team lookup maps a batter to the batting team of the last row of the
    batter's group in the date-ordered frame, which is one of the batter's
    qualifying events of its latest game date (the at-bat number is not
    consulted, and which event of that date comes last is left to the
    routine): the away team when the half-inning indicator is "Top", the
    home team otherwise.  A batter without qualifying events is not in the
    lookup, and the team of a merged record is the lookup value, or the
    empty string when the player is not in the lookup. *)
Theorem team_of_latest_game_date quicksort pitch_df b :
  sorts_by_date quicksort →
  extract_batter_teams quicksort pitch_df !! b
  = bat_team <$> last (group_of (quicksort (events_notna pitch_df)) b)
  ∧ (extract_batter_teams quicksort pitch_df !! b = None
     ↔ qualifying_count pitch_df b = 0)
  ∧ (∀ t, extract_batter_teams quicksort pitch_df !! b = Some t →
       ∃ r, r ∈ pitch_df ∧ is_Some (events r) ∧ batter r = b
         ∧ (∀ r', r' ∈ pitch_df → is_Some (events r') → batter r' = b →
                  (game_date r' ≤ game_date r)%Z)
         ∧ t = if decide (inning_topbot r = "Top"%string)
               then away_team r else home_team r)
  ∧ (∀ ev_df rolling_data team_map row p,
       build_player ev_df rolling_data team_map row = Ok p →
       team p = default EmptyString (team_map !! s_player_id row)).
Proof.
  intros Hsort.
  split; [apply extract_batter_teams_lookup|].
  set (group := group_of (quicksort (events_notna pitch_df)) b).
  pose proof (λ r, elem_of_group_by_date quicksort pitch_df b r Hsort)
    as Hgroup.
  pose proof (length_group_by_date quicksort pitch_df b Hsort) as Hlen.
  fold group in Hgroup, Hlen.
  split; [|split].
  - rewrite extract_batter_teams_lookup. fold group. rewrite <-Hlen.
    rewrite fmap_None, last_None. by destruct group.
  - intros t. rewrite extract_batter_teams_lookup. fold group.
    intros (r & Hlast & ->)%fmap_Some.
    exists r. pose proof (last_Some_elem_of _ _ Hlast) as Hr.
    apply Hgroup in Hr as (? & ? & ?). repeat split; [done..|].
    intros r' ? ? ?.
    assert (r' ∈ group) as Hr' by by apply Hgroup.
    assert (∀ y : pitch, (game_date y ≤ game_date y)%Z) as Hrefl
      by (intros y; lia).
    pose proof (StronglySorted_last _ _ _ Hrefl
                  (group_by_date_sorted quicksort pitch_df b Hsort) Hlast)
      as Hall.
    by apply (proj1 (Forall_forall _ _) Hall).
  - intros ev_df rolling_data team_map row p Hp.
    by apply build_player_Ok in Hp as (d & _ & ->).
Qed.

Lemma team_of_latest_game_date_witness :
  extract_batter_teams insertion_by_date (two_events ++ same_day_events)
    !! 1%Z
  = bat_team <$>
      last (group_of (insertion_by_date
                        (events_notna (two_events ++ same_day_events))) 1).
Proof.
  apply (team_of_latest_game_date insertion_by_date
           (two_events ++ same_day_events) 1).
  apply insertion_sorts_by_date.
Defined.

(** C6, as stated, fails: of two events of one day the team is taken from
    the one that the sorting routine puts last, which for the insertion
    sort that numpy's quicksort applies to so short a frame is the one
    that comes last in the frame, not the one with the larger at-bat
    number. *)
Lemma team_ignores_at_bat_number :
  sorts_by_date insertion_by_date
  ∧ extract_batter_teams insertion_by_date same_day_events !! 1%Z
    = Some "BOS"%string
  ∧ bat_team <$> last (batter_events same_day_events 1) = Some "NYY"%string.
Proof.
  split; [apply insertion_sorts_by_date|]. split; reflexivity.
Qed.

(** C8, as amended.  A rolling ratio is NaN, hence dropped from the trends
    and absent as a headline figure, at every position before a full
    window and wherever both the trailing weight sum and the trailing value
    sum are zero; where the weight sum is not zero the ratio is their
    quotient.  The headline figures of a window are the last values of the
    three series, rounded, and [None] (not zero) when that value is NaN;
    the last differential is the difference of the last two ratios, so it
    is NaN when either is.  [safe_round] gives [None] for [None], for NaN
    and for a value that [float()] rejects, and the season and batted-ball
    numbers of a merged record are [safe_round] of their cells.  By design
    a missing or unparseable realized value or weight of an event counts as
    zero, and a missing expected value is replaced by the realized value. *)
Theorem absent_values_stay_absent cfg :
  (∀ w evs i, i < length evs →
     let rows := window_at w i evs in
     let W := Qc_sum (woba_value_num <$> rows) in
     let X := Qc_sum (xwoba_value <$> rows) in
     let D := Qc_sum (woba_denom_num <$> rows) in
     (S i < w → rolling_woba w evs !! i = Some NaN
                ∧ rolling_xwoba w evs !! i = Some NaN)
     ∧ (w ≤ S i → D = 0%Qc → W = 0%Qc → rolling_woba w evs !! i = Some NaN)
     ∧ (w ≤ S i → D = 0%Qc → X = 0%Qc → rolling_xwoba w evs !! i = Some NaN)
     ∧ (w ≤ S i → D ≠ 0%Qc →
        rolling_woba w evs !! i = Some (Fin (W / D)%Qc)
        ∧ rolling_xwoba w evs !! i = Some (Fin (X / D)%Qc)))
  ∧ (∀ evs w wr, window_metrics cfg evs w = Ok wr →
       ∃ lw lx ld,
         last (rolling_woba w evs) = Some lw
         ∧ last (rolling_xwoba w evs) = Some lx
         ∧ last (rolling_diff w evs) = Some ld
         ∧ ld = fsub lw lx
         ∧ w_rolling_woba wr = (if isna lw then None else Some (py_round 3 lw))
         ∧ w_rolling_xwoba wr = (if isna lx then None else Some (py_round 3 lx))
         ∧ w_diff_rolling_OBA wr
           = (if isna ld then None else Some (py_round 3 ld)))
  ∧ (∀ decimals,
       safe_round PNone decimals = None
       ∧ safe_round (PFloat NaN) decimals = None
       ∧ safe_round (PObj None) decimals = None)
  ∧ (∀ ev_df rolling_data team_map row p,
       build_player ev_df rolling_data team_map row = Ok p →
       batting_avg p = safe_round (s_ba row) 3
       ∧ wOBA p = safe_round (s_woba row) 3
       ∧ xwOBA p = safe_round (s_est_woba row) 3
       ∧ diff_season p = safe_round (s_est_woba_minus_woba_diff row) 3
       ∧ xBA p = safe_round (s_est_ba row) 3
       ∧ xSLG p = safe_round (s_est_slg row) 3
       ∧ ∀ bb, batted p = Some bb →
           ∃ rows ev_row,
             ev_df = Some rows ∧ ev_row ∈ rows
             ∧ ev_player_id ev_row = s_player_id row
             ∧ exit_velocity bb = safe_round (avg_hit_speed ev_row) 1
             ∧ launch_angle bb = safe_round (avg_hit_angle ev_row) 1
             ∧ hard_hit_pct bb = safe_round (ev95percent ev_row) 1
             ∧ barrel_pct bb = safe_round (brl_percent ev_row) 1
             ∧ max_exit_velocity bb = safe_round (max_hit_speed ev_row) 1)
  ∧ (∀ r, (woba_value r = None → woba_value_num r = 0%Qc)
          ∧ (woba_denom r = None → woba_denom_num r = 0%Qc)
          ∧ (estimated_woba_using_speedangle r = None →
             xwoba_value r = woba_value_num r)).
Proof.
  split; [|split; [|split; [|split]]].
  - intros w evs i Hi rows W X D.
    rewrite lookup_rolling_woba, lookup_rolling_xwoba by done.
    fold rows. unfold woba_ratio, xwoba_ratio. fold W X D.
    split; [|split; [|split]].
    + intros Hlt. rewrite !decide_False by lia. by split.
    + intros Hw HD HW. rewrite decide_True by done.
      unfold D, W in *. by rewrite HD, HW.
    + intros Hw HD HX. rewrite decide_True by done.
      unfold D, X in *. by rewrite HD, HX.
    + intros Hw HD. rewrite !decide_True by done.
      rewrite !fdiv_Fin by done. by split.
  - intros evs w wr
      (lw & lx & ld & tw & tx & td & Hlw & Hlx & Hld & _ & _ & ->)
      %window_metrics_Ok.
    unfold latest in *.
    apply exc_fmap_Ok in Hlw as (a & Ha%iloc_last_Ok & ->).
    apply exc_fmap_Ok in Hlx as (b & Hb%iloc_last_Ok & ->).
    apply exc_fmap_Ok in Hld as (c & Hc%iloc_last_Ok & ->).
    exists a, b, c. repeat split; try done.
    + by eapply last_rolling_diff_fsub.
    + simpl. unfold none_if_na. by destruct (isna a).
    + simpl. unfold none_if_na. by destruct (isna b).
    + simpl. unfold none_if_na. by destruct (isna c).
  - done.
  - intros ev_df rolling_data team_map row p (d & _ & ->)%build_player_Ok.
    simpl. repeat split; try done. apply merge_ev_Some.
  - intros r. unfold woba_value_num, woba_denom_num, xwoba_value.
    repeat split; by intros ->.
Qed.

Lemma absent_values_stay_absent_witness :
  ∃ results br wr,
    compute_rolling_metrics source_config weightless_events = Ok results
    ∧ results !! 3%Z = Some br ∧ windows br !! "50"%string = Some wr
    ∧ w_diff_rolling_OBA wr = None.
Proof.
  destruct (compute_rolling_metrics source_config weightless_events)
    as [results|e] eqn:Hres; [|vm_compute in Hres; discriminate Hres].
  destruct (compute_rolling_metrics_present source_config weightless_events
              results 3%Z 50 Hres) as (br & wr & Hb & _ & Hw & Hm).
  - vm_compute. lia.
  - apply list_elem_of_here.
  - lia.
  - vm_compute. lia.
  - exists results, br, wr. repeat split; [done..|].
    destruct (absent_values_stay_absent source_config) as (_ & H & _).
    destruct (H _ _ _ Hm) as (lw & lx & ld & Hlw & Hlx & _ & -> & _ & _ & ->).
    vm_compute in Hlw, Hlx.
    injection Hlw as <-. injection Hlx as <-. reflexivity.
Defined.

(** C8, as stated, fails: the missing weight cells of these fifty events
    are resolved to zero, and although the trailing weight sum is zero the
    realized ratio of the window is not absent: it is infinite. *)
Lemma zero_weight_sum_not_absent :
  Forall (λ r, woba_denom r = None ∧ woba_denom_num r = 0%Qc) weightless_events
  ∧ Qc_sum (woba_denom_num <$> lastn 50 (batter_events weightless_events 3))
    = 0%Qc
  ∧ ∃ results br wr,
      compute_rolling_metrics source_config weightless_events = Ok results
      ∧ results !! 3%Z = Some br ∧ windows br !! "50"%string = Some wr
      ∧ w_rolling_woba wr = Some PInf.
Proof.
  split; [by apply Forall_replicate|].
  split; [by apply Qc_is_canon|].
  destruct (compute_rolling_metrics source_config weightless_events)
    as [results|e] eqn:Hres; [|vm_compute in Hres; discriminate Hres].
  destruct (compute_rolling_metrics_present source_config weightless_events
              results 3%Z 50 Hres) as (br & wr & Hb & _ & Hw & Hm);
    [vm_compute; lia|apply list_elem_of_here|lia|vm_compute; lia|].
  exists results, br, wr. repeat split; [done..|].
  apply window_metrics_headline in Hm as (-> & _); [|lia|vm_compute; lia].
  vm_compute. reflexivity.
Qed.

(** * Further properties *)

(** ** Sorting, filtering and ties

    The facts below hold on a domain [D] of rows on which "not smaller" is
    transitive: every row for the chronological order, the players with a
    defined primary differential for the ranking. *)

Section sort_values_stable.
Context {A : Type} (lt : A → A → bool) (D : A → Prop).
Context (P : A → Prop) `{∀ x, Decision (P x)}.
Hypothesis lt_asym : ∀ x y, lt x y = true → lt y x = false.
Hypothesis lt_trans : ∀ x y z, D x → D y → D z →
  lt y x = false → lt z y = false → lt z x = false.

Lemma sort_insert_StronglySorted x s :
  D x → Forall D s → StronglySorted (not_after lt) s →
  StronglySorted (not_after lt) (sort_insert lt x s).
Proof.
  intros Hx HD Hs. induction Hs as [|y s Hs IH Hy]; simpl.
  { repeat constructor. }
  apply Forall_cons in HD as [HDy HDs].
  destruct (lt y x) eqn:Hyx.
  - constructor; [by apply IH|].
    rewrite sort_insert_Permutation. constructor; [|done].
    by apply lt_asym.
  - constructor; [by constructor|].
    constructor; [done|].
    apply Forall_forall. intros z Hz.
    apply (lt_trans x y z); [done|done| |done|].
    + by apply (proj1 (Forall_forall _ _) HDs).
    + by apply (proj1 (Forall_forall _ _) Hy).
Qed.

Lemma sort_values_StronglySorted l :
  Forall D l → StronglySorted (not_after lt) (sort_values lt l).
Proof.
  induction 1 as [|x l Hx HD IH]; simpl; [constructor|].
  apply sort_insert_StronglySorted; [done| |done].
  by rewrite sort_values_Permutation.
Qed.

Lemma sort_values_sorted_id l :
  StronglySorted (not_after lt) l → sort_values lt l = l.
Proof.
  induction 1 as [|x l Hl IH Hx]; simpl; [done|].
  rewrite IH. destruct l as [|y l]; simpl; [done|].
  apply Forall_cons in Hx as [Hxy _]. unfold not_after in Hxy.
  by rewrite Hxy.
Qed.

Lemma sort_insert_filter_out x s :
  ¬ P x → filter P (sort_insert lt x s) = filter P s.
Proof.
  intros Hx. induction s as [|y s IH]; simpl.
  { by rewrite filter_cons, decide_False. }
  destruct (lt y x).
  - by rewrite !(filter_cons _ y), IH.
  - by rewrite (filter_cons _ x), decide_False.
Qed.

Lemma sort_insert_filter_in x s :
  P x → D x → Forall D s → StronglySorted (not_after lt) s →
  filter P (sort_insert lt x s) = sort_insert lt x (filter P s).
Proof.
  intros HPx Hx HD Hs. induction Hs as [|y s Hs IH Hy]; simpl.
  { by rewrite filter_cons, decide_True. }
  apply Forall_cons in HD as [HDy HDs].
  destruct (lt y x) eqn:Hyx.
  - rewrite !(filter_cons _ y), IH by done.
    case_decide; [|done]. simpl. by rewrite Hyx.
  - rewrite (filter_cons _ x), decide_True by done.
    destruct (filter P (y :: s)) as [|z s'] eqn:Hf; [done|].
    simpl. replace (lt z x) with false; [done|]. symmetry.
    assert (z ∈ y :: s) as Hz.
    { assert (z ∈ filter P (y :: s)) as Hin by (rewrite Hf; left).
      by apply list_elem_of_filter in Hin as [_ ?]. }
    apply elem_of_cons in Hz as [->|Hz]; [done|].
    apply (lt_trans x y z); [done|done| |done|].
    + by apply (proj1 (Forall_forall _ _) HDs).
    + by apply (proj1 (Forall_forall _ _) Hy).
Qed.

Lemma filter_sort_values l :
  Forall D l → filter P (sort_values lt l) = sort_values lt (filter P l).
Proof.
  induction 1 as [|x l Hx HD IH]; simpl; [done|].
  rewrite (filter_cons _ x). case_decide.
  - simpl. rewrite <-IH. apply sort_insert_filter_in; [done..| |].
    + by rewrite sort_values_Permutation.
    + by apply sort_values_StronglySorted.
  - rewrite <-IH. by apply sort_insert_filter_out.
Qed.

(** Rows that tie with one another keep their order. *)
Lemma sort_values_ties l :
  Forall D l →
  (∀ x y, x ∈ l → y ∈ l → P x → P y → lt x y = false) →
  filter P (sort_values lt l) = filter P l.
Proof.
  intros HD Hties. rewrite filter_sort_values by done.
  apply sort_values_sorted_id.
  assert (Forall (λ x, x ∈ l ∧ P x) (filter P l)) as Hin.
  { apply Forall_forall. intros x Hx.
    by apply list_elem_of_filter in Hx as [? ?]. }
  induction Hin as [|x k [Hx HPx] Hk IH]; constructor; [done|].
  eapply Forall_impl; [exact Hk|]. intros y [Hy HPy]. by apply Hties.
Qed.

End sort_values_stable.

(** ** The events of a batter do not depend on the rest of the frame *)

Lemma date_ab_lt_trans r1 r2 r3 :
  date_ab_lt r2 r1 = false → date_ab_lt r3 r2 = false →
  date_ab_lt r3 r1 = false.
Proof.
  unfold date_ab_lt.
  rewrite !orb_false_iff, !andb_false_iff, !bool_decide_eq_false. lia.
Qed.

Lemma sort_values_date_ab_idem l :
  sort_values date_ab_lt (sort_values date_ab_lt l) = sort_values date_ab_lt l.
Proof.
  apply sort_values_sorted_id.
  apply (sort_values_StronglySorted date_ab_lt (λ _, True)).
  - apply date_ab_lt_asym.
  - intros r1 r2 r3 _ _ _. apply date_ab_lt_trans.
  - by apply Forall_forall.
Qed.

Lemma batter_events_sorted_group pitch_df b :
  batter_events pitch_df b
  = sort_values date_ab_lt (group_of (events_notna pitch_df) b).
Proof.
  unfold batter_events, group_of.
  rewrite (filter_sort_values date_ab_lt (λ _, True)).
  - apply sort_values_date_ab_idem.
  - apply date_ab_lt_asym.
  - intros r1 r2 r3 _ _ _. apply date_ab_lt_trans.
  - by apply Forall_forall.
Qed.

Lemma compute_rolling_metrics_lookup_eq cfg df1 df2 r1 r2 b :
  compute_rolling_metrics cfg df1 = Ok r1 →
  compute_rolling_metrics cfg df2 = Ok r2 →
  batter_events df1 b = batter_events df2 b →
  r1 !! b = r2 !! b.
Proof.
  intros H1 H2 Hevs. apply option_eq. intros br.
  rewrite (compute_rolling_metrics_lookup _ _ _ _ _ H1).
  rewrite (compute_rolling_metrics_lookup _ _ _ _ _ H2).
  by rewrite <-!length_batter_events, Hevs.
Qed.

(** X1.  The entry of a batter in the result mapping depends only on that
    batter's own qualifying events: two frames that hold the same
    qualifying events of the batter, in the same order, give the batter the
    same entry, whatever else they hold. *)
Theorem rolling_result_of_own_events cfg df1 df2 r1 r2 b :
  compute_rolling_metrics cfg df1 = Ok r1 →
  compute_rolling_metrics cfg df2 = Ok r2 →
  group_of (events_notna df1) b = group_of (events_notna df2) b →
  r1 !! b = r2 !! b.
Proof.
  intros H1 H2 Hgroup. eapply compute_rolling_metrics_lookup_eq; [done..|].
  by rewrite !batter_events_sorted_group, Hgroup.
Qed.

Lemma rolling_result_of_own_events_witness :
  ∃ r1 r2,
    compute_rolling_metrics source_config sixty_events = Ok r1
    ∧ compute_rolling_metrics source_config (two_events ++ sixty_events)
      = Ok r2
    ∧ r1 !! 7%Z = r2 !! 7%Z.
Proof.
  destruct sixty_events_returns as [r1 H1].
  destruct (compute_rolling_metrics source_config (two_events ++ sixty_events))
    as [r2|e] eqn:H2; [|vm_compute in H2; discriminate H2].
  exists r1, r2. split; [done|]. split; [done|].
  apply (rolling_result_of_own_events source_config sixty_events
           (two_events ++ sixty_events) r1 r2 7%Z H1 H2).
  reflexivity.
Defined.

(** ** The order of the rows of the frame *)

Lemma events_notna_Permutation df1 df2 :
  df1 ≡ₚ df2 → events_notna df1 ≡ₚ events_notna df2.
Proof. intros Hp. unfold events_notna. by rewrite Hp. Qed.

Lemma batter_events_row_order df1 df2 b :
  df1 ≡ₚ df2 →
  (∀ r r', r ∈ df1 → r' ∈ df1 → is_Some (events r) → is_Some (events r') →
     batter r = batter r' → game_date r = game_date r' →
     at_bat_number r = at_bat_number r' → r = r') →
  batter_events df1 b = batter_events df2 b.
Proof.
  intros Hp Hdistinct.
  apply (StronglySorted_unique_strong date_ab_le);
    [|apply batter_events_sorted..|].
  - intros r r' Hr Hr' Hle Hge.
    apply elem_of_batter_events in Hr as (Hr & ? & ?).
    apply elem_of_batter_events in Hr' as (Hr' & ? & ?).
    rewrite <-Hp in Hr'.
    apply Hdistinct; [done..|congruence| |]; unfold date_ab_le in *; lia.
  - rewrite !batter_events_Permutation.
    by apply group_of_Permutation, events_notna_Permutation.
Qed.

Lemma groupby_keys_row_order pa1 pa2 :
  pa1 ≡ₚ pa2 → groupby_keys pa1 = groupby_keys pa2.
Proof.
  intros Hp. unfold groupby_keys.
  assert (∀ l, StronglySorted (λ x y : Z, (x ≤ y)%Z) (sort_values Z.ltb l))
    as Hsorted.
  { intros l. apply Sorted_StronglySorted; [intros x y z; lia|].
    eapply Sorted_weaken; [|apply sort_values_Sorted].
    - intros x y. unfold not_after. rewrite Z.ltb_ge. lia.
    - intros x y. rewrite Z.ltb_lt, Z.ltb_ge. lia. }
  apply (StronglySorted_unique_strong (λ x y : Z, (x ≤ y)%Z));
    [intros; lia|apply Hsorted..|].
  rewrite !sort_values_Permutation.
  apply NoDup_Permutation; [apply NoDup_remove_dups..|].
  intros x. by rewrite !elem_of_remove_dups, Hp.
Qed.

Lemma batters_loop_ext cfg pa1 pa2 todo acc :
  (∀ b, sort_values date_ab_lt (group_of pa1 b)
        = sort_values date_ab_lt (group_of pa2 b)) →
  batters_loop cfg pa1 todo acc = batters_loop cfg pa2 todo acc.
Proof.
  intros Hsame. revert acc. induction todo as [|b todo IH]; intros acc; [done|].
  assert (batter_metrics cfg (group_of pa1 b)
          = batter_metrics cfg (group_of pa2 b)) as Hm.
  { unfold batter_metrics. by rewrite (Hsame b). }
  simpl. rewrite Hm.
  destruct (batter_metrics cfg (group_of pa2 b)) as [r|e]; [|done].
  cbn. apply IH.
Qed.

(** X2.  The result of [compute_rolling_metrics] does not depend on the
    order of the rows of the frame, provided no two qualifying events of
    one batter share both the game date and the at-bat number: the two
    orders give the same mapping, or raise alike. *)
Theorem rolling_metrics_row_order cfg df1 df2 :
  df1 ≡ₚ df2 →
  (∀ r r', r ∈ df1 → r' ∈ df1 → is_Some (events r) → is_Some (events r') →
     batter r = batter r' → game_date r = game_date r' →
     at_bat_number r = at_bat_number r' → r = r') →
  compute_rolling_metrics cfg df1 = compute_rolling_metrics cfg df2.
Proof.
  intros Hp Hdistinct. unfold compute_rolling_metrics.
  rewrite (groupby_keys_row_order
             (sort_values date_ab_lt (events_notna df1))
             (sort_values date_ab_lt (events_notna df2))).
  - apply batters_loop_ext. intros b.
    by apply (batter_events_row_order df1 df2 b).
  - rewrite !sort_values_Permutation. by apply events_notna_Permutation.
Qed.

Lemma rolling_metrics_row_order_witness :
  compute_rolling_metrics source_config two_events
  = compute_rolling_metrics source_config (reverse two_events).
Proof.
  apply rolling_metrics_row_order.
  - apply Permutation_swap.
  - intros r r' Hr Hr' _ _ _ _ Hab.
    apply elem_of_cons in Hr as [->|Hr];
      apply elem_of_cons in Hr' as [->|Hr'];
      try apply list_elem_of_singleton in Hr as ->;
      try apply list_elem_of_singleton in Hr' as ->;
      first [reflexivity | discriminate Hab].
Defined.

(** ** The windows of an entry *)

(** X3.  The windows of an entry of the result mapping are exactly the
    configured windows that are no larger than the batter's count of
    events, each under the key [str(window)]; a configured window larger
    than the count is left out. *)
Theorem windows_of_entry cfg pitch_df results b br :
  compute_rolling_metrics cfg pitch_df = Ok results →
  results !! b = Some br →
  (∀ key, is_Some (windows br !! key)
          ↔ ∃ w, w ∈ ROLLING_WINDOWS cfg ∧ w ≤ total_pa br ∧ key = pretty w)
  ∧ (∀ w, total_pa br < w → windows br !! pretty w = None).
Proof.
  intros Hres Hb.
  pose proof Hb as (_ & Hpa & _ & Hloop & _)
    %(compute_rolling_metrics_lookup _ _ _ _ _ Hres).
  assert (∀ key, is_Some (windows br !! key)
          ↔ ∃ w, w ∈ ROLLING_WINDOWS cfg ∧ w ≤ total_pa br ∧ key = pretty w)
    as Hkeys.
  { intros key. split.
    - intros [wr Hkey].
      destruct (compute_rolling_metrics_window _ _ _ _ _ _ _ Hres Hb Hkey)
        as (w & ? & ? & ? & _).
      exists w. split; [done|]. split; [lia|done].
    - intros (w & Hin & Hw & ->).
      destruct (windows_loop_present _ _ _ _ _ w Hloop) as (wr & Hwr & _).
      + rewrite length_batter_events. lia.
      + by left.
      + by exists wr. }
  split; [done|].
  intros w Hw. apply eq_None_not_Some. rewrite Hkeys.
  intros (w' & _ & Hw' & Heq). apply (inj pretty) in Heq. lia.
Qed.

Lemma windows_of_entry_witness :
  ∃ results br,
    compute_rolling_metrics source_config sixty_events = Ok results
    ∧ results !! 7%Z = Some br
    ∧ is_Some (windows br !! "50"%string)
    ∧ windows br !! "100"%string = None.
Proof.
  destruct sixty_events_returns as [results Hres].
  destruct (compute_rolling_metrics_present source_config sixty_events
              results 7%Z 50 Hres) as (br & wr & Hb & Hpa & Hw & _);
    [vm_compute; lia|apply list_elem_of_here|lia|vm_compute; lia|].
  exists results, br.
  destruct (windows_of_entry source_config sixty_events results 7%Z br
              Hres Hb) as [Hkeys Hout].
  repeat split; [done..|by exists wr|].
  apply (Hout 100). rewrite Hpa. vm_compute. lia.
Defined.



(** ** The trend of a window and its headline figures *)

(** A series whose first [k] positions, and no others, are NaN. *)
Lemma dropna_warm_up (s : list pyfloat) k :
  (∀ i x, s !! i = Some x → x = NaN ↔ i < k) → dropna s = drop k s.
Proof.
  unfold dropna. revert k. induction s as [|x s IH]; intros k Hs.
  { by rewrite drop_nil. }
  destruct k as [|k].
  - rewrite drop_0. apply filter_all, Forall_forall.
    intros y [i Hi]%list_elem_of_lookup Hy.
    apply (Hs i y Hi) in Hy. lia.
  - rewrite filter_cons, decide_False.
    + simpl. apply IH. intros i y Hi. rewrite (Hs (S i) y Hi). lia.
    + intros Hx. apply Hx, (Hs 0 x); [done|lia].
Qed.

Lemma last_drop_lt {A} (l : list A) k : k < length l → last (drop k l) = last l.
Proof.
  intros Hk. rewrite !last_lookup, length_drop, lookup_drop. f_equal. lia.
Qed.

Lemma trends_last cfg vw vx tw tx :
  2 ≤ TREND_POINTS cfg → length vx = length vw → 0 < length vw →
  trends cfg vw vx = Ok (tw, tx) →
  length tw = TREND_POINTS cfg `min` length vw ∧ length tx = length tw
  ∧ last tw = py_round 3 <$> last vw ∧ last tx = py_round 3 <$> last vx.
Proof.
  intros HTP Hlen H0 Ht.
  destruct (decide (TREND_POINTS cfg ≤ length vw)) as [Hn|Hn].
  - apply trends_sampled in Ht as [Hw Hx]; [|done].
    pose proof (Forall2_length _ _ _ Hw) as Hlw.
    pose proof (Forall2_length _ _ _ Hx) as Hlx.
    rewrite length_linspace_int in Hlw, Hlx.
    pose proof (linspace_int_last (length vw - 1) (TREND_POINTS cfg) HTP)
      as Hlast.
    destruct (Forall2_lookup_l _ _ _ _ _ Hw Hlast) as (y & Hy & Hvy).
    destruct (Forall2_lookup_l _ _ _ _ _ Hx Hlast) as (z & Hz & Hvz).
    rewrite !last_lookup, <-Hlw, <-Hlx, Hlen.
    replace (pred (TREND_POINTS cfg)) with (TREND_POINTS cfg - 1) by lia.
    replace (pred (length vw)) with (length vw - 1) by lia.
    rewrite Hy, Hz, Hvy, Hvz. repeat split; lia.
  - rewrite trends_all in Ht by lia. simplify_eq.
    rewrite !length_fmap, !fmap_last. repeat split; lia.
Qed.

Lemma window_metrics_trend_last cfg evs w wr :
  0 < w → w ≤ length evs → 2 ≤ TREND_POINTS cfg →
  (∀ i, w ≤ S i → i < length evs →
     Qc_sum (woba_denom_num <$> window_at w i evs) ≠ 0%Qc) →
  window_metrics cfg evs w = Ok wr →
  length (w_trend_woba wr) = TREND_POINTS cfg `min` (length evs - w + 1)
  ∧ length (w_trend_xwoba wr) = length (w_trend_woba wr)
  ∧ length (w_trend_diff wr) = length (w_trend_woba wr)
  ∧ last (w_trend_woba wr) = w_rolling_woba wr
  ∧ last (w_trend_xwoba wr) = w_rolling_xwoba wr.
Proof.
  intros H0 Hw HTP Hnz Hm.
  pose proof (window_metrics_headline _ _ _ _ H0 Hw Hm) as (Hhw & Hhx & _).
  apply window_metrics_Ok in Hm
    as (lw & lx & ld & tw & tx & td & _ & _ & _ & Ht & Hd & ->).
  simpl in *. apply trend_difference_Ok in Hd as [Hld _].
  assert (dropna (rolling_woba w evs) = drop (w - 1) (rolling_woba w evs))
    as Hvw.
  { apply dropna_warm_up. intros i x Hi.
    assert (i < length evs) as Hlt.
    { apply lookup_lt_Some in Hi. by rewrite length_rolling_woba in Hi. }
    rewrite lookup_rolling_woba in Hi by done. case_decide as Hwi.
    - simplify_eq. unfold woba_ratio. rewrite fdiv_Fin by by apply Hnz.
      split; [done|lia].
    - simplify_eq. split; [lia|done]. }
  assert (dropna (rolling_xwoba w evs) = drop (w - 1) (rolling_xwoba w evs))
    as Hvx.
  { apply dropna_warm_up. intros i x Hi.
    assert (i < length evs) as Hlt.
    { apply lookup_lt_Some in Hi. by rewrite length_rolling_xwoba in Hi. }
    rewrite lookup_rolling_xwoba in Hi by done. case_decide as Hwi.
    - simplify_eq. unfold xwoba_ratio. rewrite fdiv_Fin by by apply Hnz.
      split; [done|lia].
    - simplify_eq. split; [lia|done]. }
  rewrite Hvw, Hvx in Ht.
  apply trends_last in Ht as (Hlw & Hlx & Hlastw & Hlastx); [|done|..].
  - rewrite length_drop, length_rolling_woba in Hlw.
    rewrite last_drop_lt in Hlastw by (rewrite length_rolling_woba; lia).
    rewrite last_drop_lt in Hlastx by (rewrite length_rolling_xwoba; lia).
    rewrite last_rolling_woba in Hlastw by done.
    rewrite last_rolling_xwoba in Hlastx by done.
    assert (Qc_sum (woba_denom_num <$> lastn w evs) ≠ 0%Qc) as Hlast.
    { rewrite <-window_at_last by done. apply Hnz; lia. }
    rewrite Hhw, Hhx, Hlastw, Hlastx. unfold woba_ratio, xwoba_ratio.
    rewrite !fdiv_Fin by done. repeat split; [lia|lia|lia].
  - by rewrite !length_drop, length_rolling_woba, length_rolling_xwoba.
  - rewrite length_drop, length_rolling_woba. lia.
Qed.

Lemma Qc_sum_ones (xs : list Qc) :
  Forall (λ x, x = 1%Qc) xs → xs ≠ [] → Qc_sum xs ≠ 0%Qc.
Proof.
  intros Hxs Hne.
  assert (0 < Qc_sum xs)%Qc as Hpos.
  { destruct Hxs as [|x xs -> Hxs]; [done|]. clear Hne.
    rewrite Qc_sum_cons.
    assert (0 ≤ Qc_sum xs)%Qc as Hle.
    { induction Hxs as [|y ys -> _ IH]; [done|]. rewrite Qc_sum_cons.
      replace 0%Qc with (0 + 0)%Qc by ring.
      by apply Qcplus_le_compat. }
    apply Qclt_le_trans with (1 + 0)%Qc; [done|].
    by apply Qcplus_le_compat. }
  intros Hz. rewrite Hz in Hpos. by apply Qclt_not_eq in Hpos.
Qed.

(** X5.  When every window of [w] consecutive events of the batter has a
    non-zero weight sum and at least two trend points are configured, the
    trend arrays of window [w] hold min(TREND_POINTS, n - w + 1) points
    each, [n] being the batter's count of events, and the last point of
    the realized and of the expected trend is the headline figure of the
    window. *)
Theorem trend_ends_at_headline cfg pitch_df results b br w wr :
  compute_rolling_metrics cfg pitch_df = Ok results →
  results !! b = Some br → windows br !! pretty w = Some wr →
  0 < w → 2 ≤ TREND_POINTS cfg →
  (∀ i, w ≤ S i → i < total_pa br →
     Qc_sum (woba_denom_num <$> window_at w i (batter_events pitch_df b))
     ≠ 0%Qc) →
  length (w_trend_woba wr) = TREND_POINTS cfg `min` (total_pa br - w + 1)
  ∧ length (w_trend_xwoba wr) = length (w_trend_woba wr)
  ∧ length (w_trend_diff wr) = length (w_trend_woba wr)
  ∧ last (w_trend_woba wr) = w_rolling_woba wr
  ∧ last (w_trend_xwoba wr) = w_rolling_xwoba wr.
Proof.
  intros Hres Hb Hkey H0 HTP Hnz.
  pose proof Hb as (_ & Hpa & _)
    %(compute_rolling_metrics_lookup _ _ _ _ _ Hres).
  destruct (compute_rolling_metrics_window _ _ _ _ _ _ _ Hres Hb Hkey)
    as (w' & _ & Heq & Hw & Hm).
  apply (inj pretty) in Heq as <-.
  rewrite Hpa, <-length_batter_events in *.
  by apply window_metrics_trend_last.
Qed.

Lemma trend_ends_at_headline_witness :
  ∃ results br wr,
    compute_rolling_metrics source_config sixty_events = Ok results
    ∧ results !! 7%Z = Some br ∧ windows br !! "50"%string = Some wr
    ∧ length (w_trend_woba wr) = 11
    ∧ last (w_trend_woba wr) = w_rolling_woba wr.
Proof.
  destruct sixty_events_returns as [results Hres].
  destruct (compute_rolling_metrics_present source_config sixty_events
              results 7%Z 50 Hres) as (br & wr & Hb & Hpa & Hw & _);
    [vm_compute; lia|apply list_elem_of_here|lia|vm_compute; lia|].
  exists results, br, wr.
  destruct (trend_ends_at_headline source_config sixty_events results 7%Z br
              50 wr Hres Hb Hw) as (Hlen & _ & _ & Hlast & _); [lia|simpl; lia| |].
  - intros i Hwi Hi. apply Qc_sum_ones.
    + apply Forall_forall. intros x Hx.
      apply list_elem_of_fmap in Hx as (r & -> & Hr).
      unfold window_at in Hr.
      apply subseteq_take, subseteq_drop in Hr.
      apply elem_of_batter_events in Hr as (Hr & _).
      revert r Hr. apply Forall_forall. vm_compute.
      repeat (constructor; [by do 2 f_equal|]). constructor.
    + intros Hnil%(f_equal length). revert Hnil.
      rewrite length_fmap. unfold window_at.
      rewrite length_take, length_drop, length_batter_events.
      rewrite Hpa in Hi.
      replace (qualifying_count sixty_events 7) with 60 in *
        by (vm_compute; reflexivity).
      simpl length. lia.
  - repeat split; [done..| |done].
    rewrite Hlen, Hpa. vm_compute. reflexivity.
Defined.

(** ** The trend is a subsequence of the rolling series *)

Lemma sample_sublist {A} (f : nat → nat) (l : list A) m a k t :
  (∀ i, a ≤ i → S i < a + m → f i < f (S i)) →
  (0 < m → k ≤ f a) →
  Forall2 (λ i y, l !! i = Some y) (f <$> seq a m) t →
  t `sublist_of` drop k l.
Proof.
  revert a k t. induction m as [|m IH]; intros a k t Hf Hk Ht.
  { apply Forall2_nil_inv_l in Ht as ->. apply sublist_nil_l. }
  simpl in Ht. apply Forall2_cons_inv_l in Ht as (y & t' & Hy & Ht' & ->).
  assert (k ≤ f a) as Hka by (apply Hk; lia).
  assert (drop k l = take (f a - k) (drop k l) ++ y :: drop (S (f a)) l) as ->.
  { rewrite <-(take_drop (f a - k) (drop k l)) at 1. f_equal.
    rewrite drop_drop. replace (k + (f a - k)) with (f a) by lia.
    by apply drop_S. }
  apply sublist_inserts_l, sublist_skip.
  apply (IH (S a)); [| |done].
  - intros i Hi Hlt. apply Hf; lia.
  - intros Hm. apply Hf; lia.
Qed.

Lemma linspace_int_step stop num i :
  2 ≤ num → num - 1 ≤ stop →
  i * stop / (num - 1) < S i * stop / (num - 1).
Proof.
  intros Hnum Hstop.
  apply Nat.lt_le_trans with ((i * stop + 1 * (num - 1)) / (num - 1)).
  - rewrite Nat.div_add by lia. lia.
  - apply Nat.Div0.div_le_mono. lia.
Qed.

Lemma trends_sublist cfg vw vx tw tx :
  trends cfg vw vx = Ok (tw, tx) →
  tw `sublist_of` (py_round 3 <$> vw) ∧ tx `sublist_of` (py_round 3 <$> vx).
Proof.
  intros Ht.
  destruct (decide (TREND_POINTS cfg ≤ length vw)) as [Hn|Hn].
  - apply trends_sampled in Ht as [Hw Hx]; [|done].
    unfold linspace_int in Hw, Hx.
    split.
    + rewrite <-(drop_0 (py_round 3 <$> vw)).
      apply (sample_sublist (λ i, i * (length vw - 1) / (TREND_POINTS cfg - 1))
               _ (TREND_POINTS cfg) 0); [| lia |].
      * intros i _ Hi. apply linspace_int_step; lia.
      * eapply Forall2_impl; [exact Hw|]. intros i y Hy.
        by rewrite list_lookup_fmap.
    + rewrite <-(drop_0 (py_round 3 <$> vx)).
      apply (sample_sublist (λ i, i * (length vw - 1) / (TREND_POINTS cfg - 1))
               _ (TREND_POINTS cfg) 0); [| lia |].
      * intros i _ Hi. apply linspace_int_step; lia.
      * eapply Forall2_impl; [exact Hx|]. intros i y Hy.
        by rewrite list_lookup_fmap.
  - unfold trends in Ht. rewrite decide_False in Ht by done.
    case_decide; exc_inv; simplify_eq; split; try done; apply sublist_nil_l.
Qed.

(** X6.  The realized and the expected trend of a stored window are
    subsequences of the rounded defined values of their rolling series:
    the points come in the order of the series, and no position of the
    series is used twice. *)
Theorem trend_is_subsequence cfg pitch_df results b br w wr :
  compute_rolling_metrics cfg pitch_df = Ok results →
  results !! b = Some br → windows br !! pretty w = Some wr →
  w_trend_woba wr
    `sublist_of` (py_round 3 <$> dropna (rolling_woba w (batter_events pitch_df b)))
  ∧ w_trend_xwoba wr
    `sublist_of` (py_round 3 <$> dropna (rolling_xwoba w (batter_events pitch_df b))).
Proof.
  intros Hres Hb Hkey.
  destruct (compute_rolling_metrics_window _ _ _ _ _ _ _ Hres Hb Hkey)
    as (w' & _ & Heq & _ & Hm).
  apply (inj pretty) in Heq as <-.
  apply window_metrics_Ok in Hm
    as (lw & lx & ld & tw & tx & td & _ & _ & _ & Ht & _ & ->).
  simpl. by apply (trends_sublist cfg).
Qed.

Lemma trend_is_subsequence_witness :
  ∃ results br wr,
    compute_rolling_metrics source_config sixty_events = Ok results
    ∧ results !! 7%Z = Some br ∧ windows br !! "50"%string = Some wr
    ∧ w_trend_woba wr
      `sublist_of` (py_round 3 <$> dropna (rolling_woba 50 (batter_events sixty_events 7))).
Proof.
  destruct sixty_events_returns as [results Hres].
  destruct (compute_rolling_metrics_present source_config sixty_events
              results 7%Z 50 Hres) as (br & wr & Hb & Hpa & Hw & _);
    [vm_compute; lia|apply list_elem_of_here|lia|vm_compute; lia|].
  exists results, br, wr. repeat split; [done..|].
  apply (trend_is_subsequence source_config sixty_events results 7%Z br 50 wr
           Hres Hb Hw).
Defined.

(** ** Events without an estimated value *)

Lemma rolling_xwoba_no_estimate w evs :
  Forall (λ r, estimated_woba_using_speedangle r = None) evs →
  rolling_xwoba w evs = rolling_woba w evs.
Proof.
  intros Hevs. unfold rolling_xwoba, rolling_woba. do 2 f_equal.
  apply Forall_fmap_ext_1. eapply Forall_impl; [exact Hevs|].
  intros r Hr. unfold xwoba_value. by rewrite Hr.
Qed.

Lemma fsub_diag x : fsub x x = Fin 0%Qc ∨ fsub x x = NaN.
Proof.
  destruct x; simpl; auto. left. f_equal. ring.
Qed.

Lemma py_round_zero ndigits : py_round ndigits (Fin 0%Qc) = Fin 0%Qc.
Proof.
  simpl. f_equal. unfold Qc_round. simpl Qnum. simpl Qden.
  rewrite Z.mul_0_l. unfold round_half_even. simpl. by apply Qc_is_canon.
Qed.

(** X7.  A batter none of whose qualifying events carries an estimated
    value has, in every stored window, an expected figure equal to the
    realized one and an expected trend equal to the realized trend; the
    headline differential is 0.0 or absent, and every point of the
    differential trend is 0.0 or NaN. *)
Theorem no_estimate_no_gap cfg pitch_df results b br key wr :
  compute_rolling_metrics cfg pitch_df = Ok results →
  results !! b = Some br → windows br !! key = Some wr →
  (∀ r, r ∈ pitch_df → is_Some (events r) → batter r = b →
        estimated_woba_using_speedangle r = None) →
  w_rolling_xwoba wr = w_rolling_woba wr
  ∧ w_trend_xwoba wr = w_trend_woba wr
  ∧ (w_diff_rolling_OBA wr = Some (Fin 0%Qc) ∨ w_diff_rolling_OBA wr = None)
  ∧ Forall (λ d, d = Fin 0%Qc ∨ d = NaN) (w_trend_diff wr).
Proof.
  intros Hres Hb Hkey Hnone.
  destruct (compute_rolling_metrics_window _ _ _ _ _ _ _ Hres Hb Hkey)
    as (w & _ & _ & _ & Hm).
  assert (Forall (λ r, estimated_woba_using_speedangle r = None)
            (batter_events pitch_df b)) as Hevs.
  { apply Forall_forall. intros r Hr.
    apply elem_of_batter_events in Hr as (? & ? & ?). by apply Hnone. }
  apply window_metrics_Ok in Hm
    as (lw & lx & ld & tw & tx & td & Hlw & Hlx & Hld & Ht & Hd & ->).
  simpl. unfold rolling_diff in Hld.
  rewrite (rolling_xwoba_no_estimate _ _ Hevs) in Hlx, Hld, Ht.
  assert (lx = lw) as -> by congruence.
  assert (tx = tw) as ->.
  { pose proof (trends_fst _ _ _ _ _ Ht) as Ht'. congruence. }
  split; [done|]. split; [done|]. split.
  - unfold latest, iloc_last in Hld.
    destruct (last _) as [d|] eqn:Hlast; [|done].
    cbn in Hld. injection Hld as <-.
    rewrite last_lookup in Hlast. apply lookup_zip_with_Some in Hlast
      as (x & y & -> & Hx & Hy).
    assert (y = x) as -> by congruence.
    destruct (fsub_diag x) as [->| ->]; [left|right; done].
    change (Some (py_round 3 (Fin 0%Qc)) = Some (Fin 0%Qc)).
    by rewrite py_round_zero.
  - apply trend_difference_Ok in Hd as [Hlen Hd].
    apply Forall_forall. intros d [i Hi]%list_elem_of_lookup.
    destruct (lookup_lt_is_Some_2 tw i) as [a Ha].
    { rewrite <-Hlen. by eapply lookup_lt_Some. }
    destruct (Hd i a Ha) as (a' & Ha' & Hdi).
    assert (a' = a) as -> by congruence.
    assert (d = py_round 3 (fsub a a)) as -> by congruence.
    destruct (fsub_diag a) as [->| ->]; [left|right; done].
    apply py_round_zero.
Qed.

Lemma no_estimate_no_gap_witness :
  ∃ results br wr,
    compute_rolling_metrics wide_window_config
      (two_events ++ [plate_appearance 9 2 1 (Some (qc 1 1)) (Some (qc 1 1)) None])
      = Ok results
    ∧ results !! 9%Z = Some br ∧ windows br !! "3"%string = Some wr
    ∧ w_rolling_xwoba wr = w_rolling_woba wr
    ∧ w_diff_rolling_OBA wr = Some (Fin 0%Qc).
Proof.
  set (df := two_events ++ _).
  destruct (compute_rolling_metrics wide_window_config df)
    as [results|e] eqn:Hres; [|vm_compute in Hres; discriminate Hres].
  destruct (compute_rolling_metrics_present wide_window_config df
              results 9%Z 3 Hres) as (br & wr & Hb & Hpa & Hw & Hm);
    [vm_compute; lia|apply list_elem_of_here|lia|vm_compute; lia|].
  exists results, br, wr.
  destruct (no_estimate_no_gap wide_window_config df results 9%Z br _ wr
              Hres Hb Hw) as (Hx & _ & Hd & _).
  - intros r Hr _ _. revert r Hr. apply Forall_forall.
    repeat (constructor; [reflexivity|]). constructor.
  - repeat split; [done..|].
    destruct Hd as [Hd|Hd]; [done|].
    apply window_metrics_headline in Hm as (_ & _ & Hh); [|lia|vm_compute; lia].
    rewrite Hd in Hh. vm_compute in Hh. discriminate Hh.
Defined.

(** ** The pipeline *)

Lemma main_Ok cfg quicksort P today out :
  main cfg quicksort P today = Ok out
  ↔ ∃ expected_df,
      fetch_expected_stats P (determine_season P today) = Ok expected_df
      ∧ build_output cfg expected_df (ev_table P (determine_season P today))
          (pitch_level_data cfg quicksort P (determine_season P today)
             today).1
          (pitch_level_data cfg quicksort P (determine_season P today)
             today).2
          (determine_season P today) = Ok out.
Proof.
  unfold main, ev_table. cbv zeta. rewrite exc_bind_Ok.
  by destruct (pitch_level_data cfg quicksort P (determine_season P today)
                 today) as [rd tm].
Qed.

Lemma pitch_level_data_cases cfg quicksort P year today :
  (∃ pitch_df results,
      fetch_pitch_level P year today = Ok pitch_df
      ∧ compute_rolling_metrics cfg pitch_df = Ok results
      ∧ pitch_level_data cfg quicksort P year today
        = (results, extract_batter_teams quicksort pitch_df))
  ∨ (pitch_level_data cfg quicksort P year today = (∅, ∅)
     ∧ ∀ pitch_df, fetch_pitch_level P year today = Ok pitch_df →
         ∃ e, compute_rolling_metrics cfg pitch_df = Raise e).
Proof.
  unfold pitch_level_data.
  destruct (fetch_pitch_level P year today) as [pitch_df|e] eqn:Hf; cbn.
  - destruct (compute_rolling_metrics cfg pitch_df) as [results|e] eqn:Hc; cbn.
    + left. by exists pitch_df, results.
    + right. split; [done|]. intros ? [= <-]. by exists e.
  - right. split; [done|]. by intros ? [=].
Qed.

Lemma pitch_level_data_no_nan cfg quicksort P year today :
  no_nan_differential (pitch_level_data cfg quicksort P year today).1.
Proof.
  destruct (pitch_level_data_cases cfg quicksort P year today)
    as [(pitch_df & results & _ & Hres & ->)|[-> _]]; simpl.
  - by eapply compute_rolling_metrics_no_nan.
  - apply no_nan_differential_empty.
Qed.

Lemma determine_season_found P today :
  season_found P (d_year today) = true
  ∨ season_found P (d_year today - 1) = true →
  season_found P (determine_season P today) = true
  ∧ (determine_season P today = d_year today
     ∨ determine_season P today = (d_year today - 1)%Z).
Proof.
  unfold determine_season. simpl.
  destruct (season_found P (d_year today)) eqn:H1; [by auto|].
  destruct (season_found P (d_year today - 1)) eqn:H2; [by auto|].
  by intros [?|?].
Qed.

Lemma season_found_fetch P year :
  season_found P year = true →
  ∃ rows, statcast_batter_expected_stats P year = Ok (Some rows)
    ∧ fetch_expected_stats P year = Ok rows ∧ 50 < length rows.
Proof.
  unfold season_found, fetch_expected_stats.
  destruct (statcast_batter_expected_stats P year) as [[rows|]|e]; [|done..].
  intros Hlen%bool_decide_eq_true. by exists rows.
Qed.

(** ** The players of an output and their keys *)

Lemma flt_neg_trans x y z :
  x ≠ NaN → y ≠ NaN → z ≠ NaN →
  flt y x = false → flt z y = false → flt z x = false.
Proof.
  destruct x as [a| | |], y as [b| | |], z as [c| | |]; simpl; try done.
  rewrite !bool_decide_eq_false. intros _ _ _ Hba Hcb Hca.
  apply Qcnot_lt_le in Hba, Hcb.
  apply (Qclt_not_le _ _ Hca). by apply Qcle_trans with b.
Qed.

Lemma key_lt_neg_trans p q r :
  ranked p → ranked q → ranked r →
  key_lt q p = false → key_lt r q = false → key_lt r p = false.
Proof.
  intros (x & Hx & ?) (y & Hy & ?) (z & Hz & ?). unfold key_lt.
  rewrite Hx, Hy, Hz. by apply flt_neg_trans.
Qed.

Lemma built_players_ranked ev_df rolling_data team_map rows qs :
  no_nan_differential rolling_data →
  Forall2 (λ row p, build_player ev_df rolling_data team_map row = Ok p)
    rows qs →
  ¬ (2 ≤ length qs ∧ Exists (λ p, diff_rolling_OBA p = None) qs) →
  2 ≤ length qs → Forall ranked qs.
Proof.
  intros Hwf Hqs Hok Hlen. apply Forall_forall. intros p Hp.
  destruct (diff_rolling_OBA p) as [x|] eqn:Hx.
  - exists x. split; [done|].
    apply list_elem_of_lookup in Hp as [i Hi].
    destruct (Forall2_lookup_r _ _ _ _ _ Hqs Hi) as (row & _ & Hb).
    apply build_player_Ok in Hb as (d & Hd & ->). simpl in Hx. subst d.
    by eapply primary_differential_not_nan.
  - exfalso. apply Hok. split; [done|]. apply Exists_exists. by exists p.
Qed.

Lemma sort_values_short {A} (lt : A → A → bool) (l : list A) :
  length l < 2 → sort_values lt l = l.
Proof. destruct l as [|x [|y l]]; simpl; [done..|lia]. Qed.

Lemma build_output_ranking cfg expected_df ev_df rolling_data team_map year out :
  no_nan_differential rolling_data →
  build_output cfg expected_df ev_df rolling_data team_map year = Ok out →
  StronglySorted (not_after key_lt) (players out)
  ∧ (2 ≤ length (players out) → Forall ranked (players out)).
Proof.
  intros Hwf (qs & Hqs & Hok & ->)%build_output_Ok. simpl.
  destruct (decide (2 ≤ length qs)) as [Hlen|Hlen].
  - pose proof (built_players_ranked _ _ _ _ _ Hwf Hqs Hok Hlen) as Hr.
    split.
    + by apply (sort_values_StronglySorted key_lt ranked);
        [apply key_lt_asym|apply key_lt_neg_trans|].
    + intros _. by rewrite sort_values_Permutation.
  - rewrite sort_values_short by lia. split; [|lia].
    destruct qs as [|x [|y l]]; simpl in *; [repeat constructor..|lia].
Qed.

Lemma StronglySorted_lookup_lt {A} (R : relation A) l i j x y :
  StronglySorted R l → i < j → l !! i = Some x → l !! j = Some y → R x y.
Proof.
  intros Hl. revert i j. induction Hl as [|z l Hl IH Hz]; intros i j Hij Hx Hy.
  { done. }
  destruct j as [|j]; [lia|]. destruct i as [|i]; simpl in *.
  - simplify_eq. apply (proj1 (Forall_forall _ _) Hz).
    by eapply list_elem_of_lookup_2.
  - apply (IH i j); [lia|done..].
Qed.

(** X8.  Whatever the provider answers, the players of the output of a
    run are in ascending order of their primary differential: of any two
    players the earlier one's differential is at most the later one's, and
    neither is absent or NaN.  No assumption on the rolling data is
    needed, since the rolling differentials that the run computes are
    never NaN. *)
Theorem main_output_sorted cfg quicksort P today out i j p q :
  main cfg quicksort P today = Ok out → i < j →
  players out !! i = Some p → players out !! j = Some q →
  ∃ x y, diff_rolling_OBA p = Some x ∧ diff_rolling_OBA q = Some y
         ∧ x ≠ NaN ∧ y ≠ NaN ∧ fle x y = true.
Proof.
  intros (expected_df & _ & Hout)%main_Ok Hij Hp Hq.
  destruct (build_output_ranking _ _ _ _ _ _ _
              (pitch_level_data_no_nan cfg quicksort P _ today) Hout)
    as [Hsorted Hranked].
  assert (2 ≤ length (players out)) as Hlen.
  { apply lookup_lt_Some in Hq. lia. }
  specialize (Hranked Hlen).
  destruct (proj1 (Forall_forall _ _) Hranked p) as (x & Hx & Hxn);
    [by eapply list_elem_of_lookup_2|].
  destruct (proj1 (Forall_forall _ _) Hranked q) as (y & Hy & Hyn);
    [by eapply list_elem_of_lookup_2|].
  exists x, y. repeat split; [done..|].
  pose proof (StronglySorted_lookup_lt _ _ _ _ _ _ Hsorted Hij Hp Hq) as Hle.
  unfold not_after, key_lt in Hle. rewrite Hx, Hy in Hle.
  rewrite fle_flt by done. by rewrite Hle.
Qed.

Lemma main_output_sorted_witness :
  ∃ out,
    main source_config insertion_by_date
      (example_provider two_seasons (Ok sixty_events)) (june_first 2025)
      = Ok out
    ∧ player_id <$> players out = [1%Z; 2%Z]
    ∧ ∃ x y, diff_rolling_OBA <$> players out = [Some x; Some y]
             ∧ fle x y = true.
Proof.
  set (P := example_provider two_seasons (Ok sixty_events)).
  destruct (main source_config insertion_by_date P (june_first 2025))
    as [out|e] eqn:Hout;
    [|vm_compute in Hout; discriminate Hout].
  exists out. split; [done|].
  pose proof (λ p q, main_output_sorted source_config insertion_by_date P
                       (june_first 2025) out 0 1 p q Hout) as Hle.
  vm_compute in Hout. injection Hout as <-.
  split; [reflexivity|].
  destruct (Hle _ _ ltac:(lia) eq_refl eq_refl)
    as (x & y & Hx & Hy & _ & _ & Hxy).
  exists x, y. split; [|done]. simpl in Hx, Hy |- *. by rewrite Hx, Hy.
Defined.

(** X9.  A run returns an output as soon as the provider has more than
    fifty season rows for the current or the previous year and every
    provider differential of a season row is a float or missing: the
    batted-ball query and the pitch-level query may fail, and the rolling
    computation may raise, without making the run fail.  The season of the
    output is then the current year or the previous one. *)
Theorem main_returns cfg quicksort P today :
  season_found P (d_year today) = true
  ∨ season_found P (d_year today - 1) = true →
  (∀ year rows row,
     statcast_batter_expected_stats P year = Ok (Some rows) → row ∈ rows →
     s_est_woba_minus_woba_diff row = PNone
     ∨ ∃ x, s_est_woba_minus_woba_diff row = PFloat x) →
  ∃ out, main cfg quicksort P today = Ok out
    ∧ season out = determine_season P today
    ∧ (season out = d_year today ∨ season out = (d_year today - 1)%Z).
Proof.
  intros Hfound Hcells.
  destruct (determine_season_found P today Hfound) as [Hy Hcase].
  destruct (season_found_fetch P _ Hy) as (rows & Hrows & Hfetch & _).
  destruct (build_output_returns cfg rows
              (ev_table P (determine_season P today))
              (pitch_level_data cfg quicksort P (determine_season P today)
                 today).1
              (pitch_level_data cfg quicksort P (determine_season P today)
                 today).2
              (determine_season P today)) as [out Hout].
  { intros row Hrow. by eapply Hcells. }
  exists out. split; [apply main_Ok; by exists rows|].
  apply build_output_Ok in Hout as (qs & _ & _ & ->). by simpl.
Qed.

Lemma main_returns_witness :
  ∃ out,
    main source_config insertion_by_date
      (example_provider (replicate 51 (provider_row 7 300 PNone))
         (Raise ValueError)) (june_first 2025) = Ok out
    ∧ season out = 2025%Z.
Proof.
  set (P := example_provider _ _).
  destruct (main_returns source_config insertion_by_date P (june_first 2025))
    as (out & Hout & Hy & _).
  - left. reflexivity.
  - intros year rows row Hrows Hin.
    change (Ok (Some (replicate 51 (provider_row 7 300 PNone)))
            = Ok (Some rows)) in Hrows.
    injection Hrows as <-.
    apply (proj1 (elem_of_replicate 51 (provider_row 7 300 PNone) row)) in Hin
      as [-> _].
    by left.
  - exists out. split; [done|]. rewrite Hy. reflexivity.
Defined.

(** X10.  Whatever routine orders the rows by game date, a player of the
    output of a run that carries a rolling block has, as its team, the
    batting team of one of its own plate appearances in the pitch-level
    frame of the season of the output: the empty default is used only for
    players without a rolling block. *)
Theorem rolling_player_has_team cfg quicksort P today out p :
  sorts_by_date quicksort →
  main cfg quicksort P today = Ok out → p ∈ players out →
  is_Some (rolling p) →
  ∃ pitch_df r,
    fetch_pitch_level P (season out) today = Ok pitch_df
    ∧ r ∈ pitch_df ∧ is_Some (events r) ∧ batter r = player_id p
    ∧ team p = bat_team r.
Proof.
  intros Hsort (expected_df & _ & Hout)%main_Ok Hp Hroll.
  destruct (build_output_players _ _ _ _ _ _ _ Hout) as [Hfrom _].
  destruct (Hfrom p Hp) as (row & _ & _ & Hb).
  apply build_output_Ok in Hout as (qs & _ & _ & ->). simpl in *.
  apply build_player_Ok in Hb as (d & _ & ->). simpl in *.
  apply fmap_is_Some in Hroll as [br Hbr].
  destruct (pitch_level_data_cases cfg quicksort P (determine_season P today)
              today)
    as [(pitch_df & results & Hf & Hres & Hdata)|[Hdata _]];
    rewrite Hdata in Hbr |- *; simpl in *; [|by rewrite lookup_empty in Hbr].
  apply (compute_rolling_metrics_lookup _ _ _ _ _ Hres) in Hbr
    as (_ & _ & _ & _ & Hpos).
  rewrite extract_batter_teams_lookup.
  set (group := group_of (quicksort (events_notna pitch_df))
                  (s_player_id row)).
  pose proof (length_group_by_date quicksort pitch_df (s_player_id row) Hsort)
    as Hlen.
  fold group in Hlen.
  destruct (last group) as [r|] eqn:Hlast.
  - exists pitch_df, r. pose proof (last_Some_elem_of _ _ Hlast) as Hr.
    apply (elem_of_group_by_date quicksort pitch_df _ r Hsort) in Hr
      as (? & ? & ?).
    by repeat split.
  - apply last_None in Hlast. rewrite Hlast in Hlen. simpl in Hlen. lia.
Qed.

Lemma rolling_player_has_team_witness :
  ∃ out p r,
    main source_config insertion_by_date
      (example_provider [provider_row 7 300 PNone] (Ok sixty_events))
      (june_first 2025) = Ok out
    ∧ players out = [p] ∧ r ∈ sixty_events ∧ team p = bat_team r.
Proof.
  set (P := example_provider _ _).
  destruct (main source_config insertion_by_date P (june_first 2025))
    as [out|e] eqn:Hout;
    [|vm_compute in Hout; discriminate Hout].
  assert (season out = 2024%Z) as Hy.
  { pose proof Hout as (rows & _ & Hout')%main_Ok.
    by apply build_output_Ok in Hout' as (qs & _ & _ & ->). }
  pose proof (λ p, rolling_player_has_team source_config insertion_by_date P
                     (june_first 2025) out p insertion_sorts_by_date Hout)
    as Hteam.
  rewrite Hy in Hteam. clear Hy.
  vm_compute in Hout. injection Hout as <-.
  destruct (Hteam _ (list_elem_of_here _ _))
    as (pitch_df & r & Hf & Hr & _ & _ & Ht); [eexists; reflexivity|].
  assert (pitch_df = sixty_events) as -> by (injection Hf as <-; reflexivity).
  eexists _, _, r. split; [done|]. split; [reflexivity|]. by split.
Defined.

(** X11.  In the output of a run whose pitch-level query fails, or whose
    rolling computation raises on the frame that the query returns, no
    player carries a rolling block or an event count and every team is
    empty: the team lookup is dropped together with the rolling data,
    even when it could be computed. *)
Theorem pitch_failure_season_only cfg quicksort P today out p :
  main cfg quicksort P today = Ok out →
  (∀ pitch_df, fetch_pitch_level P (season out) today = Ok pitch_df →
     ∃ e, compute_rolling_metrics cfg pitch_df = Raise e) →
  p ∈ players out →
  team p = EmptyString ∧ rolling p = None ∧ total_pa_events p = None.
Proof.
  intros (expected_df & _ & Hout)%main_Ok Hfail Hp.
  destruct (build_output_players _ _ _ _ _ _ _ Hout) as [Hfrom _].
  destruct (Hfrom p Hp) as (row & _ & _ & Hb).
  apply build_output_Ok in Hout as (qs & _ & _ & ->). simpl in *.
  apply build_player_Ok in Hb as (d & _ & ->). simpl.
  destruct (pitch_level_data_cases cfg quicksort P (determine_season P today)
              today)
    as [(pitch_df & results & Hf & Hres & _)|[-> _]].
  - destruct (Hfail pitch_df Hf) as [e He]. congruence.
  - simpl. by rewrite !lookup_empty.
Qed.

Lemma pitch_failure_season_only_witness :
  ∃ out p,
    main source_config insertion_by_date
      (example_provider [provider_row 3 300 PNone] (Ok misaligned_events))
      (june_first 2025) = Ok out
    ∧ players out = [p] ∧ team p = EmptyString ∧ rolling p = None.
Proof.
  set (P := example_provider _ _).
  destruct (main source_config insertion_by_date P (june_first 2025))
    as [out|e] eqn:Hout;
    [|vm_compute in Hout; discriminate Hout].
  assert (season out = 2024%Z) as Hy.
  { pose proof Hout as (rows & _ & Hout')%main_Ok.
    by apply build_output_Ok in Hout' as (qs & _ & _ & ->). }
  assert (∀ pitch_df,
            fetch_pitch_level P (season out) (june_first 2025) = Ok pitch_df →
            ∃ e, compute_rolling_metrics source_config pitch_df = Raise e)
    as Hfail.
  { rewrite Hy. intros pitch_df [= <-]. exists IndexError.
    apply misaligned_events_raise. }
  pose proof (λ p, pitch_failure_season_only source_config insertion_by_date
                     P (june_first 2025) out p Hout Hfail) as Hp.
  clear Hfail Hy. vm_compute in Hout. injection Hout as <-.
  eexists _, _. split; [done|]. split; [reflexivity|].
  destruct (Hp _ (list_elem_of_here _ _)) as (Ht & Hr & _). by split.
Defined.

(** ** The list of players *)

Lemma built_players_ids ev_df rolling_data team_map rows qs :
  Forall2 (λ row p, build_player ev_df rolling_data team_map row = Ok p)
    rows qs →
  (λ p, (player_id p, pa p)) <$> qs
  = (λ row, (s_player_id row, s_pa row)) <$> rows.
Proof.
  induction 1 as [|row p rows qs Hp _ IH]; [done|].
  apply build_player_Ok in Hp as (d & _ & ->). csimpl. by rewrite IH.
Qed.

(** X12.  The output holds exactly one player for every season row whose
    count of plate appearances reaches MIN_PA, with the identifier and the
    count of that row: rows that share an identifier are not merged, and
    [total_players] is both the length of the list of players and the
    number of such rows.  The season, the minimum count and the windows
    of the output are the year passed in and the module constants. *)
Theorem output_roster cfg expected_df ev_df rolling_data team_map year out :
  build_output cfg expected_df ev_df rolling_data team_map year = Ok out →
  total_players out = length (players out)
  ∧ total_players out = length (qualified_rows cfg expected_df)
  ∧ (λ p, (player_id p, pa p)) <$> players out
    ≡ₚ (λ row, (s_player_id row, s_pa row)) <$> qualified_rows cfg expected_df
  ∧ season out = year ∧ min_pa out = MIN_PA cfg
  ∧ rolling_windows out = ROLLING_WINDOWS cfg.
Proof.
  intros (qs & Hqs & _ & ->)%build_output_Ok. simpl.
  fold (qualified_rows cfg expected_df) in Hqs.
  split; [by rewrite length_sort_values|].
  split; [symmetry; by eapply Forall2_length|].
  split; [|done].
  rewrite sort_values_Permutation.
  by rewrite (built_players_ids _ _ _ _ _ Hqs).
Qed.

Lemma output_roster_witness :
  ∃ out,
    build_output source_config
      (provider_row 5 49 PNone :: two_seasons ++ two_seasons) None ∅ ∅ 2024
      = Ok out
    ∧ total_players out = 4.
Proof.
  destruct (build_output source_config
              (provider_row 5 49 PNone :: two_seasons ++ two_seasons)
              None ∅ ∅ 2024) as [out|e] eqn:Hout;
    [|vm_compute in Hout; discriminate Hout].
  exists out. split; [done|].
  by destruct (output_roster _ _ _ _ _ _ _ Hout) as (_ & -> & _).
Defined.

Lemma flt_irrefl x : flt x x = false.
Proof.
  destruct (flt x x) eqn:H; [|done].
  pose proof (flt_asym _ _ H). congruence.
Qed.

(** X13.  The ranking is stable: the players that share a primary
    differential stand in the output in the order of their season rows.
    The rolling data holds no NaN differential, as is the case for every
    result of [compute_rolling_metrics]. *)
Theorem ranking_ties_keep_row_order cfg expected_df ev_df rolling_data
    team_map year out d :
  no_nan_differential rolling_data →
  build_output cfg expected_df ev_df rolling_data team_map year = Ok out →
  ∃ qs,
    Forall2 (λ row p, build_player ev_df rolling_data team_map row = Ok p)
      (qualified_rows cfg expected_df) qs
    ∧ filter (λ p, diff_rolling_OBA p = Some d) (players out)
      = filter (λ p, diff_rolling_OBA p = Some d) qs.
Proof.
  intros Hwf (qs & Hqs & Hok & ->)%build_output_Ok. simpl.
  exists qs. split; [done|].
  destruct (decide (2 ≤ length qs)) as [Hlen|Hlen].
  - apply (sort_values_ties key_lt ranked).
    + apply key_lt_asym.
    + apply key_lt_neg_trans.
    + by eapply built_players_ranked.
    + intros p q _ _ Hp Hq. unfold key_lt. rewrite Hp, Hq. apply flt_irrefl.
  - by rewrite sort_values_short by lia.
Qed.

Lemma ranking_ties_keep_row_order_witness :
  ∃ out,
    build_output source_config
      [provider_row 4 300 PNone; provider_row 2 300 (PFloat (Fin (qc 1 10)));
       provider_row 3 300 (PFloat NaN)] None ∅ ∅ 2024 = Ok out
    ∧ player_id <$> players out = [2%Z; 4%Z; 3%Z].
Proof.
  set (rows := [_; _; _]).
  destruct (build_output source_config rows None ∅ ∅ 2024)
    as [out|e] eqn:Hout; [|vm_compute in Hout; discriminate Hout].
  exists out. split; [done|].
  destruct (ranking_ties_keep_row_order source_config rows None ∅ ∅ 2024 out
              (Fin 0%Qc) no_nan_differential_empty Hout) as (qs & _ & _).
  vm_compute in Hout. by injection Hout as <-.
Defined.

(** ** The primary differential and the season differential *)

Lemma round_half_even_opp n d :
  round_half_even (- n) d = (- round_half_even n d)%Z.
Proof.
  unfold round_half_even.
  pose proof (Z.mod_pos_bound n (Z.pos d) eq_refl) as Hr.
  destruct (decide (n mod Z.pos d = 0)%Z) as [Hz|Hnz].
  - rewrite Z.div_opp_l_z, Z.mod_opp_l_z, Hz by done.
    replace (2 * 0 ?= Z.pos d)%Z with Lt; [done|].
    symmetry. apply Z.compare_lt_iff. lia.
  - rewrite Z.div_opp_l_nz, Z.mod_opp_l_nz by done.
    set (q := (n / Z.pos d)%Z). set (r := (n mod Z.pos d)%Z) in *.
    assert (Z.even (- q - 1) = negb (Z.even q)) as Heven.
    { replace (- q - 1)%Z with (- (q + 1))%Z by lia.
      rewrite Z.even_opp, Z.even_add. by destruct (Z.even q). }
    destruct (Z.compare_spec (2 * r) (Z.pos d)) as [Heq|Hlt|Hgt].
    + rewrite (proj2 (Z.compare_eq_iff _ _)) by lia.
      rewrite Heven. destruct (Z.even q); simpl; lia.
    + rewrite (proj2 (Z.compare_gt_iff _ _)) by lia. lia.
    + rewrite (proj2 (Z.compare_lt_iff _ _)) by lia. lia.
Qed.

Lemma Qc_round_opp ndigits q :
  Qc_round ndigits (- q) = (- Qc_round ndigits q)%Qc.
Proof.
  unfold Qc_round.
  assert (this (- q)%Qc = (- this q)%Q) as Hthis.
  { simpl. rewrite Qred_opp. by rewrite (canon q). }
  rewrite Hthis. simpl Qnum. simpl Qden.
  rewrite Z.mul_opp_l, round_half_even_opp.
  apply Qc_is_canon. simpl. rewrite !Qred_correct. reflexivity.
Qed.

Lemma py_round_fneg ndigits x :
  py_round ndigits (fneg x) = fneg (py_round ndigits x).
Proof. destruct x; simpl; [|done..]. f_equal. apply Qc_round_opp. Qed.

Lemma fneg_not_nan x : x ≠ NaN → fneg x ≠ NaN.
Proof. by destruct x. Qed.

(** X14.  In every player of an output the primary differential can be
    read off the player's other keys: it is the differential of the first
    of the windows 100, 50, 250 of the rolling block that has one;
    without such a window it is the exact negative of the player's
    [diff_season] (absent when that is NaN), and 0.0 when [diff_season]
    is absent. *)
Theorem primary_differential_mirrored cfg expected_df ev_df rolling_data
    team_map year out p :
  build_output cfg expected_df ev_df rolling_data team_map year = Ok out →
  p ∈ players out →
  diff_rolling_OBA p = mirrored_differential p.
Proof.
  intros Hout Hp.
  destruct (build_output_players _ _ _ _ _ _ _ Hout) as [Hfrom _].
  destruct (Hfrom p Hp) as (row & _ & _ & Hb).
  apply build_player_Ok in Hb as (d & Hd & ->).
  unfold mirrored_differential. cbn -[select_window].
  unfold primary_differential, rolling_choice in Hd.
  destruct (rolling_data !! s_player_id row) as [br|];
    cbn -[select_window] in Hd |- *.
  - destruct (select_window (windows br) [100; 50; 250]) as [d'|].
    { by injection Hd as <-. }
    revert Hd. unfold season_fallback.
    destruct (s_est_woba_minus_woba_diff row) as [|x|[x|]]; cbn;
      try (by intros [= <-]); try done.
    + destruct x; cbn; intros [= <-]; try done.
      by rewrite <-Qc_round_opp.
    + destruct x; cbn; intros [= <-]; try done.
      by rewrite <-Qc_round_opp.
  - revert Hd. unfold season_fallback.
    destruct (s_est_woba_minus_woba_diff row) as [|x|[x|]]; cbn;
      try (by intros [= <-]); try done.
    + destruct x; cbn; intros [= <-]; try done.
      by rewrite <-Qc_round_opp.
    + destruct x; cbn; intros [= <-]; try done.
      by rewrite <-Qc_round_opp.
Qed.

Lemma primary_differential_mirrored_witness :
  ∃ out p q,
    build_output source_config two_seasons None ∅ ∅ 2024 = Ok out
    ∧ players out = [p; q]
    ∧ diff_rolling_OBA p = fneg <$> diff_season p.
Proof.
  destruct (build_output source_config two_seasons None ∅ ∅ 2024)
    as [out|e] eqn:Hout; [|vm_compute in Hout; discriminate Hout].
  pose proof (λ p, primary_differential_mirrored _ _ _ _ _ _ _ p Hout) as Hm.
  vm_compute in Hout. injection Hout as <-.
  eexists _, _, _. split; [done|]. split; [reflexivity|].
  rewrite (Hm _ (list_elem_of_here _ _)). reflexivity.
Defined.

(** X15.  A season row that reaches MIN_PA, has no rolling differential
    and whose provider differential is a value that [float()] rejects
    makes [build_output] raise: [safe_round] turns the cell into an absent
    [diff_season], but the fallback converts it unguarded, so no output
    is produced at all. *)
Theorem unparsable_fallback_raises cfg expected_df ev_df rolling_data
    team_map year row :
  row ∈ expected_df → (Z.of_nat (MIN_PA cfg) ≤ s_pa row)%Z →
  rolling_choice rolling_data (s_player_id row) = None →
  s_est_woba_minus_woba_diff row = PObj None →
  safe_round (s_est_woba_minus_woba_diff row) 3 = None
  ∧ ∃ e, build_output cfg expected_df ev_df rolling_data team_map year
         = Raise e.
Proof.
  intros Hrow Hpa Hroll Hcell. split; [by rewrite Hcell|].
  destruct (build_output cfg expected_df ev_df rolling_data team_map year)
    as [out|e] eqn:Hout; [|by exists e].
  destruct (build_output_players _ _ _ _ _ _ _ Hout) as [_ Hto].
  destruct (Hto row Hrow Hpa) as (p & _ & Hb).
  apply build_player_Ok in Hb as (d & Hd & _).
  unfold primary_differential, season_fallback in Hd.
  by rewrite Hroll, Hcell in Hd.
Qed.

Lemma unparsable_fallback_raises_witness :
  ∃ e, build_output source_config
         (two_seasons ++ [provider_row 9 300 (PObj None)]) None ∅ ∅ 2024
       = Raise e.
Proof.
  apply (unparsable_fallback_raises source_config
           (two_seasons ++ [provider_row 9 300 (PObj None)]) None ∅ ∅ 2024
           (provider_row 9 300 (PObj None))).
  - apply elem_of_app. right. apply list_elem_of_here.
  - simpl. lia.
  - reflexivity.
  - reflexivity.
Defined.

(** ** The batted-ball keys *)

Lemma merge_ev_head ev_df id :
  merge_ev ev_df id
  = batted_ball_of <$>
      (rows ← ev_df; head (filter (λ r, ev_player_id r = id) rows)).
Proof.
  unfold merge_ev. destruct ev_df as [rows|]; [|done]. simpl.
  by destruct (head _).
Qed.

(** X16.  The batted-ball keys of a player come from the first row of the
    exit-velocity table that carries the player's identifier, later rows
    of the same identifier being ignored; the keys are absent exactly when
    there is no table or no row of the table carries the identifier. *)
Theorem batted_ball_first_match ev_df id :
  (merge_ev ev_df id = None
   ↔ ev_df = None
     ∨ ∃ rows, ev_df = Some rows ∧ Forall (λ r, ev_player_id r ≠ id) rows)
  ∧ (∀ pre first_row post,
       ev_df = Some (pre ++ first_row :: post) →
       Forall (λ r, ev_player_id r ≠ id) pre → ev_player_id first_row = id →
       merge_ev ev_df id = Some (batted_ball_of first_row)).
Proof.
  rewrite merge_ev_head. split.
  - rewrite fmap_None. destruct ev_df as [rows|]; simpl.
    + rewrite head_None. split.
      * intros Hnil. right. exists rows. split; [done|].
        apply Forall_forall. intros r Hr Hid.
        assert (r ∈ filter (λ r, ev_player_id r = id) rows) as Hin
          by by apply list_elem_of_filter.
        rewrite Hnil in Hin. by apply elem_of_nil in Hin.
      * intros [?|(rows' & [= <-] & Hall)]; [done|].
        induction Hall as [|r rows Hr _ IH]; [done|].
        by rewrite filter_cons, decide_False.
    + split; [by left|done].
  - intros pre first_row post -> Hpre Hid. simpl. f_equal.
    rewrite filter_app, filter_cons, decide_True by done.
    replace (filter _ pre) with (@nil ev_row); [done|].
    symmetry. induction Hpre as [|r pre Hr _ IH]; [done|].
    by rewrite filter_cons, decide_False.
Qed.

Lemma batted_ball_first_match_witness :
  let first := {| ev_player_id := 7; avg_hit_speed := PFloat (Fin (qc 905 10));
                  avg_hit_angle := PNone; ev95percent := PNone;
                  brl_percent := PNone; max_hit_speed := PNone |} in
  let second := {| ev_player_id := 7; avg_hit_speed := PFloat (Fin (qc 80 1));
                   avg_hit_angle := PNone; ev95percent := PNone;
                   brl_percent := PNone; max_hit_speed := PNone |} in
  merge_ev (Some [first; second]) 7 = Some (batted_ball_of first).
Proof.
  intros first second.
  destruct (batted_ball_first_match (Some [first; second]) 7) as [_ H].
  apply (H [] first [second]); [done|constructor|done].
Defined.

(** ** The display name *)

Lemma split_comma_app last_name rest :
  contains "," last_name = false →
  split_comma (last_name +:+ "," +:+ rest) = Some (last_name, rest).
Proof.
  induction last_name as [|c s IH]; simpl; [done|].
  intros [Hc Hs]%orb_false_iff. apply bool_decide_eq_false in Hc.
  rewrite decide_False by done. by rewrite IH.
Qed.

Lemma split_comma_None s : contains "," s = false → split_comma s = None.
Proof.
  induction s as [|c s IH]; simpl; [done|].
  intros [Hc Hs]%orb_false_iff. apply bool_decide_eq_false in Hc.
  rewrite decide_False by done. by rewrite IH.
Qed.

(** X17.  The display name is cut at the first comma of the stripped name
    cell: what follows the first comma, stripped, comes first, then one
    space, then what precedes it, stripped; later commas stay in the
    first part.  A name cell without a comma is kept, stripped. *)
Theorem display_name_first_comma raw :
  (∀ last_name rest,
     strip raw = last_name +:+ "," +:+ rest →
     contains "," last_name = false →
     display_name raw = strip rest +:+ " " +:+ strip last_name)
  ∧ (contains "," (strip raw) = false → display_name raw = strip raw).
Proof.
  unfold display_name. split.
  - intros last_name rest -> Hlast. by rewrite split_comma_app.
  - intros Hnone. by rewrite split_comma_None.
Qed.

Lemma display_name_first_comma_witness :
  display_name " Griffey, Ken, Jr. " = "Ken, Jr. Griffey"%string.
Proof.
  destruct (display_name_first_comma " Griffey, Ken, Jr. ") as [H _].
  by rewrite (H "Griffey" " Ken, Jr."%string).
Defined.

(** ** The season of a run *)

(** X18.  [determine_season] prefers the current year: it returns it
    whenever the provider has more than fifty season rows for it.  A
    result other than 2024 is the current or the previous year, and the
    season table of that year is then fetched without error and has more
    than fifty rows.  When neither year has more than fifty rows (the
    provider failing, answering nothing or too little), the result is
    2024. *)
Theorem determine_season_checked P today :
  (season_found P (d_year today) = true →
     determine_season P today = d_year today)
  ∧ (determine_season P today ≠ 2024%Z →
       (determine_season P today = d_year today
        ∨ determine_season P today = (d_year today - 1)%Z)
       ∧ ∃ rows, fetch_expected_stats P (determine_season P today) = Ok rows
                 ∧ 50 < length rows)
  ∧ (season_found P (d_year today) = false →
     season_found P (d_year today - 1) = false →
       determine_season P today = 2024%Z).
Proof.
  split; [|split].
  - intros Hfound. unfold determine_season. simpl. by rewrite Hfound.
  - intros Hy.
    assert (season_found P (d_year today) = true
            ∨ season_found P (d_year today - 1) = true) as Hfound.
    { unfold determine_season in Hy. simpl in Hy.
      destruct (season_found P (d_year today)); [by left|].
      destruct (season_found P (d_year today - 1)); [by right|done]. }
    destruct (determine_season_found P today Hfound) as [Hok Hcase].
    split; [done|].
    destruct (season_found_fetch P _ Hok) as (rows & _ & ? & ?).
    by exists rows.
  - intros H1 H2. unfold determine_season. simpl. by rewrite H1, H2.
Qed.

Lemma determine_season_checked_witness :
  determine_season
    (example_provider (replicate 51 (provider_row 7 300 PNone))
       (Raise ValueError)) (june_first 2026) = 2026%Z
  ∧ determine_season (example_provider two_seasons (Raise ValueError))
      (june_first 2026) = 2024%Z.
Proof.
  split.
  - apply determine_season_checked. reflexivity.
  - apply determine_season_checked; reflexivity.
Defined.

(** X19.  The fallback season is not checked: when neither the current
    nor the previous year has more than fifty season rows and the provider
    has no season table for 2024, the run raises and gives no output. *)
Theorem fallback_season_unchecked cfg quicksort P today :
  season_found P (d_year today) = false →
  season_found P (d_year today - 1) = false →
  (∀ rows, statcast_batter_expected_stats P 2024 ≠ Ok (Some rows)) →
  ∃ e, main cfg quicksort P today = Raise e.
Proof.
  intros H1 H2 Hnone. unfold main. cbv zeta.
  replace (determine_season P today) with 2024%Z
    by (unfold determine_season; simpl; by rewrite H1, H2).
  unfold fetch_expected_stats.
  destruct (statcast_batter_expected_stats P 2024) as [[rows|]|e] eqn:Hp.
  - by destruct (Hnone rows).
  - by exists TypeError.
  - by exists e.
Qed.

Lemma fallback_season_unchecked_witness :
  ∃ e, main source_config insertion_by_date
         {| statcast_batter_expected_stats := λ _, Ok None;
            statcast_batter_exitvelo_barrels := λ _, Ok [];
            statcast := λ _ _, Ok sixty_events |} (june_first 2026)
       = Raise e.
Proof.
  apply fallback_season_unchecked; [reflexivity|reflexivity|].
  intros rows. simpl. discriminate.
Defined.

(** ** The dates of the pitch-level query *)

Lemma N_of_ascii_digit d :
  (d < 10)%N → N_of_ascii (pretty_N_char d) = (48 + d)%N.
Proof.
  intros Hd.
  assert (d = 0 ∨ d = 1 ∨ d = 2 ∨ d = 3 ∨ d = 4 ∨ d = 5 ∨ d = 6 ∨ d = 7
          ∨ d = 8 ∨ d = 9)%N as H by lia.
  repeat (destruct H as [->|H]; [reflexivity|]). by subst.
Qed.

Lemma N_div10_bounds a b n :
  (10 * a ≤ n < 10 * b)%N → (a ≤ n / 10 < b)%N.
Proof.
  intros [Ha Hb]. split.
  - by apply N.div_le_lower_bound.
  - by apply N.Div0.div_lt_upper_bound.
Qed.

Lemma pretty_N_go_digit n s :
  (0 < n < 10)%N → pretty_N_go n s = String (pretty_N_char n) s.
Proof.
  intros Hn. rewrite pretty_N_go_step by lia.
  rewrite N.div_small, N.mod_small by lia. apply pretty_N_go_0.
Qed.

Lemma pretty_four_digits (z : Z) :
  (1000 ≤ z ≤ 9999)%Z → pretty z = four_digits (Z.to_N z).
Proof.
  intros Hz. destruct z as [|p|p]; [lia| |lia].
  change (pretty (Z.pos p)) with (pretty (N.pos p)).
  change (Z.to_N (Z.pos p)) with (N.pos p).
  set (n := N.pos p). assert (1000 ≤ n < 10000)%N as Hn by lia. clearbody n.
  pose proof (N_div10_bounds 100 1000 n) as H1.
  pose proof (N_div10_bounds 10 100 (n / 10)) as H2.
  pose proof (N_div10_bounds 1 10 (n / 10 / 10)) as H3.
  unfold pretty, pretty_N. rewrite decide_False by lia.
  rewrite !pretty_N_go_step by lia.
  rewrite N.div_small by lia. rewrite pretty_N_go_0.
  unfold four_digits. do 1 f_equal. f_equal. rewrite N.mod_small by lia. done.
Qed.

Lemma pad2_two_digits (z : Z) :
  (0 ≤ z < 100)%Z → pad2 z = two_digits (Z.to_N z).
Proof.
  intros Hz. unfold pad2, two_digits. destruct z as [|p|p]; [done| |lia].
  change (pretty (Z.pos p)) with (pretty (N.pos p)).
  change (Z.to_N (Z.pos p)) with (N.pos p).
  set (n := N.pos p). assert (0 < n < 100)%N as Hn by lia.
  assert ((Z.pos p < 10)%Z ↔ (n < 10)%N) as Hlt by lia. clearbody n.
  unfold pretty, pretty_N. rewrite (decide_False (P := n = 0%N)) by lia.
  case_decide as Hsmall.
  - rewrite pretty_N_go_digit by lia.
    rewrite N.div_small, N.mod_small by lia. done.
  - pose proof (N_div10_bounds 1 10 n) as H1.
    rewrite pretty_N_go_step by lia. rewrite pretty_N_go_digit by lia. done.
Qed.

Lemma four_digits_value n :
  (n < 10000)%N →
  ∃ a b c d, (a < 10 ∧ b < 10 ∧ c < 10 ∧ d < 10)%N
    ∧ n = (1000 * a + 100 * b + 10 * c + d)%N
    ∧ four_digits n
      = String (pretty_N_char a) (String (pretty_N_char b)
          (String (pretty_N_char c) (String (pretty_N_char d) ""))).
Proof.
  intros Hn.
  exists (n / 10 / 10 / 10)%N, ((n / 10 / 10) `mod` 10)%N,
    ((n / 10) `mod` 10)%N, (n `mod` 10)%N.
  pose proof (N.div_mod n 10). pose proof (N.div_mod (n / 10) 10).
  pose proof (N.div_mod (n / 10 / 10) 10).
  pose proof (N.mod_lt n 10). pose proof (N.mod_lt (n / 10) 10).
  pose proof (N.mod_lt (n / 10 / 10) 10).
  pose proof (N_div10_bounds 0 1000 n).
  pose proof (N_div10_bounds 0 100 (n / 10)).
  pose proof (N_div10_bounds 0 10 (n / 10 / 10)).
  split; [lia|]. split; [lia|done].
Qed.

Lemma two_digits_value n :
  (n < 100)%N →
  ∃ a b, (a < 10 ∧ b < 10)%N ∧ n = (10 * a + b)%N
    ∧ two_digits n = String (pretty_N_char a) (String (pretty_N_char b) "").
Proof.
  intros Hn. exists (n / 10)%N, (n `mod` 10)%N.
  pose proof (N.div_mod n 10). pose proof (N.mod_lt n 10).
  pose proof (N_div10_bounds 0 10 n).
  split; [lia|]. split; [lia|done].
Qed.

Lemma append_cons c s t : String c s +:+ t = String c (s +:+ t).
Proof. done. Qed.

Lemma append_nil t : "" +:+ t = t.
Proof. done. Qed.

Lemma str_lt_iso_dates y m d y' :
  (y < 10000)%N → (m < 100)%N → (d < 100)%N → (y' < 10000)%N →
  str_lt (four_digits y +:+ "-" +:+ two_digits m +:+ "-" +:+ two_digits d)
         (four_digits y' +:+ "-10-05") = true
  ↔ (y < y' ∨ (y = y' ∧ (m < 10 ∨ (m = 10 ∧ d < 5))))%N.
Proof.
  intros Hy Hm Hd Hy'.
  destruct (four_digits_value y Hy) as (a3 & a2 & a1 & a0 & ? & -> & ->).
  destruct (four_digits_value y' Hy')
    as (b3 & b2 & b1 & b0 & ? & -> & ->).
  destruct (two_digits_value m Hm) as (m1 & m0 & ? & -> & ->).
  destruct (two_digits_value d Hd) as (d1 & d0 & ? & -> & ->).
  repeat (rewrite ?append_cons, ?append_nil). cbn [str_lt].
  rewrite !N_of_ascii_digit by lia.
  change (N_of_ascii "-") with 45%N. change (N_of_ascii "1") with 49%N.
  change (N_of_ascii "0") with 48%N. change (N_of_ascii "5") with 53%N.
  rewrite andb_false_r, orb_false_r.
  repeat first [rewrite orb_true_iff | rewrite andb_true_iff
               | rewrite N.ltb_lt | rewrite N.eqb_eq].
  lia.
Qed.

(** X21.  For years of four digits, the pitch-level query runs from
    March 20 of the season year to today's date when today lies before
    October 5 of the season year, and to October 5 of that year otherwise:
    taking the smaller of the two date strings agrees with the
    calendar. *)
Theorem season_dates_calendar P year today :
  (1000 ≤ year ≤ 9999)%Z → (1000 ≤ d_year today ≤ 9999)%Z →
  (0 ≤ d_month today < 100)%Z → (0 ≤ d_day today < 100)%Z →
  let end_ :=
    if decide (date_before today
                 {| d_year := year; d_month := 10; d_day := 5 |})
    then strftime_ymd today else pretty year +:+ "-10-05" in
  get_season_dates year today = (pretty year +:+ "-03-20", end_)
  ∧ fetch_pitch_level P year today
    = statcast P (pretty year +:+ "-03-20") end_.
Proof.
  intros Hy Hty Htm Htd end_.
  assert (get_season_dates year today = (pretty year +:+ "-03-20", end_))
    as Hdates.
  { unfold get_season_dates, str_min, end_. f_equal.
    assert (str_lt (strftime_ymd today) (pretty year +:+ "-10-05") = true
            ↔ date_before today
                {| d_year := year; d_month := 10; d_day := 5 |}) as Hlt.
    { unfold strftime_ymd.
      rewrite !pretty_four_digits, !pad2_two_digits by done.
      rewrite str_lt_iso_dates by lia. unfold date_before. simpl. lia. }
    destruct (str_lt _ _); case_decide; try done.
    - exfalso. tauto.
    - exfalso. assert (false = true) by tauto. done. }
  split; [done|]. unfold fetch_pitch_level. by rewrite Hdates.
Qed.

Lemma season_dates_calendar_witness :
  get_season_dates 2025 (june_first 2025)
  = ("2025-03-20"%string, "2025-06-01"%string)
  ∧ get_season_dates 2024 (june_first 2025)
    = ("2024-03-20"%string, "2024-10-05"%string).
Proof.
  split.
  - apply (season_dates_calendar (example_provider [] (Ok [])) 2025
             (june_first 2025)); simpl; lia.
  - apply (season_dates_calendar (example_provider [] (Ok [])) 2024
             (june_first 2025)); simpl; lia.
Defined.

(** ** The positions of the trends of a window *)

(** X22.  Sampling the two trends of a window again gives the same two
    trends.  In every stored window the differential trend has as many
    values as the realized trend and the expected trend has no fewer, and
    as many when the two rolling series have the same number of defined
    positions; at every position of the realized trend the two trends read
    the defined positions of their series at the same index, and the
    differential trend holds the rounded difference of the two trend
    values. *)
Theorem trend_positions_aligned cfg :
  (∀ s_w s_x tw tx,
     trends cfg (dropna s_w) (dropna s_x) = Ok (tw, tx) →
     trends cfg (dropna tw) (dropna tx) = Ok (tw, tx))
  ∧ ∀ pitch_df results b br key wr,
      compute_rolling_metrics cfg pitch_df = Ok results →
      results !! b = Some br → windows br !! key = Some wr →
      ∃ w, key = pretty w
        ∧ length (w_trend_diff wr) = length (w_trend_woba wr)
        ∧ length (w_trend_woba wr) ≤ length (w_trend_xwoba wr)
        ∧ (length (dropna (rolling_xwoba w (batter_events pitch_df b)))
           = length (dropna (rolling_woba w (batter_events pitch_df b))) →
           length (w_trend_xwoba wr) = length (w_trend_woba wr))
        ∧ ∀ i, i < length (w_trend_woba wr) →
            ∃ j a b' tw_i tx_i,
              dropna (rolling_woba w (batter_events pitch_df b)) !! j = Some a
              ∧ dropna (rolling_xwoba w (batter_events pitch_df b)) !! j
                = Some b'
              ∧ tw_i = py_round 3 a ∧ tx_i = py_round 3 b'
              ∧ w_trend_woba wr !! i = Some tw_i
              ∧ w_trend_xwoba wr !! i = Some tx_i
              ∧ w_trend_diff wr !! i = Some (py_round 3 (fsub tw_i tx_i)).
Proof.
  split; [apply trends_idem|].
  intros pitch_df results b br key wr Hres Hb Hkey.
  destruct (compute_rolling_metrics_window _ _ _ _ _ _ _ Hres Hb Hkey)
    as (w & _ & -> & _ & Hm).
  exists w. split; [done|].
  apply window_metrics_trends in Hm as (Ht & Hlen & Hi).
  split; [done|]. split; [|split].
  - destruct (decide (length (w_trend_woba wr) ≤ length (w_trend_xwoba wr)))
      as [?|Hgt]; [done|].
    destruct (Hi (length (w_trend_xwoba wr))) as (j & a & b' & _ & _ & _ & Hx & _);
      [lia|].
    apply lookup_lt_Some in Hx. lia.
  - intros Hsame. by eapply trends_length_aligned.
  - intros i Hlt. destruct (Hi i Hlt) as (j & a & b' & ? & ? & ? & ? & ?).
    exists j, a, b', (py_round 3 a), (py_round 3 b'). by repeat split.
Qed.

Lemma trend_positions_aligned_witness :
  ∃ results br wr,
    compute_rolling_metrics source_config sixty_events = Ok results
    ∧ results !! 7%Z = Some br ∧ windows br !! "50"%string = Some wr
    ∧ length (w_trend_diff wr) = length (w_trend_woba wr)
    ∧ length (w_trend_woba wr) ≤ length (w_trend_xwoba wr).
Proof.
  destruct sixty_events_returns as [results Hres].
  destruct (compute_rolling_metrics_present source_config sixty_events
              results 7%Z 50 Hres) as (br & wr & Hb & _ & Hw & _);
    [vm_compute; lia|apply list_elem_of_here|lia|vm_compute; lia|].
  exists results, br, wr.
  split; [exact Hres|]. split; [exact Hb|]. split; [exact Hw|].
  destruct (trend_positions_aligned source_config) as [_ H].
  destruct (H sixty_events results 7%Z br _ wr Hres Hb Hw)
    as (w & _ & Hlen & Hle & _).
  split; [exact Hlen|exact Hle].
Defined.
